(** * 2.5D Lands: the terrain-synthesis pipeline

    A shallow embedding of [src/Noise.cpp] (gradient noise and its layering)
    and [src/World.cpp] (biome classification and the four generation passes
    of [GenerateWorld]), with the constants of [GameConstants.h].
    The code that uses the generated grid follows: [Player.cpp] (the movement
    of the player over the tiles), [Renderer.cpp] with the drawing loop of
    [main.cpp], and the statistics loop that closes [GenerateWorld].

    C++ [float] is IEEE-754 binary32.  It is modelled bit for bit by the
    Standard Library's [spec_float] at precision 24 and maximal exponent 128:
    every arithmetic operation rounds to nearest, ties to even, and the
    comparisons are the IEEE ones (a NaN compares false with everything). *)

From Stdlib Require Import ZArith Bool Lia.
From Stdlib Require Import Floats.SpecFloat.
From stdpp Require Import base tactics option list gmap.

Local Open Scope Z_scope.

(* ===================================================================== *)
(** * Binary32 arithmetic *)
(* ===================================================================== *)

Module F32.

Definition prec : Z := 24.
Definition emax : Z := 128.

Definition f32 : Type := spec_float.

Definition add : f32 -> f32 -> f32 := SFadd prec emax.
Definition sub : f32 -> f32 -> f32 := SFsub prec emax.
Definition mul : f32 -> f32 -> f32 := SFmul prec emax.
Definition div : f32 -> f32 -> f32 := SFdiv prec emax.
Definition neg : f32 -> f32 := SFopp.
Definition abs : f32 -> f32 := SFabs.
Definition sqrt : f32 -> f32 := SFsqrt prec emax.

(** [a < b], [a <= b], [a > b], [a >= b] and [a == b] of C++. *)
Definition lt (a b : f32) : bool := SFltb a b.
Definition le (a b : f32) : bool := SFleb a b.
Definition gt (a b : f32) : bool := lt b a.
Definition ge (a b : f32) : bool := le b a.
Definition eq (a b : f32) : bool := SFeqb a b.

Definition is_nan (a : f32) : bool :=
  match a with S754_nan => true | _ => false end.

(** The value is a binary32 datum: canonical mantissa, exponent in range. *)
Definition valid (a : f32) : bool := valid_binary prec emax a.

(** Conversion of an [int] to [float] (rounds when the integer has more
    than 24 significant bits). *)
Definition of_int (z : Z) : f32 := binary_normalize prec emax z 0 false.

(** A decimal literal [n/d] written with the [f] suffix: the compiler
    converts it with correct rounding, which is what the correctly rounded
    quotient of the two exactly representable integers gives. *)
Definition lit (n d : Z) : f32 := div (of_int n) (of_int d).

Definition zero : f32 := S754_zero false.

(** [std::min(a, b)] is [(b < a) ? b : a], and [std::max(a, b)] is
    [(a < b) ? b : a]. *)
Definition min (a b : f32) : f32 := if lt b a then b else a.
Definition max (a b : f32) : f32 := if lt a b then b else a.

(** [std::floor] as an integer, for a finite value. *)
Definition floorZ (a : f32) : Z :=
  match a with
  | S754_finite s m e =>
      let n := cond_Zopp s (Zpos m) in
      if 0 <=? e then n * 2 ^ e else n / 2 ^ (- e)
  | _ => 0
  end.

(** [std::floor]: zeros, infinities and NaN are returned unchanged, a value
    of non-negative exponent is already an integer. *)
Definition floor (a : f32) : f32 :=
  match a with
  | S754_finite s m e =>
      if 0 <=? e then a
      else match floorZ a with
           | 0 => S754_zero s
           | n => of_int n
           end
  | _ => a
  end.

Definition INT_MIN : Z := - 2 ^ 31.
Definition INT_MAX : Z := 2 ^ 31 - 1.

(** [static_cast<int>(a)]: truncation toward zero.  The C++ standard leaves
    the conversion undefined when the truncated value does not fit an
    [int] (or for a NaN); the x86 conversion instruction then yields
    [INT_MIN], which is what the model returns. *)
Definition to_int (a : f32) : Z :=
  match a with
  | S754_zero _ => 0
  | S754_finite s m e =>
      let n := cond_Zopp s (Zpos m) in
      let t := if 0 <=? e then n * 2 ^ e else Z.quot n (2 ^ (- e)) in
      if (INT_MIN <=? t) && (t <=? INT_MAX) then t else INT_MIN
  | _ => INT_MIN
  end.

End F32.

Abbreviation f32 := F32.f32.

Declare Scope f32_scope.
Delimit Scope f32_scope with f32.
Infix "+" := F32.add : f32_scope.
Infix "-" := F32.sub : f32_scope.
Infix "*" := F32.mul : f32_scope.
Infix "/" := F32.div : f32_scope.
Notation "- x" := (F32.neg x) : f32_scope.
Infix "<?" := F32.lt : f32_scope.
Infix "<=?" := F32.le : f32_scope.
Infix ">?" := F32.gt : f32_scope.
Infix ">=?" := F32.ge : f32_scope.

(* ===================================================================== *)
(** * Counted loops *)
(* ===================================================================== *)

(** [for (int i = 0; i < n; ++i) body], on the state [s]. *)
Definition for_ {S} (n : nat) (body : nat -> S -> S) (s : S) : S :=
  foldl (fun s i => body i s) s (seq 0 n).

(** [for (int y = 0; y < h; ++y) for (int x = 0; x < w; ++x) body]. *)
Definition for_cells {S} (h w : nat) (body : nat -> nat -> S -> S) (s : S) : S :=
  for_ h (fun y => for_ w (fun x => body y x)) s.

(** [for (int i = lo; i <= hi; ++i) body], on the state [s]. *)
Definition for_incl {S} (lo hi : Z) (body : Z -> S -> S) (s : S) : S :=
  foldl (fun s i => body i s) s (seqZ lo (hi - lo + 1)).

(* ===================================================================== *)
(** * Noise.cpp *)
(* ===================================================================== *)

Module Noise.

Local Open Scope f32_scope.

(** [float Fade(float t)]: [t * t * t * (t * (t * 6 - 15) + 10)]. *)
Definition Fade (t : f32) : f32 :=
  t * t * t * (t * (t * F32.of_int 6 - F32.of_int 15) + F32.of_int 10).

(** [float Grad(int hash, float x, float y)]. *)
Definition Grad (hash : Z) (x y : f32) : f32 :=
  let h := Z.land hash 15 in
  let u := if (h <? 8)%Z then x else y in
  let v := if (h <? 4)%Z then y
           else if (h =? 12)%Z || (h =? 14)%Z then x else F32.of_int 0 in
  (if (Z.land h 1 =? 0)%Z then u else - u)
  + (if (Z.land h 2 =? 0)%Z then v else - v).

(** [float Lerp(float a, float b, float t)]. *)
Definition Lerp (a b t : f32) : f32 := a + t * (b - a).



(** The [static const int permutation[256]] of [PerlinNoise]. *)
Definition permutation : list Z :=
  [151; 160; 137; 91; 90; 15; 131; 13; 201; 95; 96; 53; 194; 233; 7; 225;
   140; 36; 103; 30; 69; 142; 8; 99; 37; 240; 21; 10; 23; 190; 6; 148;
   247; 120; 234; 75; 0; 26; 197; 62; 94; 252; 219; 203; 117; 35; 11; 32;
   57; 177; 33; 88; 237; 149; 56; 87; 174; 20; 125; 136; 171; 168; 68; 175;
   74; 165; 71; 134; 139; 48; 27; 166; 77; 146; 158; 231; 83; 111; 229; 122;
   60; 211; 133; 230; 220; 105; 92; 41; 55; 46; 245; 40; 244; 102; 143; 54;
   65; 25; 63; 161; 1; 216; 80; 73; 209; 76; 132; 187; 208; 89; 18; 169;
   200; 196; 135; 130; 116; 188; 159; 86; 164; 100; 109; 198; 173; 186; 3; 64;
   52; 217; 226; 250; 124; 123; 5; 202; 38; 147; 118; 126; 255; 82; 85; 212;
   207; 206; 59; 227; 47; 16; 58; 17; 182; 189; 28; 42; 223; 183; 170; 213;
   119; 248; 152; 2; 44; 154; 163; 70; 221; 153; 101; 155; 167; 43; 172; 9;
   129; 22; 39; 253; 19; 98; 108; 110; 79; 113; 224; 232; 178; 185; 112; 104;
   218; 246; 97; 228; 251; 34; 242; 193; 238; 210; 144; 12; 191; 179; 162; 241;
   81; 51; 145; 235; 249; 14; 239; 107; 49; 192; 214; 31; 181; 199; 106; 157;
   184; 84; 204; 176; 115; 121; 50; 45; 127; 4; 150; 254; 138; 236; 205; 93;
   222; 114; 67; 29; 24; 72; 243; 141; 128; 195; 78; 66; 215; 61; 156; 180].

(** The two function-local statics of [PerlinNoise]:
    [static std::vector<int> p(512)] and [static int lastSeed = -1].  They
    survive from one call to the next, so every call takes the state left by
    the previous one and returns the state it leaves. *)
Record NoiseState := { p : list Z; lastSeed : Z }.

(** The state at program start: [p] holds 512 zeros. *)
Definition initial : NoiseState := {| p := replicate 512 0%Z; lastSeed := (-1)%Z |}.

(** The loop [for (int i = 0; i < 256; i++) { p[i] = base_perm[i];
    p[256 + i] = base_perm[i]; }]. *)
Definition fill_table (base_perm : list Z) (p : list Z) : list Z :=
  for_ 256 (fun i p => <[(256 + i)%nat := base_perm !!! i]> (<[i := base_perm !!! i]> p)) p.

(** Everything below the [if (seed != lastSeed)] block: the value read off
    the table [p] at [(x, y)]. *)
Definition noise_at (p : list Z) (x y : f32) : f32 :=
  let X := Z.land (F32.to_int (F32.floor x)) 255 in
  let Y := Z.land (F32.to_int (F32.floor y)) 255 in
  let x := x - F32.floor x in
  let y := y - F32.floor y in
  let u := Fade x in
  let v := Fade y in
  let A := (p !!! Z.to_nat X + Y)%Z in
  let AA := p !!! Z.to_nat A in
  let AB := p !!! Z.to_nat (A + 1) in
  let B := (p !!! Z.to_nat (X + 1) + Y)%Z in
  let BA := p !!! Z.to_nat B in
  let BB := p !!! Z.to_nat (B + 1) in
  Lerp
    (Lerp (Grad (p !!! Z.to_nat AA) x y)
          (Grad (p !!! Z.to_nat BA) (x - F32.of_int 1) y)
          u)
    (Lerp (Grad (p !!! Z.to_nat AB) x (y - F32.of_int 1))
          (Grad (p !!! Z.to_nat BB) (x - F32.of_int 1) (y - F32.of_int 1))
          u)
    v.

(** The accumulators of the octave loop of [LayeredNoise]. *)
Record Layers := { amplitude : f32; frequency : f32; total : f32; maxValue : f32 }.

Section Shuffle.

(** [std::mt19937 gen(seed); std::shuffle(first, last, gen)] of the C++
    library: the sequence it leaves for a given seed.  The algorithm belongs
    to the standard library, not to this repository. *)
Variable std_shuffle : Z -> list Z -> list Z.

(** The block [if (seed != lastSeed) { ... }]. *)
Definition reseed (seed : Z) (st : NoiseState) : NoiseState :=
  if (seed =? lastSeed st)%Z then st
  else {| p := fill_table (std_shuffle seed permutation) (p st); lastSeed := seed |}.

(** [float PerlinNoise(float x, float y, int seed)]. *)
Definition PerlinNoise (x y : f32) (seed : Z) (st : NoiseState) : f32 * NoiseState :=
  let st := reseed seed st in
  (noise_at (p st) x y, st).

(** One turn of the loop of [LayeredNoise], for the loop counter [i]. *)
Definition octave (x y : f32) (persistence : f32) (seed : Z)
    (acc : Layers * NoiseState) (i : Z) : Layers * NoiseState :=
  let '(l, st) := acc in
  let '(n, st) := PerlinNoise (x * frequency l) (y * frequency l) (seed + i) st in
  ({| total := total l + n * amplitude l;
      maxValue := maxValue l + amplitude l;
      amplitude := amplitude l * persistence;
      frequency := frequency l * F32.lit 2 1 |}, st).

(** The loop [for (int i = 0; i < octaves; i++)]: no turn when
    [octaves <= 0]. *)
Definition octaves_loop (x y : f32) (octaves : Z) (persistence scale : f32)
    (seed : Z) (st : NoiseState) : Layers * NoiseState :=
  foldl (octave x y persistence seed)
        ({| amplitude := F32.lit 1 1; frequency := scale;
            total := F32.lit 0 1; maxValue := F32.lit 0 1 |}, st)
        (seqZ 0 octaves).

(** [float LayeredNoise(float x, float y, int octaves, float persistence,
    float scale, int seed)]; the last line is
    [return maxValue > 0 ? total / maxValue : 0;]. *)
Definition LayeredNoise (x y : f32) (octaves : Z) (persistence scale : f32)
    (seed : Z) (st : NoiseState) : f32 * NoiseState :=
  let '(l, st) := octaves_loop x y octaves persistence scale seed st in
  (if maxValue l >? F32.of_int 0 then total l / maxValue l else F32.of_int 0, st).

(** The states the statics can be in: the one of program start, and the one
    any call leaves behind. *)
Inductive reachable : NoiseState -> Prop :=
  | reachable_initial : reachable initial
  | reachable_call x y seed st :
      reachable st -> reachable (snd (PerlinNoise x y seed st)).

(** The table a call with [seed] is meant to read: the shuffled permutation,
    twice in a row. *)
Definition seeded_table (seed : Z) : list Z :=
  std_shuffle seed permutation ++ std_shuffle seed permutation.

(** The cache is coherent when [p] is the table of [lastSeed]. *)
Definition coherent (st : NoiseState) : Prop := p st = seeded_table (lastSeed st).

(** The older copy of the two functions, kept in the monolithic source file
    ([src/unnamed/part_006]) that the build does not compile.  There [p] is a
    local vector and the shuffle runs on every call, and [LayeredNoise] ends
    in [return total / maxValue;] without the guard. *)
Definition PerlinNoise_monolithic (x y : f32) (seed : Z) : f32 :=
  noise_at (fill_table (std_shuffle seed permutation) (replicate 512 0%Z)) x y.

Definition LayeredNoise_monolithic (x y : f32) (octaves : Z) (persistence scale : f32)
    (seed : Z) : f32 :=
  let l :=
    foldl (fun l i =>
             {| total := total l
                         + PerlinNoise_monolithic (x * frequency l) (y * frequency l)
                                                  (seed + i) * amplitude l;
                maxValue := maxValue l + amplitude l;
                amplitude := amplitude l * persistence;
                frequency := frequency l * F32.lit 2 1 |})
          {| amplitude := F32.lit 1 1; frequency := scale;
             total := F32.lit 0 1; maxValue := F32.lit 0 1 |}
          (seqZ 0 octaves) in
  total l / maxValue l.

End Shuffle.

End Noise.

(* ===================================================================== *)
(** * Grids *)
(* ===================================================================== *)

(** [std::vector<std::vector<A>>]: a list of rows. *)
Abbreviation grid A := (list (list A)).

(** [std::vector<std::vector<A>> g(h, std::vector<A>(w))], every element
    value-initialised to [a]. *)
Definition make_grid {A} (h w : nat) (a : A) : grid A := replicate h (replicate w a).

(** [g[y][x]] read.  Out of range the C++ access is undefined; the model
    returns the inhabitant of [A]. *)
Definition grid_get {A} `{Inhabited A} (g : grid A) (y x : nat) : A := (g !!! y) !!! x.

(** [g[y][x] = a].  Out of range the C++ access is undefined; the model
    leaves the grid as it is. *)
Definition grid_set {A} (g : grid A) (y x : nat) (a : A) : grid A :=
  alter (fun row => <[x := a]> row) y g.

(** The grid has [h] rows of [w] elements each. *)
Definition grid_dims {A} (h w : nat) (g : grid A) : Prop :=
  length g = h /\ Forall (fun row => length row = w) g.

(* ===================================================================== *)
(** * GameConstants.h and DataTypes.h *)
(* ===================================================================== *)

Module World.

Local Open Scope f32_scope.

Definition WORLD_WIDTH : nat := 128.
Definition WORLD_HEIGHT : nat := 128.

Definition WATER_LEVEL : f32 := F32.lit 20 1.
Definition BEACH_LEVEL : f32 := F32.lit 23 1.
Definition PLAINS_LEVEL : f32 := F32.lit 35 1.
Definition HILLS_LEVEL : f32 := F32.lit 50 1.
Definition MOUNTAIN_LEVEL : f32 := F32.lit 70 1.

Definition CONTINENT_OCTAVES : Z := 4.
Definition TERRAIN_OCTAVES : Z := 6.
Definition RIVER_OCTAVES : Z := 2.
Definition RIVER_THRESHOLD : f32 := F32.lit 82 100.

Inductive BiomeType :=
  | DEEP_WATER | SHALLOW_WATER | BEACH | PLAINS | FOREST | HILLS | MOUNTAINS | SNOW_CAPS.

#[global] Instance BiomeType_eq_dec : EqDecision BiomeType.
Proof. solve_decision. Defined.

Definition BiomeType_code (b : BiomeType) : nat :=
  match b with
  | DEEP_WATER => 0 | SHALLOW_WATER => 1 | BEACH => 2 | PLAINS => 3
  | FOREST => 4 | HILLS => 5 | MOUNTAINS => 6 | SNOW_CAPS => 7
  end%nat.

Definition BiomeType_of_code (n : nat) : BiomeType :=
  match n with
  | 0 => DEEP_WATER | 1 => SHALLOW_WATER | 2 => BEACH | 3 => PLAINS
  | 4 => FOREST | 5 => HILLS | 6 => MOUNTAINS | _ => SNOW_CAPS
  end%nat.

#[global] Instance BiomeType_countable : Countable BiomeType.
Proof. apply (inj_countable' BiomeType_code BiomeType_of_code). by intros []. Defined.

(** [SDL_Color]: four [Uint8] channels. *)
Record SDL_Color := { r : Z; g : Z; b : Z; a : Z }.

Record BiomeProperties := {
  baseColor : SDL_Color;
  heightModifier : f32;
  roughness : f32;
  walkable : bool
}.

Record TerrainData := {
  elevation : f32;
  moisture : f32;
  riverValue : f32;
  biome : BiomeType
}.

Record Tile := {
  tile_x : Z;
  tile_y : Z;
  tile_elevation : Z;
  tile_color : SDL_Color;
  tile_walkable : bool
}.

(** Value-initialised elements of the two vectors of [GenerateWorld]. *)
Definition TerrainData_zero : TerrainData :=
  {| elevation := F32.zero; moisture := F32.zero; riverValue := F32.zero;
     biome := DEEP_WATER |}.

Definition Tile_zero : Tile :=
  {| tile_x := 0; tile_y := 0; tile_elevation := 0;
     tile_color := {| r := 0; g := 0; b := 0; a := 0 |}; tile_walkable := false |}.

#[global] Instance TerrainData_inhabited : Inhabited TerrainData := populate TerrainData_zero.
#[global] Instance Tile_inhabited : Inhabited Tile := populate Tile_zero.
#[global] Instance f32_inhabited : Inhabited f32 := populate F32.zero.

Definition set_elevation (e : f32) (data : TerrainData) : TerrainData :=
  {| elevation := e; moisture := moisture data; riverValue := riverValue data;
     biome := biome data |}.

Definition set_biome (k : BiomeType) (data : TerrainData) : TerrainData :=
  {| elevation := elevation data; moisture := moisture data;
     riverValue := riverValue data; biome := k |}.

(* ===================================================================== *)
(** * World.cpp *)
(* ===================================================================== *)

(** [BiomeType DetermineBiome(float elevation, float moisture)]. *)
Definition DetermineBiome (elevation moisture : f32) : BiomeType :=
  if elevation <? WATER_LEVEL - F32.lit 5 1 then DEEP_WATER
  else if elevation <? WATER_LEVEL then SHALLOW_WATER
  else if elevation <? BEACH_LEVEL then BEACH
  else if elevation <? PLAINS_LEVEL then
    if moisture <? F32.lit 3 10 then PLAINS
    else if moisture <? F32.lit 6 10 then PLAINS
    else FOREST
  else if elevation <? HILLS_LEVEL then
    if moisture <? F32.lit 4 10 then HILLS
    else FOREST
  else if elevation <? MOUNTAIN_LEVEL then MOUNTAINS
  else SNOW_CAPS.

Definition rgba (r g b a : Z) : SDL_Color := {| r := r; g := g; b := b; a := a |}.

(** [std::map<BiomeType, BiomeProperties> CreateBiomeProperties()]. *)
Definition CreateBiomeProperties : gmap BiomeType BiomeProperties :=
  list_to_map
    [ (DEEP_WATER,    Build_BiomeProperties (rgba 0 64 220 255)    (F32.lit 3 10)  (F32.lit 1 10) false);
      (SHALLOW_WATER, Build_BiomeProperties (rgba 0 128 255 255)   (F32.lit 5 10)  (F32.lit 2 10) false);
      (BEACH,         Build_BiomeProperties (rgba 240 220 180 255) (F32.lit 6 10)  (F32.lit 2 10) true);
      (PLAINS,        Build_BiomeProperties (rgba 100 210 100 255) (F32.lit 10 10) (F32.lit 3 10) true);
      (FOREST,        Build_BiomeProperties (rgba 21 120 35 255)   (F32.lit 11 10) (F32.lit 4 10) true);
      (HILLS,         Build_BiomeProperties (rgba 90 160 90 255)   (F32.lit 12 10) (F32.lit 6 10) true);
      (MOUNTAINS,     Build_BiomeProperties (rgba 150 140 130 255) (F32.lit 15 10) (F32.lit 8 10) false);
      (SNOW_CAPS,     Build_BiomeProperties (rgba 255 255 255 255) (F32.lit 16 10) (F32.lit 9 10) false) ].

(** ** Pass 2: the body of the river and lake loop, on one cell

    [TerrainData& data = terrainData[y][x]] followed by the two [if]
    statements; every assignment to [data.elevation] is a [set_elevation]. *)
Definition carve (data : TerrainData) : TerrainData :=
  let data :=
    if riverValue data >? RIVER_THRESHOLD then
      let riverStrength :=
        (riverValue data - RIVER_THRESHOLD) / (F32.lit 1 1 - RIVER_THRESHOLD) in
      let data :=
        set_elevation (F32.min (elevation data) (WATER_LEVEL - riverStrength * F32.lit 5 1)) data in
      if (riverValue data >? RIVER_THRESHOLD - F32.lit 1 10)
         && (riverValue data <=? RIVER_THRESHOLD)
      then set_elevation (F32.min (elevation data) (WATER_LEVEL - F32.lit 1 1)) data
      else data
    else data in
  if (elevation data <? WATER_LEVEL + F32.lit 5 1) && (moisture data >? F32.lit 7 10)
  then set_elevation (F32.min (elevation data) (WATER_LEVEL - F32.lit 2 1)) data
  else data.

(** ** Pass 3: the smoothing kernel of one cell

    The two inner loops run [ny] from [max(0, y-1)] to [min(h-1, y+1)] and
    [nx] from [max(0, x-1)] to [min(w-1, x+1)], adding
    [terrainData[ny][nx].elevation] to [total] and one to [count]. *)
Definition kernel (h w : nat) (terrainData : grid TerrainData) (y x : nat) : f32 * Z :=
  for_incl (Z.max 0 (Z.of_nat y - 1)) (Z.min (Z.of_nat h - 1) (Z.of_nat y + 1))
    (fun ny =>
       for_incl (Z.max 0 (Z.of_nat x - 1)) (Z.min (Z.of_nat w - 1) (Z.of_nat x + 1))
         (fun nx '(total, count) =>
            (total + elevation (grid_get terrainData (Z.to_nat ny) (Z.to_nat nx)),
             (count + 1)%Z)))
    (F32.lit 0 1, 0%Z).

(** The value stored in [smoothedElevation[y][x]]. *)
Definition smoothed_value (h w : nat) (terrainData : grid TerrainData) (y x : nat) : f32 :=
  let '(total, count) := kernel h w terrainData y x in
  let own := elevation (grid_get terrainData y x) in
  if own <=? WATER_LEVEL then own
  else (total / F32.of_int count) * F32.lit 7 10 + own * F32.lit 3 10.

(** The first loop nest of pass 3: it fills the separate buffer
    [smoothedElevation] and only reads [terrainData]. *)
Definition smooth (h w : nat) (terrainData : grid TerrainData) : grid f32 :=
  for_cells h w
    (fun y x smoothedElevation =>
       grid_set smoothedElevation y x (smoothed_value h w terrainData y x))
    (make_grid h w (F32.lit 0 1)).

(** The second loop nest of pass 3:
    [terrainData[y][x].elevation = smoothedElevation[y][x]]. *)
Definition write_back (h w : nat) (smoothedElevation : grid f32)
    (terrainData : grid TerrainData) : grid TerrainData :=
  for_cells h w
    (fun y x terrainData =>
       grid_set terrainData y x
         (set_elevation (grid_get smoothedElevation y x) (grid_get terrainData y x)))
    terrainData.

Definition pass2 (h w : nat) (terrainData : grid TerrainData) : grid TerrainData :=
  for_cells h w
    (fun y x terrainData => grid_set terrainData y x (carve (grid_get terrainData y x)))
    terrainData.

Definition pass3 (h w : nat) (terrainData : grid TerrainData) : grid TerrainData :=
  write_back h w (smooth h w terrainData) terrainData.

(** ** Pass 4: tiles *)

(** [std::clamp(v, lo, hi)] on [int]. *)
Definition clamp (v lo hi : Z) : Z :=
  if (v <? lo)%Z then lo else if (hi <? v)%Z then hi else v.

(** [static_cast<Uint8>(v)]. *)
Definition to_Uint8 (v : Z) : Z := (v mod 256)%Z.

Section Library.

(** What [GenerateWorld] takes from the C++ library and cannot be read in
    the repository: the shuffle behind [PerlinNoise], [std::pow] on [float],
    and the draws of [std::uniform_int_distribution<int> variation(-5, 5)]
    from a generator seeded by [std::random_device].  [variation y x k] is
    the [k]-th draw made for the tile of row [y] and column [x]. *)
Variable std_shuffle : Z -> list Z -> list Z.
Variable std_pow : f32 -> f32 -> f32.
Variable variation : nat -> nat -> nat -> Z.

Let LayeredNoise := Noise.LayeredNoise std_shuffle.

(** ** Pass 1: the body of the first loop nest, on the cell [(x, y)] *)
Definition raw_cell (h w : nat) (y x : nat) (st : Noise.NoiseState)
    : TerrainData * Noise.NoiseState :=
  let nx := F32.of_int (Z.of_nat x) / F32.of_int (Z.of_nat w) in
  let ny := F32.of_int (Z.of_nat y) / F32.of_int (Z.of_nat h) in
  let '(continentShape, st) :=
    LayeredNoise (nx * F32.lit 5 10) (ny * F32.lit 5 10) CONTINENT_OCTAVES
                 (F32.lit 6 10) (F32.lit 5 10) 1 st in
  let '(terrainDetail, st) :=
    LayeredNoise (nx * F32.lit 5 1) (ny * F32.lit 5 1) TERRAIN_OCTAVES
                 (F32.lit 5 10) (F32.lit 2 1) 2 st in
  let '(ridge, st) :=
    LayeredNoise (nx * F32.lit 3 1) (ny * F32.lit 3 1) 4
                 (F32.lit 7 10) (F32.lit 15 10) 5 st in
  let mountain := F32.lit 1 1 - F32.abs (ridge * F32.lit 2 1 - F32.lit 1 1) in
  let mountain := std_pow mountain (F32.lit 3 1) in
  let '(moisture, st) :=
    LayeredNoise (nx * F32.lit 4 1) (ny * F32.lit 4 1) 4
                 (F32.lit 5 10) (F32.lit 2 1) 3 st in
  let '(riverValue, st) :=
    LayeredNoise (nx * F32.lit 8 1) (ny * F32.lit 8 1) RIVER_OCTAVES
                 (F32.lit 7 10) (F32.lit 3 1) 4 st in
  let dx := nx - F32.lit 5 10 in
  let dy := ny - F32.lit 5 10 in
  let distanceFromCenter := F32.sqrt (dx * dx + dy * dy) * F32.lit 2 1 in
  let islandFactor := F32.lit 1 1 - F32.min (F32.lit 1 1) distanceFromCenter in
  let islandFactor := std_pow islandFactor (F32.lit 5 10) in
  let elevation :=
    (continentShape * F32.lit 5 10 + terrainDetail * F32.lit 2 10
     + mountain * F32.lit 3 10) * F32.lit 100 1 in
  let elevation := elevation * (islandFactor * F32.lit 7 10 + F32.lit 3 10) in
  ({| elevation := elevation; moisture := moisture; riverValue := riverValue;
      biome := biome TerrainData_zero |}, st).

(** The first loop nest.  The statics of [PerlinNoise] travel with the
    grid; the three assignments keep the [biome] of the cell. *)
Definition pass1 (h w : nat) (s : grid TerrainData * Noise.NoiseState)
    : grid TerrainData * Noise.NoiseState :=
  for_cells h w
    (fun y x '(terrainData, st) =>
       let '(cell, st) := raw_cell h w y x st in
       (grid_set terrainData y x
          (set_biome (biome (grid_get terrainData y x)) cell), st))
    s.

(** The colour given to a tile: three fixed colours on the debug pattern,
    the jittered base colour of the biome elsewhere. *)
Definition tile_colour (h w : nat) (y x : nat) (props : BiomeProperties) : SDL_Color :=
  let tx := Z.of_nat x in
  let ty := Z.of_nat y in
  if (Z.rem (tx + ty) 10 =? 0)%Z then rgba 255 0 0 255
  else if (tx =? 0)%Z || (ty =? 0)%Z
          || (tx =? Z.of_nat w - 1)%Z || (ty =? Z.of_nat h - 1)%Z
  then rgba 255 255 0 255
  else if (tx =? Z.quot (Z.of_nat w) 2)%Z || (ty =? Z.quot (Z.of_nat h) 2)%Z
  then rgba 0 0 255 255
  else
    rgba (to_Uint8 (clamp (r (baseColor props) + variation y x 0) 0 255))
         (to_Uint8 (clamp (g (baseColor props) + variation y x 1) 0 255))
         (to_Uint8 (clamp (b (baseColor props) + variation y x 2) 0 255))
         255.

(** The body of the last loop nest, on the cell [(x, y)].
    [biomeProps.at(data.biome)] throws [std::out_of_range] on a missing key:
    the result is then [None]. *)
Definition finalize (h w : nat) (biomeProps : gmap BiomeType BiomeProperties)
    (y x : nat) (s : grid TerrainData * grid Tile)
    : option (grid TerrainData * grid Tile) :=
  let '(terrainData, world) := s in
  let data := grid_get terrainData y x in
  let data := set_biome (DetermineBiome (elevation data) (moisture data)) data in
  props ← biomeProps !! biome data;
  let tile :=
    {| tile_x := Z.of_nat x;
       tile_y := Z.of_nat y;
       tile_elevation := F32.to_int (elevation data);
       tile_walkable := walkable props;
       tile_color := tile_colour h w y x props |} in
  Some (grid_set terrainData y x data, grid_set world y x tile).

(** The last loop nest; an exception leaves every later turn undone. *)
Definition pass4 (h w : nat) (biomeProps : gmap BiomeType BiomeProperties)
    (s : grid TerrainData * grid Tile) : option (grid TerrainData * grid Tile) :=
  for_cells h w (fun y x o => o ≫= finalize h w biomeProps y x) (Some s).

(** Everything after the first loop nest, on the terrain [raw] that pass 1
    has filled: passes 2 and 3, then pass 4 on the fresh [world].  The
    closing loop only counts tiles for [std::cout] and does not touch
    [world]. *)
Definition finish_world (h w : nat) (raw : grid TerrainData) : option (grid Tile) :=
  let world := make_grid h w Tile_zero in
  let biomeProps := CreateBiomeProperties in
  snd <$> pass4 h w biomeProps (pass3 h w (pass2 h w raw), world).

(** The terrain pass 1 leaves, on a fresh grid.  [st] is the state in which
    the caller finds the statics of [PerlinNoise]. *)
Definition raw_terrain (h w : nat) (st : Noise.NoiseState) : grid TerrainData :=
  (pass1 h w (make_grid h w TerrainData_zero, st)).1.

(** [GenerateWorld()] with [WORLD_HEIGHT] and [WORLD_WIDTH] read from [h] and
    [w]. *)
Definition GenerateWorld_sized (h w : nat) (st : Noise.NoiseState) : option (grid Tile) :=
  finish_world h w (raw_terrain h w st).

(** [std::vector<std::vector<Tile>> GenerateWorld()]. *)
Definition GenerateWorld (st : Noise.NoiseState) : option (grid Tile) :=
  GenerateWorld_sized WORLD_HEIGHT WORLD_WIDTH st.

End Library.

End World.

(* ===================================================================== *)
(** * Player.cpp *)
(* ===================================================================== *)

Module Player.

Local Open Scope f32_scope.

Definition PLAYER_SPEED : f32 := F32.lit 5 1.
Definition JUMP_FORCE : f32 := F32.lit 10 1.
Definition GRAVITY : f32 := F32.lit 3 10.
Definition INITIAL_ELEVATION : f32 := F32.lit 0 1.

(** [struct Player] of [DataTypes.h]. *)
Record Player := {
  x : f32;
  y : f32;
  elevation : f32;
  velocityX : f32;
  velocityY : f32;
  velocityZ : f32;
  isJumping : bool;
  color : World.SDL_Color
}.

Definition set_x (v : f32) (player : Player) : Player :=
  {| x := v; y := y player; elevation := elevation player;
     velocityX := velocityX player; velocityY := velocityY player;
     velocityZ := velocityZ player; isJumping := isJumping player;
     color := color player |}.

Definition set_y (v : f32) (player : Player) : Player :=
  {| x := x player; y := v; elevation := elevation player;
     velocityX := velocityX player; velocityY := velocityY player;
     velocityZ := velocityZ player; isJumping := isJumping player;
     color := color player |}.

Definition set_elevation (v : f32) (player : Player) : Player :=
  {| x := x player; y := y player; elevation := v;
     velocityX := velocityX player; velocityY := velocityY player;
     velocityZ := velocityZ player; isJumping := isJumping player;
     color := color player |}.

Definition set_velocityZ (v : f32) (player : Player) : Player :=
  {| x := x player; y := y player; elevation := elevation player;
     velocityX := velocityX player; velocityY := velocityY player;
     velocityZ := v; isJumping := isJumping player;
     color := color player |}.

Definition set_isJumping (j : bool) (player : Player) : Player :=
  {| x := x player; y := y player; elevation := elevation player;
     velocityX := velocityX player; velocityY := velocityY player;
     velocityZ := velocityZ player; isJumping := j;
     color := color player |}.

(** The entries of [keystate] the function reads; a key is down when its
    entry is not zero. *)
Inductive Scancode :=
  | SDL_SCANCODE_W | SDL_SCANCODE_A | SDL_SCANCODE_S | SDL_SCANCODE_D | SDL_SCANCODE_SPACE.

(** The function-local statics of [HandlePlayerMovement]; they only pace
    the debug output. *)
Record Statics := {
  lastKeyPrintTime : Z;
  lastPrintX : f32;
  lastPrintY : f32;
  lastPrintZ : f32
}.

(** [tileX >= 0 && tileX < WORLD_WIDTH && tileY >= 0 && tileY < WORLD_HEIGHT]. *)
Definition in_world (tileX tileY : Z) : bool :=
  (0 <=? tileX)%Z && (tileX <? Z.of_nat World.WORLD_WIDTH)%Z
  && (0 <=? tileY)%Z && (tileY <? Z.of_nat World.WORLD_HEIGHT)%Z.

(** The four [if (keystate[...])] statements. *)
Definition move_keys (keystate : Scancode -> bool) (moveSpeed : f32) (player : Player) : Player :=
  let player :=
    if keystate SDL_SCANCODE_W then set_y (y player - moveSpeed) player else player in
  let player :=
    if keystate SDL_SCANCODE_S then set_y (y player + moveSpeed) player else player in
  let player :=
    if keystate SDL_SCANCODE_A then set_x (x player - moveSpeed) player else player in
  if keystate SDL_SCANCODE_D then set_x (x player + moveSpeed) player else player.

(** [player.x = std::max(1.0f, std::min(player.x, static_cast<float>(WORLD_WIDTH - 2)))]
    and the same for [player.y]. *)
Definition keep_in_bounds (player : Player) : Player :=
  let player :=
    set_x (F32.max (F32.lit 1 1)
             (F32.min (x player) (F32.of_int (Z.of_nat World.WORLD_WIDTH - 2)))) player in
  set_y (F32.max (F32.lit 1 1)
           (F32.min (y player) (F32.of_int (Z.of_nat World.WORLD_HEIGHT - 2)))) player.

(** The block under "Check if new position is walkable and adjust
    elevation"; the test of the tile is [false && !currentTile.walkable]. *)
Definition follow_terrain (prevX prevY : f32) (world : grid World.Tile) (player : Player)
    : Player :=
  let tileX := F32.to_int (x player) in
  let tileY := F32.to_int (y player) in
  if in_world tileX tileY then
    let currentTile := grid_get world (Z.to_nat tileY) (Z.to_nat tileX) in
    if false && negb (World.tile_walkable currentTile) then
      set_y prevY (set_x prevX player)
    else if negb (isJumping player) then
      let targetElevation := F32.of_int (World.tile_elevation currentTile) in
      set_elevation
        (elevation player + (targetElevation - elevation player) * F32.lit 2 10) player
    else player
  else player.

(** [if (keystate[SDL_SCANCODE_SPACE] && !player.isJumping)]. *)
Definition start_jump (keystate : Scancode -> bool) (player : Player) : Player :=
  if keystate SDL_SCANCODE_SPACE && negb (isJumping player) then
    set_isJumping true (set_velocityZ JUMP_FORCE player)
  else player.

(** The height of the terrain under the player, for the landing test. *)
Definition terrainHeight (world : grid World.Tile) (player : Player) : f32 :=
  let currentTileX := F32.to_int (x player) in
  let currentTileY := F32.to_int (y player) in
  if in_world currentTileX currentTileY then
    F32.of_int (World.tile_elevation
                  (grid_get world (Z.to_nat currentTileY) (Z.to_nat currentTileX)))
  else INITIAL_ELEVATION.

(** [if (player.isJumping)]: gravity, then the landing test. *)
Definition fall (world : grid World.Tile) (player : Player) : Player :=
  if isJumping player then
    let player := set_velocityZ (velocityZ player - GRAVITY) player in
    let player := set_elevation (elevation player + velocityZ player) player in
    if elevation player <=? terrainHeight world player then
      set_isJumping false
        (set_velocityZ (F32.of_int 0) (set_elevation (terrainHeight world player) player))
    else player
  else player.

(** The two debug blocks: [currentTime] is what [SDL_GetTicks()] returns, a
    [Uint32], and the difference is taken modulo [2^32]. *)
Definition key_print (currentTime : Z) (statics : Statics) : Statics :=
  if (500 <? (currentTime - lastKeyPrintTime statics) mod 2 ^ 32)%Z then
    {| lastKeyPrintTime := currentTime; lastPrintX := lastPrintX statics;
       lastPrintY := lastPrintY statics; lastPrintZ := lastPrintZ statics |}
  else statics.

Definition move_print (player : Player) (statics : Statics) : Statics :=
  if (F32.abs (x player - lastPrintX statics) >? F32.lit 1 10)
     || (F32.abs (y player - lastPrintY statics) >? F32.lit 1 10)
     || (F32.abs (elevation player - lastPrintZ statics) >? F32.lit 1 10)
  then {| lastKeyPrintTime := lastKeyPrintTime statics; lastPrintX := x player;
          lastPrintY := y player; lastPrintZ := elevation player |}
  else statics.

(** [void HandlePlayerMovement(Player& player, const Uint8* keystate,
    float deltaTime, const std::vector<std::vector<Tile>>& world)]: the
    player and the statics it leaves. *)
Definition HandlePlayerMovement (player : Player) (keystate : Scancode -> bool)
    (deltaTime : f32) (world : grid World.Tile) (currentTime : Z) (statics : Statics)
    : Player * Statics :=
  let moveSpeed := PLAYER_SPEED * deltaTime * F32.lit 5 1 in
  let prevX := x player in
  let prevY := y player in
  let statics := key_print currentTime statics in
  let player := move_keys keystate moveSpeed player in
  let player := keep_in_bounds player in
  let player := follow_terrain prevX prevY world player in
  let player := start_jump keystate player in
  let player := fall world player in
  (player, move_print player statics).

End Player.

(* ===================================================================== *)
(** * Renderer.cpp and the drawing loop of main.cpp *)
(* ===================================================================== *)

Module Renderer.

Local Open Scope f32_scope.

Definition SCREEN_WIDTH : Z := 1280.
Definition SCREEN_HEIGHT : Z := 800.
Definition TILE_WIDTH : Z := 96.
Definition TILE_HEIGHT : Z := 48.

(** [struct Camera] of [DataTypes.h]. *)
Record Camera := { camera_x : f32; camera_y : f32 }.

(** The calls [RenderTile] makes on the [SDL_Renderer], in the order they
    are made. *)
Inductive DrawCmd :=
  | SDL_SetRenderDrawColor (r g b a : Z)
  | SDL_RenderDrawLine (x1 y1 x2 y2 : Z).

(** [void WorldToScreen(float worldX, float worldY, float elevation,
    int& screenX, int& screenY, const Camera& camera, const Player& player)]:
    the two values it stores.  The sums are exact here; in C++ an [int]
    sum out of range is undefined. *)
Definition WorldToScreen (worldX worldY elevation : f32) (camera : Camera)
    (player : Player.Player) : Z * Z :=
  let relativeX := worldX - Player.x player in
  let relativeY := worldY - Player.y player in
  let relativeElevation := elevation - Player.elevation player in
  let screenX :=
    F32.to_int ((relativeX - relativeY) * (F32.of_int TILE_WIDTH / F32.lit 2 1)) in
  let screenY :=
    F32.to_int ((relativeX + relativeY) * (F32.of_int TILE_HEIGHT / F32.lit 2 1)
                - relativeElevation) in
  ((screenX + Z.quot SCREEN_WIDTH 2)%Z, (screenY + Z.quot SCREEN_HEIGHT 2)%Z).

(** The test "only render if tile is potentially visible (with margin)" of
    [RenderTile]. *)
Definition potentially_visible (screenX screenY : Z) : bool :=
  (0 <? screenX + TILE_WIDTH)%Z && (screenX - TILE_WIDTH <? SCREEN_WIDTH)%Z
  && (0 <? screenY + TILE_HEIGHT)%Z && (screenY - TILE_HEIGHT <? SCREEN_HEIGHT)%Z.

(** One channel of the outline colour:
    [c > 128 ? c - 40 : c + 40], passed as a [Uint8]. *)
Definition outline_channel (c : Z) : Z :=
  World.to_Uint8 (if (128 <? c)%Z then c - 40 else c + 40)%Z.

(** [void RenderTile(SDL_Renderer* renderer, const Tile& tile,
    const Camera& camera, const Player& player)]: the calls it makes. *)
Definition RenderTile (tile : World.Tile) (camera : Camera) (player : Player.Player)
    : list DrawCmd :=
  let '(screenX, screenY) :=
    WorldToScreen (F32.of_int (World.tile_x tile)) (F32.of_int (World.tile_y tile))
                  (F32.of_int (World.tile_elevation tile)) camera player in
  let points : list (Z * Z) :=
    [ (screenX, screenY - Z.quot TILE_HEIGHT 2);
      (screenX + Z.quot TILE_WIDTH 2, screenY);
      (screenX, screenY + Z.quot TILE_HEIGHT 2);
      (screenX - Z.quot TILE_WIDTH 2, screenY);
      (screenX, screenY - Z.quot TILE_HEIGHT 2) ]%Z in
  let line (i j : nat) : DrawCmd :=
    SDL_RenderDrawLine (points !!! i).1 (points !!! i).2 (points !!! j).1 (points !!! j).2 in
  let c := World.tile_color tile in
  if potentially_visible screenX screenY then
    [ SDL_SetRenderDrawColor (World.r c) (World.g c) (World.b c) (World.a c);
      line 0 1; line 1 2; line 2 3; line 3 0; line 0 2; line 1 3;
      SDL_SetRenderDrawColor (outline_channel (World.r c)) (outline_channel (World.g c))
                             (outline_channel (World.b c)) 255 ]%nat
    ++ for_ 4 (fun i cmds => cmds ++ [line i (i + 1)%nat]) []
  else [].

(** The test main.cpp makes before it calls [RenderTile]. *)
Definition likely_visible (screenX screenY : Z) : bool :=
  (- TILE_WIDTH <? screenX)%Z && (screenX <? SCREEN_WIDTH + TILE_WIDTH)%Z
  && (- TILE_HEIGHT <? screenY)%Z && (screenY <? SCREEN_HEIGHT + TILE_HEIGHT)%Z.

(** The body of the drawing loop of [main], for the tile of row [y] and
    column [x]. *)
Definition draw_cell (world : grid World.Tile) (camera : Camera) (player : Player.Player)
    (y x : nat) : list DrawCmd :=
  let '(screenX, screenY) :=
    WorldToScreen (F32.of_int (Z.of_nat x)) (F32.of_int (Z.of_nat y))
                  (F32.of_int (World.tile_elevation (grid_get world y x))) camera player in
  if likely_visible screenX screenY then RenderTile (grid_get world y x) camera player
  else [].

End Renderer.

(* ===================================================================== *)
(** * The closing statistics loop *)
(* ===================================================================== *)

Module Stats.

Local Open Scope f32_scope.

(** The counters [waterTiles], [landTiles] and [mountainTiles]. *)
Record Counts := { waterTiles : Z; landTiles : Z; mountainTiles : Z }.

(** The body of the loop that closes [GenerateWorld] (and that [main]
    repeats): the [int] elevation of the tile is compared as a [float]. *)
Definition count_tile (tile : World.Tile) (c : Counts) : Counts :=
  if F32.of_int (World.tile_elevation tile) <? World.WATER_LEVEL then
    {| waterTiles := waterTiles c + 1; landTiles := landTiles c;
       mountainTiles := mountainTiles c |}
  else if F32.of_int (World.tile_elevation tile) >? World.MOUNTAIN_LEVEL then
    {| waterTiles := waterTiles c; landTiles := landTiles c;
       mountainTiles := mountainTiles c + 1 |}
  else
    {| waterTiles := waterTiles c; landTiles := landTiles c + 1;
       mountainTiles := mountainTiles c |}.

Definition count_tiles (h w : nat) (world : grid World.Tile) : Counts :=
  for_cells h w (fun y x c => count_tile (grid_get world y x) c)
    {| waterTiles := 0; landTiles := 0; mountainTiles := 0 |}.

End Stats.

(* ===================================================================== *)
(** * Auxiliary definitions of the proofs *)
(* ===================================================================== *)

(** A rank that orders the values that are not NaN: class first, then
    exponent and mantissa. *)
Definition rank (a : f32) : Z * Z * Z :=
  match a with
  | S754_nan => (0, 0, 0)
  | S754_infinity true => (-2, 0, 0)
  | S754_infinity false => (2, 0, 0)
  | S754_zero _ => (0, 0, 0)
  | S754_finite true m e => (-1, - e, - Zpos m)
  | S754_finite false m e => (1, e, Zpos m)
  end%Z.

(** The positive binary32 value of mantissa [m] and exponent [e], or the
    infinity when the exponent is out of range. *)
Definition pack (m e : Z) : f32 :=
  if (e <=? 104)%Z then S754_finite false (Z.to_pos m) e else S754_infinity false.

(** The value is the positive infinity or a positive normal binary32 value
    of exponent at least [lo]. *)
Definition normal_above (lo : Z) (x : f32) : Prop :=
  x = S754_infinity false \/
  exists m e, x = S754_finite false m e /\
    (2 ^ 23 <= Zpos m < 2 ^ 24)%Z /\ (lo <= e <= 104)%Z.

(** The same, at least [1.25 * 2^-20] (mantissa 10485760 at the exponent
    -43): far enough from zero to move 20 when subtracted from it. *)
Definition above_half_ulp (x : f32) : Prop :=
  x = S754_infinity false \/
  exists m e, x = S754_finite false m e /\
    (2 ^ 23 <= Zpos m < 2 ^ 24)%Z /\ (e <= 104)%Z /\
    ((-42 <= e)%Z \/ (e = (-43)%Z /\ (10485760 <= Zpos m)%Z)).

Definition lex3 (p q : Z * Z * Z) : comparison :=
  let '(p1, p2, p3) := p in
  let '(q1, q2, q3) := q in
  match (p1 ?= q1)%Z with
  | Eq => match (p2 ?= q2)%Z with Eq => (p3 ?= q3)%Z | c => c end
  | c => c
  end.

(** The cells a loop nest has visited once [y] rows and [k] cells of the
    next row are done. *)
Definition visited (y k y' x' : nat) : bool :=
  (y' <? y)%nat || ((y' =? y)%nat && (x' <? k)%nat).

(** The invariant of a loop nest that rewrites each cell from its own
    content: seen through [view], the visited cells of the state [s] are the
    images by [F] of the cells of the starting state [s0], the others are
    as in [s0]. *)
Definition cells_inv {S C : Type} (h w : nat) (ok : S -> Prop)
    (view : S -> nat -> nat -> C) (F : nat -> nat -> C -> C)
    (s0 : S) (y k : nat) (s : S) : Prop :=
  ok s /\ forall y' x', (y' < h)%nat -> (x' < w)%nat ->
    view s y' x' = if visited y k y' x' then F y' x' (view s0 y' x') else view s0 y' x'.

(** Case analysis on the comparisons of a lexicographic order. *)
Ltac lex3_cases :=
  repeat match goal with
    | p : (Z * Z * Z)%type |- _ => destruct p as [[? ?] ?]
    end;
  unfold lex3;
  repeat match goal with
    | |- context [(?u ?= ?v)%Z] =>
        destruct (Z.compare_spec u v); try (exfalso; lia); try done
    end.

Section Tables.

Local Open Scope f32_scope.

(** The value of [Grad] on each of the sixteen residues. *)
Definition Grad_table (h : Z) (x y : f32) : f32 :=
  match h with
  | 0 => x + y | 1 => - x + y | 2 => x + - y | 3 => - x + - y
  | 4 => x + F32.zero | 5 => - x + F32.zero
  | 6 => x + - F32.zero | 7 => - x + - F32.zero
  | 8 => y + F32.zero | 9 => - y + F32.zero
  | 10 => y + - F32.zero | 11 => - y + - F32.zero
  | 12 => y + x | 13 => - y + F32.zero
  | 14 => y + - x | _ => - y + - F32.zero
  end.

(** The classification table as the specification writes it: elevation
    first, moisture as the tie-break of two bands. *)
Definition classifyBiome (e m : f32) : World.BiomeType :=
  if e <? World.WATER_LEVEL - F32.lit 5 1 then World.DEEP_WATER
  else if e <? World.WATER_LEVEL then World.SHALLOW_WATER
  else if e <? World.BEACH_LEVEL then World.BEACH
  else if e <? World.PLAINS_LEVEL then
    if m >=? F32.lit 6 10 then World.FOREST else World.PLAINS
  else if e <? World.HILLS_LEVEL then
    if m >=? F32.lit 4 10 then World.FOREST else World.HILLS
  else if e <? World.MOUNTAIN_LEVEL then World.MOUNTAINS
  else World.SNOW_CAPS.

(** The 3x3 neighbourhood of the specification, clamped to the grid: the
    indices next to [i] that exist in a dimension of size [n], and the cells
    of the block in row-major order. *)
Definition near (n i : nat) : list Z :=
  List.filter (fun j => (0 <=? j)%Z && (j <? Z.of_nat n)%Z)
              [Z.of_nat i - 1; Z.of_nat i; Z.of_nat i + 1]%Z.

Definition neighbourhood (h w y x : nat) : list (Z * Z) :=
  flat_map (fun ny => map (fun nx => (ny, nx)) (near w x)) (near h y).

(** The sum and the mean of the elevations [terrainData] holds on a list of
    cells, added from left to right starting from [0.0f]. *)
Definition elevation_sum (terrainData : grid World.TerrainData) (cells : list (Z * Z)) : f32 :=
  foldl (fun t c => t + World.elevation (grid_get terrainData (Z.to_nat c.1) (Z.to_nat c.2)))
        (F32.lit 0 1) cells.

Definition elevation_mean (terrainData : grid World.TerrainData) (cells : list (Z * Z)) : f32 :=
  elevation_sum terrainData cells / F32.of_int (Z.of_nat (length cells)).

(** A cell of the tributary band, on dry high ground: [riverValue] is
    [0.75f], between [RIVER_THRESHOLD - 0.1f] and [RIVER_THRESHOLD]. *)
Definition borderline : World.TerrainData :=
  {| World.elevation := F32.lit 50 1; World.moisture := F32.lit 0 1;
     World.riverValue := F32.lit 3 4; World.biome := World.DEEP_WATER |}.

(** The properties [CreateBiomeProperties] holds for a biome (its map has
    the eight keys). *)
Definition biome_props (k : World.BiomeType) : World.BiomeProperties :=
  default (World.Build_BiomeProperties (World.rgba 0 0 0 0) F32.zero F32.zero false)
          (World.CreateBiomeProperties !! k).

(** The terrain cell and the tile that the last loop nest writes at
    [(x, y)], from the terrain cell [data] it finds there. *)
Definition finalized (variation : nat -> nat -> nat -> Z) (h w y x : nat)
    (data : World.TerrainData) : World.TerrainData * World.Tile :=
  let k := World.DetermineBiome (World.elevation data) (World.moisture data) in
  (World.set_biome k data,
   {| World.tile_x := Z.of_nat x;
      World.tile_y := Z.of_nat y;
      World.tile_elevation := F32.to_int (World.elevation data);
      World.tile_walkable := World.walkable (biome_props k);
      World.tile_color := World.tile_colour variation h w y x (biome_props k) |}).

(** The cell lies on the debug pattern of pass 4: a diagonal stripe, the
    border of the map, or one of its two centre lines. *)
Definition on_stripe (y x : nat) : bool := (Z.rem (Z.of_nat x + Z.of_nat y) 10 =? 0)%Z.

Definition on_border (h w y x : nat) : bool :=
  (Z.of_nat x =? 0)%Z || (Z.of_nat y =? 0)%Z
  || (Z.of_nat x =? Z.of_nat w - 1)%Z || (Z.of_nat y =? Z.of_nat h - 1)%Z.

Definition on_centre_line (h w y x : nat) : bool :=
  (Z.of_nat x =? Z.quot (Z.of_nat w) 2)%Z || (Z.of_nat y =? Z.quot (Z.of_nat h) 2)%Z.

(** The colour the specification describes: the base colour plus the
    jitters [jr], [jg], [jb], each channel clamped to [0, 255]. *)
Definition jittered (base : World.SDL_Color) (jr jg jb : Z) : World.SDL_Color :=
  World.rgba (World.clamp (World.r base + jr) 0 255)
             (World.clamp (World.g base + jg) 0 255)
             (World.clamp (World.b base + jb) 0 255) 255.

(** A cell under water, and a 3 by 3 terrain around a dry cell. *)
Definition lake_cell : World.TerrainData :=
  {| World.elevation := F32.lit 10 1; World.moisture := F32.lit 5 10;
     World.riverValue := F32.lit 1 10; World.biome := World.DEEP_WATER |}.

(** A stand-in for the library's shuffle, to evaluate the model on examples:
    it permutes, as [std::shuffle] does, by leaving the sequence as it is. *)
Definition sample_shuffle (seed : Z) (l : list Z) : list Z := l.

(** A stand-in for [std::pow] on the two exponents [GenerateWorld] uses: the
    cube by two products, the square root by [F32.sqrt]. *)
Definition sample_pow (a b : f32) : f32 :=
  if F32.eq b (F32.lit 3 1) then a * a * a else F32.sqrt a.

(** A stand-in for the draws of [variation]: always 3. *)
Definition sample_variation (y x k : nat) : Z := 3.

(** A cell on a river, in a wet basin. *)
Definition river_cell : World.TerrainData :=
  {| World.elevation := F32.lit 50 1; World.moisture := F32.lit 9 10;
     World.riverValue := F32.lit 9 10; World.biome := World.DEEP_WATER |}.

Definition sample_terrain : grid World.TerrainData :=
  [[borderline; river_cell]; [river_cell; borderline]].

Definition sample_terrain3 : grid World.TerrainData :=
  [[borderline; river_cell; borderline];
   [river_cell; borderline; river_cell];
   [borderline; lake_cell; borderline]].

(** The relation between the elevation [e0] a cell enters pass 2 with and an
    elevation [e] it has later in the pass: never above, and at most [e0]
    when [e0] is a number. *)
Definition lowered (e0 e : f32) : Prop :=
  F32.lt e0 e = false /\
  (F32.is_nan e0 = false -> F32.le e e0 = true /\ F32.is_nan e = false).

End Tables.

(* ===================================================================== *)
(** * Auxiliary definitions for the player, the renderer and the noise *)
(* ===================================================================== *)

(** The value is a zero or a finite number: neither an infinity nor a NaN. *)
Definition finite (a : f32) : bool :=
  match a with S754_zero _ | S754_finite _ _ _ => true | _ => false end.

(** The value is a zero, of either sign. *)
Definition is_zero (a : f32) : bool :=
  match a with S754_zero _ => true | _ => false end.

(** [p[i]] with the subscript checked against the vector: [None] where the
    C++ access is out of range. *)
Definition at_ (p : list Z) (i : Z) : option Z :=
  if (i <? 0)%Z then None else p !! Z.to_nat i.

(** [Noise.noise_at] with each of its ten subscripts checked. *)
Definition noise_at_checked (p : list Z) (x y : f32) : option f32 :=
  let X := Z.land (F32.to_int (F32.floor x)) 255 in
  let Y := Z.land (F32.to_int (F32.floor y)) 255 in
  let x := (x - F32.floor x)%f32 in
  let y := (y - F32.floor y)%f32 in
  let u := Noise.Fade x in
  let v := Noise.Fade y in
  pX ← at_ p X;
  let A := (pX + Y)%Z in
  AA ← at_ p A;
  AB ← at_ p (A + 1)%Z;
  pX1 ← at_ p (X + 1)%Z;
  let B := (pX1 + Y)%Z in
  BA ← at_ p B;
  BB ← at_ p (B + 1)%Z;
  pAA ← at_ p AA;
  pBA ← at_ p BA;
  pAB ← at_ p AB;
  pBB ← at_ p BB;
  Some (Noise.Lerp
          (Noise.Lerp (Noise.Grad pAA x y)
                      (Noise.Grad pBA (x - F32.of_int 1)%f32 y) u)
          (Noise.Lerp (Noise.Grad pAB x (y - F32.of_int 1)%f32)
                      (Noise.Grad pBB (x - F32.of_int 1)%f32 (y - F32.of_int 1)%f32) u)
          v).

(** The player as [main] places it: at [(10, 10)], elevation 30, at rest. *)
Definition sample_player : Player.Player :=
  {| Player.x := F32.lit 10 1; Player.y := F32.lit 10 1; Player.elevation := F32.lit 30 1;
     Player.velocityX := F32.zero; Player.velocityY := F32.zero;
     Player.velocityZ := F32.zero; Player.isJumping := false;
     Player.color := World.rgba 255 0 0 255 |}.

(** Keyboards: no key down, and the space bar alone. *)
Definition no_keys (k : Player.Scancode) : bool := false.

Definition space_only (k : Player.Scancode) : bool :=
  match k with Player.SDL_SCANCODE_SPACE => true | _ => false end.

Definition sample_statics : Player.Statics :=
  {| Player.lastKeyPrintTime := 0; Player.lastPrintX := F32.zero;
     Player.lastPrintY := F32.zero; Player.lastPrintZ := F32.zero |}.

(** A world of 128 by 128 tiles, all at the elevation [n], each holding
    its own coordinates. *)
Definition flat_world (n : Z) : grid World.Tile :=
  (fun y : nat =>
     (fun x : nat =>
        {| World.tile_x := Z.of_nat x; World.tile_y := Z.of_nat y;
           World.tile_elevation := n;
           World.tile_color := World.rgba 100 210 100 255;
           World.tile_walkable := true |}) <$> seq 0 128) <$> seq 0 128.

Definition sample_camera : Renderer.Camera :=
  {| Renderer.camera_x := F32.zero; Renderer.camera_y := F32.zero |}.

(** A wet cell of the lowlands, off every river, and a terrain around it. *)
Definition wet_cell : World.TerrainData :=
  {| World.elevation := F32.lit 22 1; World.moisture := F32.lit 9 10;
     World.riverValue := F32.lit 1 10; World.biome := World.DEEP_WATER |}.

Definition sample_wetland : grid World.TerrainData :=
  [[wet_cell; borderline]; [river_cell; wet_cell]].


(* ===================================================================== *)
(** * Facts on binary32 comparisons *)
(* ===================================================================== *)

Section F32_order.

Implicit Types a b c : f32.

Lemma SFcompare_refl a : F32.is_nan a = false -> SFcompare a a = Some Eq.
Proof.
  destruct a as [s|s| |s m e]; try destruct s; simpl; try done; intros _.
  - by rewrite Z.compare_refl, Pos.compare_cont_refl.
  - by rewrite Z.compare_refl, Pos.compare_cont_refl.
Qed.

Lemma SFcompare_antisym a b :
  SFcompare b a = CompOpp <$> SFcompare a b.
Proof.
  destruct a as [s1|s1| |s1 m1 e1], b as [s2|s2| |s2 m2 e2];
    try destruct s1; try destruct s2; simpl; try done;
    change (Pos.compare_cont Eq ?x ?y) with (Pos.compare x y);
    rewrite (Z.compare_antisym e2 e1), (Pos.compare_antisym m2 m1);
    destruct (e2 ?= e1)%Z; simpl; try done;
    by destruct (m2 ?= m1)%positive.
Qed.

Lemma SFcompare_rank a b :
  F32.is_nan a = false -> F32.is_nan b = false ->
  SFcompare a b = Some (lex3 (rank a) (rank b)).
Proof.
  destruct a as [s1|s1| |s1 m1 e1], b as [s2|s2| |s2 m2 e2];
    try destruct s1; try destruct s2; simpl; try done; intros _ _;
    change (Pos.compare_cont Eq ?x ?y) with (Pos.compare x y).
  rewrite Z.compare_opp, (Z.compare_antisym e1 e2).
  by destruct (e1 ?= e2)%Z.
Qed.

Lemma lex3_Lt_trans p q t : lex3 p q = Lt -> lex3 q t = Lt -> lex3 p t = Lt.
Proof.
  destruct p as [[p1 p2] p3], q as [[q1 q2] q3], t as [[t1 t2] t3]; simpl.
  destruct (Z.compare_spec p1 q1), (Z.compare_spec q1 t1),
    (Z.compare_spec p2 q2), (Z.compare_spec q2 t2),
    (Z.compare_spec p3 q3), (Z.compare_spec q3 t3); try done;
  intros _ _; subst;
  repeat match goal with
    | |- context [(?u ?= ?v)%Z] => destruct (Z.compare_spec u v); try lia
    end; done.
Qed.

Lemma lex3_le_trans p q t : lex3 p q <> Gt -> lex3 q t <> Gt -> lex3 p t <> Gt.
Proof. lex3_cases. Qed.

Lemma lex3_lt_le_trans p q t : lex3 p q = Lt -> lex3 q t <> Gt -> lex3 p t = Lt.
Proof. lex3_cases. Qed.

Lemma lex3_le_lt_trans p q t : lex3 p q <> Gt -> lex3 q t = Lt -> lex3 p t = Lt.
Proof. lex3_cases. Qed.

Lemma lex3_antisym p q : lex3 q p = CompOpp (lex3 p q).
Proof. lex3_cases. Qed.

Lemma lex3_refl p : lex3 p p = Eq.
Proof. lex3_cases. Qed.

Lemma lt_spec a b :
  F32.lt a b = true <->
  F32.is_nan a = false /\ F32.is_nan b = false /\ lex3 (rank a) (rank b) = Lt.
Proof.
  unfold F32.lt, SFltb. split.
  - destruct a, b; try done; intros H; do 2 (split; [done|]);
      rewrite SFcompare_rank in H by done; by destruct (lex3 _ _).
  - intros (Ha & Hb & H). by rewrite SFcompare_rank, H.
Qed.

Lemma le_spec a b :
  F32.le a b = true <->
  F32.is_nan a = false /\ F32.is_nan b = false /\ lex3 (rank a) (rank b) <> Gt.
Proof.
  unfold F32.le, SFleb. split.
  - destruct a, b; try done; intros H; do 2 (split; [done|]);
      rewrite SFcompare_rank in H by done; by destruct (lex3 _ _).
  - intros (Ha & Hb & H). rewrite SFcompare_rank by done. by destruct (lex3 _ _).
Qed.

Lemma lt_le a b : F32.lt a b = true -> F32.le a b = true.
Proof. rewrite lt_spec, le_spec. intros (? & ? & ->). done. Qed.

Lemma le_refl a : F32.is_nan a = false -> F32.le a a = true.
Proof. intros. apply le_spec. by rewrite lex3_refl. Qed.

Lemma lt_irrefl a : F32.lt a a = false.
Proof.
  apply not_true_is_false. rewrite lt_spec, lex3_refl. by intros (_ & _ & ?).
Qed.

Lemma lt_asym a b : F32.lt a b = true -> F32.lt b a = false.
Proof.
  intros H. apply not_true_is_false. revert H. rewrite !lt_spec.
  intros (_ & _ & H1) (_ & _ & H2). rewrite lex3_antisym, H1 in H2. done.
Qed.

Lemma le_trans a b c : F32.le a b = true -> F32.le b c = true -> F32.le a c = true.
Proof.
  rewrite !le_spec. intros (? & ? & ?) (? & ? & ?).
  eauto using lex3_le_trans.
Qed.

Lemma lt_le_trans a b c : F32.lt a b = true -> F32.le b c = true -> F32.lt a c = true.
Proof.
  rewrite !lt_spec, le_spec. intros (? & ? & ?) (? & ? & ?).
  eauto using lex3_lt_le_trans.
Qed.

Lemma le_lt_trans a b c : F32.le a b = true -> F32.lt b c = true -> F32.lt a c = true.
Proof.
  rewrite !lt_spec, le_spec. intros (? & ? & ?) (? & ? & ?).
  eauto using lex3_le_lt_trans.
Qed.

Lemma not_lt_le a b :
  F32.is_nan a = false -> F32.is_nan b = false ->
  F32.lt b a = false -> F32.le a b = true.
Proof.
  intros Ha Hb H. apply le_spec. do 2 (split; [done|]). intros HG.
  assert (F32.lt b a = true); [|congruence].
  apply lt_spec. by rewrite lex3_antisym, HG.
Qed.

Lemma le_not_lt a b : F32.le a b = true -> F32.lt b a = false.
Proof.
  intros H. apply not_true_is_false. revert H. rewrite le_spec, lt_spec.
  intros (_ & _ & H1) (_ & _ & H2). rewrite lex3_antisym in H2.
  by destruct (lex3 (rank a) (rank b)).
Qed.

Lemma lt_not_nan a b : F32.lt a b = true -> F32.is_nan a = false /\ F32.is_nan b = false.
Proof. rewrite lt_spec. tauto. Qed.

Lemma le_not_nan a b : F32.le a b = true -> F32.is_nan a = false /\ F32.is_nan b = false.
Proof. rewrite le_spec. tauto. Qed.

(** [std::min] never returns more than its first argument, and returns at
    most the second one when the first is not a NaN. *)
Lemma min_le_l a b : F32.is_nan a = false -> F32.le (F32.min a b) a = true.
Proof.
  intros Ha. unfold F32.min. destruct (F32.lt b a) eqn:E.
  - by apply lt_le.
  - by apply le_refl.
Qed.

Lemma min_le_r a b :
  F32.is_nan a = false -> F32.is_nan b = false -> F32.le (F32.min a b) b = true.
Proof.
  intros Ha Hb. unfold F32.min. destruct (F32.lt b a) eqn:E.
  - by apply le_refl.
  - by apply not_lt_le.
Qed.

Lemma min_not_above a b : F32.lt a (F32.min a b) = false.
Proof.
  unfold F32.min. destruct (F32.lt b a) eqn:E.
  - by apply lt_asym.
  - apply lt_irrefl.
Qed.

Lemma min_nan a b : F32.is_nan a = false -> F32.is_nan b = false ->
  F32.is_nan (F32.min a b) = false.
Proof. intros. unfold F32.min. by destruct (F32.lt b a). Qed.

End F32_order.

(* ===================================================================== *)
(** * Counted loops *)
(* ===================================================================== *)

Lemma for_S {S} n (body : nat -> S -> S) s :
  for_ (Datatypes.S n) body s = body n (for_ n body s).
Proof. unfold for_. by rewrite seq_S, foldl_app. Qed.

Lemma for_ind {S} (P : nat -> S -> Prop) n (body : nat -> S -> S) s :
  P 0%nat s ->
  (forall i s, (i < n)%nat -> P i s -> P (Datatypes.S i) (body i s)) ->
  P n (for_ n body s).
Proof.
  intros H0 Hstep. induction n as [|n IH]; [done|].
  rewrite for_S. apply Hstep; [lia|]. apply IH. intros; apply Hstep; [lia|done].
Qed.

Section CellLoop.

Context {S C : Type}.
Variables (h w : nat) (ok : S -> Prop) (view : S -> nat -> nat -> C).
Variables (step : nat -> nat -> S -> S) (F : nat -> nat -> C -> C).

Hypothesis step_ok : forall y x s, (y < h)%nat -> (x < w)%nat -> ok s -> ok (step y x s).
Hypothesis step_here : forall y x s, (y < h)%nat -> (x < w)%nat -> ok s ->
  view (step y x s) y x = F y x (view s y x).
Hypothesis step_other : forall y x y' x' s, (y < h)%nat -> (x < w)%nat -> ok s ->
  (y', x') <> (y, x) -> view (step y x s) y' x' = view s y' x'.

Lemma cells_inv_row s0 y s :
  (y < h)%nat -> cells_inv h w ok view F s0 y 0 s -> cells_inv h w ok view F s0 y w (for_ w (step y) s).
Proof.
  intros Hy H0. apply (for_ind (fun k s => cells_inv h w ok view F s0 y k s)); [done|].
  intros k s' Hk [Hok Hv]. split; [by apply step_ok|].
  intros y' x' Hy' Hx'.
  destruct (decide ((y', x') = (y, k))) as [E|N].
  - injection E as -> ->. rewrite step_here by done. rewrite Hv by done.
    unfold visited. rewrite Nat.eqb_refl, !Nat.ltb_irrefl.
    replace (k <? Datatypes.S k)%nat with true by (symmetry; apply Nat.ltb_lt; lia).
    reflexivity.
  - rewrite step_other by done. rewrite Hv by done.
    assert (visited y (Datatypes.S k) y' x' = visited y k y' x') as ->; [|done].
    unfold visited. f_equal.
    destruct (y' =? y)%nat eqn:E; [|done]. apply Nat.eqb_eq in E. subst y'. simpl.
    assert (x' <> k) by congruence.
    destruct (x' <? k)%nat eqn:E1; [apply Nat.ltb_lt in E1; apply Nat.ltb_lt; lia|].
    apply Nat.ltb_ge in E1. apply Nat.ltb_ge. lia.
Qed.

Lemma cells_inv_next s0 y s :
  cells_inv h w ok view F s0 y w s -> cells_inv h w ok view F s0 (Datatypes.S y) 0 s.
Proof.
  intros [Hok Hv]. split; [done|]. intros y' x' Hy' Hx'. rewrite Hv by done.
  assert (visited (Datatypes.S y) 0 y' x' = visited y w y' x') as ->; [|done].
  unfold visited. rewrite andb_false_r, orb_false_r.
  destruct (y' <? y)%nat eqn:E1.
  - apply Nat.ltb_lt in E1. apply Nat.ltb_lt. lia.
  - apply Nat.ltb_ge in E1. simpl. destruct (y' =? y)%nat eqn:E2.
    + apply Nat.eqb_eq in E2. simpl. rewrite (proj2 (Nat.ltb_lt x' w)) by done.
      apply Nat.ltb_lt. lia.
    + apply Nat.eqb_neq in E2. simpl. apply Nat.ltb_ge. lia.
Qed.

(** A loop nest whose turn for [(y, x)] rewrites the cell [(y, x)] from its
    own content, and no other cell, maps [F] over the [h] by [w] cells. *)
Lemma for_cells_view s :
  ok s ->
  ok (for_cells h w step s) /\
  forall y x, (y < h)%nat -> (x < w)%nat ->
    view (for_cells h w step s) y x = F y x (view s y x).
Proof.
  intros Hok.
  assert (cells_inv h w ok view F s h 0 (for_cells h w step s)) as [Hok' Hv].
  { unfold for_cells. apply (for_ind (fun y s' => cells_inv h w ok view F s y 0 s')).
    - split; [done|]. intros y' x' _ _. unfold visited.
      by rewrite andb_false_r, orb_false_r.
    - intros y s' Hy Hinv. by apply cells_inv_next, cells_inv_row. }
  split; [done|]. intros y x Hy Hx. rewrite Hv by done.
  unfold visited. by rewrite (proj2 (Nat.ltb_lt y h)).
Qed.

End CellLoop.

(* ===================================================================== *)
(** * Grids *)
(* ===================================================================== *)

Section Grid.

Context {A : Type} `{!Inhabited A}.
Implicit Types g : grid A.

Lemma grid_dims_make h w (a : A) : grid_dims h w (make_grid h w a).
Proof.
  split; [apply length_replicate|]. apply Forall_replicate, length_replicate.
Qed.

Lemma grid_get_make h w (a : A) y x :
  (y < h)%nat -> (x < w)%nat -> grid_get (make_grid h w a) y x = a.
Proof.
  intros. unfold grid_get, make_grid. by rewrite !lookup_total_replicate_2.
Qed.

Lemma grid_dims_set h w g y x a : grid_dims h w g -> grid_dims h w (grid_set g y x a).
Proof.
  intros [Hh Hw]. split; unfold grid_set.
  - by rewrite length_alter.
  - apply Forall_alter; [done|]. intros row _ Hrow. by rewrite length_insert.
Qed.

Lemma grid_dims_row h w g y : grid_dims h w g -> (y < h)%nat -> length (g !!! y) = w.
Proof.
  intros [Hh Hw] Hy.
  apply (Forall_lookup_total_1 (fun row => length row = w)); [done|lia].
Qed.

Lemma grid_get_set_eq h w g y x a :
  grid_dims h w g -> (y < h)%nat -> (x < w)%nat -> grid_get (grid_set g y x a) y x = a.
Proof.
  intros Hd Hy Hx. unfold grid_get, grid_set.
  rewrite list_lookup_total_alter_eq by (destruct Hd; lia).
  apply list_lookup_total_insert_eq. by rewrite (grid_dims_row h w).
Qed.

Lemma grid_get_set_ne g y x a y' x' :
  (y', x') <> (y, x) -> grid_get (grid_set g y x a) y' x' = grid_get g y' x'.
Proof.
  intros N. unfold grid_get, grid_set.
  destruct (decide (y = y')) as [->|Hy].
  - rewrite list_lookup_total_alter.
    case_decide; [|done]. apply list_lookup_total_insert_ne. congruence.
  - by rewrite list_lookup_total_alter_ne.
Qed.

(** The loop nest that rewrites every cell from its own content. *)
Lemma for_cells_map h w (f : nat -> nat -> A -> A) g :
  grid_dims h w g ->
  grid_dims h w (for_cells h w (fun y x g => grid_set g y x (f y x (grid_get g y x))) g) /\
  forall y x, (y < h)%nat -> (x < w)%nat ->
    grid_get (for_cells h w (fun y x g => grid_set g y x (f y x (grid_get g y x))) g) y x
    = f y x (grid_get g y x).
Proof.
  intros Hd.
  apply (for_cells_view h w (grid_dims h w) grid_get
           (fun y x g => grid_set g y x (f y x (grid_get g y x))) f); [| | |done].
  - intros. by apply grid_dims_set.
  - intros. by apply (grid_get_set_eq h w).
  - intros. by apply grid_get_set_ne.
Qed.

End Grid.

(* ===================================================================== *)
(** * Passes 2 and 3, cell by cell *)
(* ===================================================================== *)

Section Passes.

Import World.
Local Open Scope f32_scope.

Variables h w : nat.
Variable terrainData : grid TerrainData.
Hypothesis dims : grid_dims h w terrainData.

Lemma pass2_dims : grid_dims h w (pass2 h w terrainData).
Proof. by apply (for_cells_map h w (fun _ _ => carve)). Qed.

Lemma pass2_cell y x :
  (y < h)%nat -> (x < w)%nat ->
  grid_get (pass2 h w terrainData) y x = carve (grid_get terrainData y x).
Proof. by apply (for_cells_map h w (fun _ _ => carve)). Qed.

Lemma smooth_dims : grid_dims h w (smooth h w terrainData).
Proof.
  apply (for_cells_map h w (fun y x _ => smoothed_value h w terrainData y x)),
    grid_dims_make.
Qed.

Lemma smooth_cell y x :
  (y < h)%nat -> (x < w)%nat ->
  grid_get (smooth h w terrainData) y x = smoothed_value h w terrainData y x.
Proof.
  apply (for_cells_map h w (fun y x _ => smoothed_value h w terrainData y x)),
    grid_dims_make.
Qed.

Lemma pass3_dims : grid_dims h w (pass3 h w terrainData).
Proof.
  by apply (for_cells_map h w
    (fun y x d => set_elevation (grid_get (smooth h w terrainData) y x) d)).
Qed.

Lemma pass3_cell y x :
  (y < h)%nat -> (x < w)%nat ->
  grid_get (pass3 h w terrainData) y x
  = set_elevation (smoothed_value h w terrainData y x) (grid_get terrainData y x).
Proof.
  intros Hy Hx. unfold pass3, write_back.
  destruct (for_cells_map h w
    (fun y x d => set_elevation (grid_get (smooth h w terrainData) y x) d)
    terrainData dims) as [_ ->]; [|done..].
  by rewrite smooth_cell.
Qed.

End Passes.

(* ===================================================================== *)
(** * The gradient function *)
(* ===================================================================== *)

Section Gradient.

Import Noise.
Local Open Scope f32_scope.

Lemma land_15_idem hash : Z.land (Z.land hash 15) 15 = Z.land hash 15.
Proof. rewrite <- Z.land_assoc. reflexivity. Qed.

Lemma land_15_range hash : (0 <= Z.land hash 15 < 16)%Z.
Proof.
  change 15%Z with (Z.ones 4). rewrite Z.land_ones by lia.
  apply Z.mod_pos_bound. lia.
Qed.

Lemma Grad_residue hash x y : Grad hash x y = Grad (Z.land hash 15) x y.
Proof. unfold Grad. by rewrite land_15_idem. Qed.

Lemma Grad_by_table hash x y : Grad hash x y = Grad_table (Z.land hash 15) x y.
Proof.
  rewrite Grad_residue. pose proof (land_15_range hash) as R.
  set (h := Z.land hash 15) in *. clearbody h.
  assert (h = 0 \/ h = 1 \/ h = 2 \/ h = 3 \/ h = 4 \/ h = 5 \/ h = 6 \/ h = 7 \/
          h = 8 \/ h = 9 \/ h = 10 \/ h = 11 \/ h = 12 \/ h = 13 \/ h = 14 \/ h = 15)%Z
    as H by lia.
  repeat (destruct H as [->|H]; [reflexivity|]). by subst h.
Qed.

(** C4, the claim as stated, fails: on the residue 13 (and 15) the [v] term
    is zero, and the value is [-u] alone, here [-1] whatever [x] is. *)
Lemma C4_counterexample :
  Grad 13 (F32.of_int 3) (F32.of_int 1) = F32.of_int (-1) /\
  Grad 13 (F32.of_int 7) (F32.of_int 1) = F32.of_int (-1) /\
  Grad 15 (F32.of_int 3) (F32.of_int 1) = F32.of_int (-1) /\
  Grad 15 (F32.of_int 7) (F32.of_int 1) = F32.of_int (-1).
Proof. repeat split; vm_compute; reflexivity. Qed.

(** C4, as amended: [Grad] is a function of [hash & 15] and of the two
    offsets; the residues 0 to 3 give [±x ± y], 12 and 14 give [±y ± x], and
    on every other residue, 13 and 15 among them, the [v] term is the
    constant zero, so that the value is [±u] plus a signed zero and does not
    depend on the other offset. *)
Theorem C4_Grad_residues (hash : Z) (x y x' : f32) :
  Grad hash x y = Grad (Z.land hash 15) x y /\
  Grad hash x y = Grad_table (Z.land hash 15) x y /\
  Grad 13 x y = - y + F32.zero /\
  Grad 15 x y = - y + - F32.zero /\
  Grad 13 x y = Grad 13 x' y /\
  Grad 15 x y = Grad 15 x' y.
Proof.
  split; [apply Grad_residue|]. split; [apply Grad_by_table|]. done.
Qed.

End Gradient.

(* ===================================================================== *)
(** * Biome classification *)
(* ===================================================================== *)

Section Biomes.

Import World.
Local Open Scope f32_scope.

(** Two constants in increasing order cannot enclose a value the wrong way
    round. *)
Lemma below_excludes (c1 c2 e : f32) :
  F32.le c1 c2 = true -> F32.le c2 e = true -> F32.lt e c1 = false.
Proof. intros H1 H2. apply le_not_lt. by apply (le_trans _ c2). Qed.

Lemma DetermineBiome_band_classes e m :
  (F32.lt e (WATER_LEVEL - F32.lit 5 1) = true -> DetermineBiome e m = DEEP_WATER) /\
  (F32.le (WATER_LEVEL - F32.lit 5 1) e = true -> F32.lt e WATER_LEVEL = true ->
     DetermineBiome e m = SHALLOW_WATER) /\
  (F32.le WATER_LEVEL e = true -> F32.lt e BEACH_LEVEL = true ->
     DetermineBiome e m = BEACH) /\
  (F32.le BEACH_LEVEL e = true -> F32.lt e PLAINS_LEVEL = true ->
     (F32.ge m (F32.lit 6 10) = true -> DetermineBiome e m = FOREST) /\
     (F32.lt m (F32.lit 6 10) = true -> DetermineBiome e m = PLAINS)) /\
  (F32.le PLAINS_LEVEL e = true -> F32.lt e HILLS_LEVEL = true ->
     (F32.ge m (F32.lit 4 10) = true -> DetermineBiome e m = FOREST) /\
     (F32.lt m (F32.lit 4 10) = true -> DetermineBiome e m = HILLS)) /\
  (F32.le HILLS_LEVEL e = true -> F32.lt e MOUNTAIN_LEVEL = true ->
     DetermineBiome e m = MOUNTAINS) /\
  (F32.le MOUNTAIN_LEVEL e = true -> DetermineBiome e m = SNOW_CAPS).
Proof.
  unfold DetermineBiome.
  repeat split.
  - by intros ->.
  - intros H1 ->. by rewrite (le_not_lt _ _ H1).
  - intros H1 ->.
    rewrite (le_not_lt _ _ H1).
    by rewrite (below_excludes (WATER_LEVEL - F32.lit 5 1) WATER_LEVEL e).
  - intros Hm.
    rewrite (below_excludes (WATER_LEVEL - F32.lit 5 1) BEACH_LEVEL e) by done.
    rewrite (below_excludes WATER_LEVEL BEACH_LEVEL e) by done.
    rewrite (le_not_lt _ _ H). rewrite H0.
    rewrite (below_excludes (F32.lit 3 10) (F32.lit 6 10) m) by done.
    by rewrite (le_not_lt _ _ Hm).
  - intros Hm.
    rewrite (below_excludes (WATER_LEVEL - F32.lit 5 1) BEACH_LEVEL e) by done.
    rewrite (below_excludes WATER_LEVEL BEACH_LEVEL e) by done.
    rewrite (le_not_lt _ _ H). rewrite H0, Hm.
    by destruct (F32.lt m (F32.lit 3 10)).
  - intros Hm.
    rewrite (below_excludes (WATER_LEVEL - F32.lit 5 1) PLAINS_LEVEL e) by done.
    rewrite (below_excludes WATER_LEVEL PLAINS_LEVEL e) by done.
    rewrite (below_excludes BEACH_LEVEL PLAINS_LEVEL e) by done.
    rewrite (le_not_lt _ _ H). rewrite H0.
    by rewrite (le_not_lt _ _ Hm).
  - intros Hm.
    rewrite (below_excludes (WATER_LEVEL - F32.lit 5 1) PLAINS_LEVEL e) by done.
    rewrite (below_excludes WATER_LEVEL PLAINS_LEVEL e) by done.
    rewrite (below_excludes BEACH_LEVEL PLAINS_LEVEL e) by done.
    rewrite (le_not_lt _ _ H). by rewrite H0, Hm.
  - intros H1 H2.
    rewrite (below_excludes (WATER_LEVEL - F32.lit 5 1) HILLS_LEVEL e) by done.
    rewrite (below_excludes WATER_LEVEL HILLS_LEVEL e) by done.
    rewrite (below_excludes BEACH_LEVEL HILLS_LEVEL e) by done.
    rewrite (below_excludes PLAINS_LEVEL HILLS_LEVEL e) by done.
    rewrite (le_not_lt _ _ H1). by rewrite H2.
  - intros H1.
    rewrite (below_excludes (WATER_LEVEL - F32.lit 5 1) MOUNTAIN_LEVEL e) by done.
    rewrite (below_excludes WATER_LEVEL MOUNTAIN_LEVEL e) by done.
    rewrite (below_excludes BEACH_LEVEL MOUNTAIN_LEVEL e) by done.
    rewrite (below_excludes PLAINS_LEVEL MOUNTAIN_LEVEL e) by done.
    rewrite (below_excludes HILLS_LEVEL MOUNTAIN_LEVEL e) by done.
    by rewrite (le_not_lt _ _ H1).
Qed.

End Biomes.

Section Biomes_table.

Import World.
Local Open Scope f32_scope.

Lemma ge_negb_lt (m c : f32) :
  F32.is_nan m = false -> F32.is_nan c = false -> F32.ge m c = negb (F32.lt m c).
Proof.
  intros Hm Hc. unfold F32.ge. destruct (F32.lt m c) eqn:E; simpl.
  - apply not_true_is_false. intros H. by rewrite (le_not_lt _ _ H) in E.
  - by apply not_lt_le.
Qed.

Lemma DetermineBiome_classify e m :
  F32.is_nan m = false -> DetermineBiome e m = classifyBiome e m.
Proof.
  intros Hm. unfold DetermineBiome, classifyBiome.
  rewrite !(ge_negb_lt m) by done.
  destruct (F32.lt m (F32.lit 4 10)) eqn:E4;
    destruct (F32.lt m (F32.lit 3 10)) eqn:E3.
  all: try rewrite (lt_le_trans m (F32.lit 3 10) (F32.lit 6 10)) by done.
  all: try (destruct (F32.lt m (F32.lit 6 10)); reflexivity).
  all: reflexivity.
Qed.

(** On a NaN moisture both comparisons of the lowland band are false: the
    code answers [FOREST] there, and [FOREST] in the hill band. *)
Lemma DetermineBiome_nan_moisture e :
  DetermineBiome e S754_nan = classifyBiome e (F32.lit 1 1).
Proof.
  unfold DetermineBiome, classifyBiome. simpl.
  repeat (destruct (F32.lt e _); try done).
Qed.

(** C9: [DetermineBiome] is total, it returns one of the eight kinds on every
    pair, and it is the threshold table of the specification: below
    [WATER_LEVEL - 5] deep water, below [WATER_LEVEL] shallow water, below
    [BEACH_LEVEL] beach, below [PLAINS_LEVEL] forest when the moisture is at
    least 0.6 and plains when it is less, below [HILLS_LEVEL] forest when the
    moisture is at least 0.4 and hills when it is less, below
    [MOUNTAIN_LEVEL] mountains, and snow caps from [MOUNTAIN_LEVEL] on; a
    value equal to a threshold belongs to the band that starts there. *)
Theorem C9_DetermineBiome_table (e m : f32) :
  DetermineBiome e m ∈
    [DEEP_WATER; SHALLOW_WATER; BEACH; PLAINS; FOREST; HILLS; MOUNTAINS; SNOW_CAPS] /\
  (F32.is_nan m = false -> DetermineBiome e m = classifyBiome e m) /\
  (F32.lt e (WATER_LEVEL - F32.lit 5 1) = true -> DetermineBiome e m = DEEP_WATER) /\
  (F32.le (WATER_LEVEL - F32.lit 5 1) e = true -> F32.lt e WATER_LEVEL = true ->
     DetermineBiome e m = SHALLOW_WATER) /\
  (F32.le WATER_LEVEL e = true -> F32.lt e BEACH_LEVEL = true ->
     DetermineBiome e m = BEACH) /\
  (F32.le BEACH_LEVEL e = true -> F32.lt e PLAINS_LEVEL = true ->
     (F32.ge m (F32.lit 6 10) = true -> DetermineBiome e m = FOREST) /\
     (F32.lt m (F32.lit 6 10) = true -> DetermineBiome e m = PLAINS)) /\
  (F32.le PLAINS_LEVEL e = true -> F32.lt e HILLS_LEVEL = true ->
     (F32.ge m (F32.lit 4 10) = true -> DetermineBiome e m = FOREST) /\
     (F32.lt m (F32.lit 4 10) = true -> DetermineBiome e m = HILLS)) /\
  (F32.le HILLS_LEVEL e = true -> F32.lt e MOUNTAIN_LEVEL = true ->
     DetermineBiome e m = MOUNTAINS) /\
  (F32.le MOUNTAIN_LEVEL e = true -> DetermineBiome e m = SNOW_CAPS).
Proof.
  split; [|split; [apply DetermineBiome_classify|apply DetermineBiome_band_classes]].
  destruct (DetermineBiome e m); set_solver.
Qed.

(** The table at the threshold constants themselves. *)
Lemma C9_DetermineBiome_table_witness :
  DetermineBiome PLAINS_LEVEL (F32.lit 4 10) = FOREST /\
  DetermineBiome BEACH_LEVEL (F32.lit 6 10) = FOREST /\
  DetermineBiome BEACH_LEVEL (F32.lit 3 10) = PLAINS /\
  DetermineBiome (WATER_LEVEL - F32.lit 5 1) (F32.lit 1 2) = SHALLOW_WATER /\
  DetermineBiome WATER_LEVEL (F32.lit 1 2) = BEACH /\
  DetermineBiome HILLS_LEVEL (F32.lit 1 2) = MOUNTAINS /\
  DetermineBiome MOUNTAIN_LEVEL (F32.lit 1 2) = SNOW_CAPS /\
  DetermineBiome (F32.lit 14 1) (F32.lit 1 2) = DEEP_WATER /\
  DetermineBiome (F32.lit 40 1) (F32.lit 1 10) = HILLS /\
  DetermineBiome (F32.lit 40 1) (F32.lit 1 10) = classifyBiome (F32.lit 40 1) (F32.lit 1 10).
Proof.
  pose proof (C9_DetermineBiome_table PLAINS_LEVEL (F32.lit 4 10))
    as (_ & _ & _ & _ & _ & _ & H1 & _).
  pose proof (C9_DetermineBiome_table BEACH_LEVEL (F32.lit 6 10))
    as (_ & _ & _ & _ & _ & H2 & _).
  pose proof (C9_DetermineBiome_table BEACH_LEVEL (F32.lit 3 10))
    as (_ & _ & _ & _ & _ & H3 & _).
  pose proof (C9_DetermineBiome_table (WATER_LEVEL - F32.lit 5 1) (F32.lit 1 2))
    as (_ & _ & _ & H4 & _).
  pose proof (C9_DetermineBiome_table WATER_LEVEL (F32.lit 1 2))
    as (_ & _ & _ & _ & H5 & _).
  pose proof (C9_DetermineBiome_table HILLS_LEVEL (F32.lit 1 2))
    as (_ & _ & _ & _ & _ & _ & _ & H6 & _).
  pose proof (C9_DetermineBiome_table MOUNTAIN_LEVEL (F32.lit 1 2))
    as (_ & _ & _ & _ & _ & _ & _ & _ & H7).
  pose proof (C9_DetermineBiome_table (F32.lit 14 1) (F32.lit 1 2))
    as (_ & _ & H8 & _).
  pose proof (C9_DetermineBiome_table (F32.lit 40 1) (F32.lit 1 10))
    as (_ & H10 & _ & _ & _ & _ & H9 & _).
  split; [apply H1; vm_compute; reflexivity|].
  split; [apply H2; vm_compute; reflexivity|].
  split; [apply H3; vm_compute; reflexivity|].
  split; [apply H4; vm_compute; reflexivity|].
  split; [apply H5; vm_compute; reflexivity|].
  split; [apply H6; vm_compute; reflexivity|].
  split; [apply H7; vm_compute; reflexivity|].
  split; [apply H8; vm_compute; reflexivity|].
  split; [apply H9; vm_compute; reflexivity|].
  apply H10; vm_compute; reflexivity.
Defined.

End Biomes_table.

(* ===================================================================== *)
(** * Pass 2: river and lake carving *)
(* ===================================================================== *)

Section Carving.

Import World.
Local Open Scope f32_scope.

(** Inside [if (data.riverValue > RIVER_THRESHOLD)] the test
    [data.riverValue <= RIVER_THRESHOLD] of the tributary block is false: the
    block never runs. *)
Lemma tributary_branch_dead (rv : f32) :
  F32.gt rv RIVER_THRESHOLD = true ->
  F32.gt rv (RIVER_THRESHOLD - F32.lit 1 10) && F32.le rv RIVER_THRESHOLD = false.
Proof.
  intros H. apply andb_false_iff. right. apply not_true_is_false. intros L.
  apply le_not_lt in L. unfold F32.gt in H. congruence.
Qed.

(** What [carve] does, with the dead block removed. *)
Lemma carve_effective (data : TerrainData) :
  carve data =
  let data :=
    if riverValue data >? RIVER_THRESHOLD then
      set_elevation
        (F32.min (elevation data)
           (WATER_LEVEL
            - (riverValue data - RIVER_THRESHOLD) / (F32.lit 1 1 - RIVER_THRESHOLD)
              * F32.lit 5 1)) data
    else data in
  if (elevation data <? WATER_LEVEL + F32.lit 5 1) && (moisture data >? F32.lit 7 10)
  then set_elevation (F32.min (elevation data) (WATER_LEVEL - F32.lit 2 1)) data
  else data.
Proof.
  unfold carve. destruct (riverValue data >? RIVER_THRESHOLD) eqn:E; [|done].
  cbn [riverValue set_elevation]. by rewrite (tributary_branch_dead _ E).
Qed.

(** A cell at or below the river threshold only meets the lake rule. *)
Lemma carve_off_river (data : TerrainData) :
  F32.gt (riverValue data) RIVER_THRESHOLD = false ->
  carve data =
  if (elevation data <? WATER_LEVEL + F32.lit 5 1) && (moisture data >? F32.lit 7 10)
  then set_elevation (F32.min (elevation data) (WATER_LEVEL - F32.lit 2 1)) data
  else data.
Proof. intros H. rewrite carve_effective. cbn zeta. by rewrite H. Qed.

(** The tributary band lies at or below the threshold, so a cell of the band
    that the lake rule does not catch leaves pass 2 as it entered. *)
Lemma carve_tributary_band_untouched (data : TerrainData) :
  F32.gt (riverValue data) (RIVER_THRESHOLD - F32.lit 1 10) = true ->
  F32.le (riverValue data) RIVER_THRESHOLD = true ->
  (elevation data <? WATER_LEVEL + F32.lit 5 1) && (moisture data >? F32.lit 7 10) = false ->
  carve data = data.
Proof.
  intros _ L Hl. rewrite carve_off_river by (by apply le_not_lt). by rewrite Hl.
Qed.

(** C1, evaluated on the code: the cell [borderline] lies in the tributary
    band, and pass 2 leaves its elevation at 50, above [WATER_LEVEL - 1]; the
    claimed clamp to [min(elevation, WATER_LEVEL - 1)] would have given 19. *)
Theorem C1_tributary_band_not_clamped :
  F32.gt (riverValue borderline) (RIVER_THRESHOLD - F32.lit 1 10) = true /\
  F32.le (riverValue borderline) RIVER_THRESHOLD = true /\
  elevation (carve borderline) = F32.lit 50 1 /\
  F32.le (elevation (carve borderline)) (WATER_LEVEL - F32.lit 1 1) = false /\
  F32.min (elevation borderline) (WATER_LEVEL - F32.lit 1 1) = F32.lit 19 1 /\
  grid_get (pass2 1 1 [[borderline]]) 0 0 = borderline.
Proof. repeat split; vm_compute; reflexivity. Qed.

Lemma lowered_refl e : lowered e e.
Proof.
  split; [apply lt_irrefl|]. intros H. split; [by apply le_refl|done].
Qed.

Lemma lowered_min e0 e c : lowered e0 e -> lowered e0 (F32.min e c).
Proof.
  intros [Hlt Hle]. destruct (F32.is_nan e0) eqn:N.
  - split; [by destruct e0|]. intros ?; congruence.
  - destruct (Hle eq_refl) as [L Ne].
    assert (F32.le (F32.min e c) e0 = true) as L'.
    { apply (le_trans _ e); [by apply min_le_l|done]. }
    split; [by apply le_not_lt|]. intros _. split; [done|].
    by apply le_not_nan in L' as [? _].
Qed.

(** The body of pass 2 only lowers. *)
Lemma carve_lowered (data : TerrainData) :
  lowered (elevation data) (elevation (carve data)).
Proof.
  rewrite carve_effective. cbn zeta.
  set (c1 := WATER_LEVEL - _).
  assert (lowered (elevation data)
            (elevation (if riverValue data >? RIVER_THRESHOLD
                        then set_elevation (F32.min (elevation data) c1) data
                        else data))) as H1.
  { destruct (riverValue data >? RIVER_THRESHOLD); cbn [elevation set_elevation].
    - apply lowered_min, lowered_refl.
    - apply lowered_refl. }
  destruct (_ && _); [|done]. cbn [elevation set_elevation]. by apply lowered_min.
Qed.

Lemma carve_keeps (data : TerrainData) :
  moisture (carve data) = moisture data /\
  riverValue (carve data) = riverValue data /\
  biome (carve data) = biome data.
Proof.
  rewrite carve_effective. cbn zeta.
  destruct (riverValue data >? RIVER_THRESHOLD), (_ && _); done.
Qed.

(** C8: pass 2 is monotone.  In every cell of the grid the elevation after
    pass 2 is never above the elevation before it, and it is less than or
    equal to it whenever the elevation before is a number (on a NaN no
    comparison holds, and the cell stays a NaN). *)
Theorem C8_pass2_monotone (h w : nat) (terrainData : grid TerrainData) (y x : nat) :
  grid_dims h w terrainData -> (y < h)%nat -> (x < w)%nat ->
  F32.lt (elevation (grid_get terrainData y x))
         (elevation (grid_get (pass2 h w terrainData) y x)) = false /\
  (F32.is_nan (elevation (grid_get terrainData y x)) = false ->
   F32.le (elevation (grid_get (pass2 h w terrainData) y x))
          (elevation (grid_get terrainData y x)) = true).
Proof.
  intros Hd Hy Hx. rewrite (pass2_cell h w) by done.
  destruct (carve_lowered (grid_get terrainData y x)) as [H1 H2].
  split; [done|]. intros N. by destruct (H2 N).
Qed.

End Carving.

Lemma sample_terrain_dims : grid_dims 2 2 sample_terrain.
Proof. split; [reflexivity|]. repeat constructor. Qed.

Lemma C8_pass2_monotone_witness :
  F32.lt (World.elevation (grid_get sample_terrain 0 1))
         (World.elevation (grid_get (World.pass2 2 2 sample_terrain) 0 1)) = false /\
  F32.le (World.elevation (grid_get (World.pass2 2 2 sample_terrain) 0 1))
         (World.elevation (grid_get sample_terrain 0 1)) = true.
Proof.
  destruct (C8_pass2_monotone 2 2 sample_terrain 0 1 sample_terrain_dims)
    as [H1 H2]; [lia|lia|].
  split; [exact H1|]. apply H2. reflexivity.
Defined.


(* ===================================================================== *)
(** * The permutation cache of PerlinNoise *)
(* ===================================================================== *)

Section Cache.

Import Noise.
Local Open Scope f32_scope.

Variable std_shuffle : Z -> list Z -> list Z.

(** What the C++ library promises of [std::shuffle]: it permutes. *)
Hypothesis shuffle_permutes : forall seed l, std_shuffle seed l ≡ₚ l.

Lemma permutation_length : length permutation = 256%nat.
Proof. reflexivity. Qed.

Lemma shuffled_length seed : length (std_shuffle seed permutation) = 256%nat.
Proof. by rewrite shuffle_permutes. Qed.

(** The copying loop writes the 256 values twice in a row. *)
Lemma fill_table_dup (base p : list Z) :
  length base = 256%nat -> length p = 512%nat -> fill_table base p = base ++ base.
Proof.
  intros Hb Hp. unfold fill_table.
  assert (length (for_ 256 (fun i p => <[(256 + i)%nat := base !!! i]> (<[i := base !!! i]> p)) p) = 512%nat
          /\ forall j, (j < 256)%nat ->
               for_ 256 (fun i p => <[(256 + i)%nat := base !!! i]> (<[i := base !!! i]> p)) p !! j
                 = Some (base !!! j)
               /\ for_ 256 (fun i p => <[(256 + i)%nat := base !!! i]> (<[i := base !!! i]> p)) p
                    !! (256 + j)%nat = Some (base !!! j)) as [Hlen Hget].
  { apply (for_ind (fun k q => length q = 512%nat /\ forall j, (j < k)%nat ->
             q !! j = Some (base !!! j) /\ q !! (256 + j)%nat = Some (base !!! j))).
    - split; [done|]. intros; lia.
    - intros k q Hk [Hlen Hget]. split; [by rewrite !length_insert|].
      intros j Hj. destruct (decide (j = k)) as [->|N].
      + split.
        * rewrite list_lookup_insert_ne by lia.
          apply list_lookup_insert_eq. lia.
        * apply list_lookup_insert_eq. rewrite length_insert. lia.
      + destruct (Hget j) as [H1 H2]; [lia|].
        by rewrite !list_lookup_insert_ne by lia. }
  apply list_eq. intros j.
  destruct (decide (j < 256)%nat) as [Hj|Hj].
  - destruct (Hget j Hj) as [-> _].
    rewrite lookup_app_l by lia. symmetry. apply list_lookup_lookup_total_lt. lia.
  - destruct (decide (j < 512)%nat) as [Hj'|Hj'].
    + destruct (Hget (j - 256)%nat) as [_ H2]; [lia|].
      replace (256 + (j - 256))%nat with j in H2 by lia. rewrite H2.
      rewrite lookup_app_r by lia. rewrite Hb. symmetry.
      apply list_lookup_lookup_total_lt. lia.
    + rewrite !lookup_ge_None_2; [done| |]; [rewrite length_app|]; lia.
Qed.

Lemma reachable_length st : reachable std_shuffle st -> length (p st) = 512%nat.
Proof.
  induction 1 as [|x y seed st _ IH]; [done|].
  cbn [snd PerlinNoise]. unfold reseed. destruct (seed =? lastSeed st)%Z; [done|].
  cbn [p]. rewrite fill_table_dup by (done || apply shuffled_length).
  rewrite length_app, !shuffled_length. done.
Qed.

(** A reachable state is the initial one or a coherent one. *)
Lemma reachable_coherent st :
  reachable std_shuffle st -> st = initial \/ coherent std_shuffle st.
Proof.
  induction 1 as [|x y seed st Hr IH]; [by left|].
  cbn [snd PerlinNoise]. unfold reseed.
  destruct (seed =? lastSeed st)%Z eqn:E; [done|].
  right. unfold coherent. cbn [p lastSeed].
  apply fill_table_dup; [apply shuffled_length|by apply reachable_length].
Qed.

(** Any seed but the sentinel [-1] gets its own table, whatever was called
    before: on those seeds the noise is a function of [(x, y, seed)], and
    the cached version agrees with the one that shuffles on every call. *)
Lemma PerlinNoise_pure st x y seed :
  reachable std_shuffle st -> seed <> (-1)%Z ->
  fst (PerlinNoise std_shuffle x y seed st)
    = noise_at (seeded_table std_shuffle seed) x y
  /\ fst (PerlinNoise std_shuffle x y seed st)
    = PerlinNoise_monolithic std_shuffle x y seed.
Proof.
  intros Hr Hs.
  assert (p (reseed std_shuffle seed st) = seeded_table std_shuffle seed) as Hp.
  { unfold reseed. destruct (seed =? lastSeed st)%Z eqn:E.
    - apply Z.eqb_eq in E. destruct (reachable_coherent st Hr) as [->|Hc].
      + by cbn in E.
      + by rewrite Hc, E.
    - cbn [p]. apply fill_table_dup; [apply shuffled_length|by apply reachable_length]. }
  unfold PerlinNoise, PerlinNoise_monolithic. cbn [fst]. rewrite Hp.
  split; [done|]. by rewrite fill_table_dup by (done || apply shuffled_length).
Qed.

(** A table of 512 zeros is the table of no seed. *)
Lemma zeros_not_seeded seed : replicate 512 0%Z <> seeded_table std_shuffle seed.
Proof.
  intros H.
  assert (151 ∈ seeded_table std_shuffle seed) as Hin.
  { unfold seeded_table. apply elem_of_app. left. rewrite shuffle_permutes.
    unfold permutation. set_solver. }
  rewrite <- H in Hin. apply elem_of_replicate in Hin. lia.
Qed.

(** C3, on the code: [lastSeed] starts at [-1], so a first call with the seed
    [-1] skips the shuffle and reads the 512 zeros [p] starts with, while the
    same call made after a call with any other seed reads the shuffled table
    of [-1].  The two calls have the same arguments and not the same table. *)
Theorem C3_sentinel_seed_reads_stale_table (x y : f32) (seed : Z) :
  seed <> (-1)%Z ->
  let later := snd (PerlinNoise std_shuffle x y seed initial) in
  PerlinNoise std_shuffle x y (-1) initial = (noise_at (replicate 512 0%Z) x y, initial) /\
  fst (PerlinNoise std_shuffle x y (-1) later)
    = noise_at (seeded_table std_shuffle (-1)) x y /\
  p (snd (PerlinNoise std_shuffle x y (-1) later)) = seeded_table std_shuffle (-1) /\
  replicate 512 0%Z <> seeded_table std_shuffle (-1) /\
  PerlinNoise_monolithic std_shuffle x y (-1) = noise_at (seeded_table std_shuffle (-1)) x y.
Proof.
  intros Hs later.
  assert (lastSeed later = seed /\ length (p later) = 512%nat) as [Hl Hlen].
  { split; [|apply reachable_length; apply reachable_call, reachable_initial].
    subst later. cbn [snd PerlinNoise]. unfold reseed.
    destruct (seed =? lastSeed initial)%Z eqn:E; [|done].
    apply Z.eqb_eq in E. by cbn in E. }
  assert (p (reseed std_shuffle (-1) later) = seeded_table std_shuffle (-1)) as Hp.
  { unfold reseed. rewrite Hl. destruct (-1 =? seed)%Z eqn:E; [apply Z.eqb_eq in E; lia|].
    cbn [p]. apply fill_table_dup; [apply shuffled_length|done]. }
  split; [done|]. split; [by unfold PerlinNoise; cbn [fst]; rewrite Hp|].
  split; [done|]. split; [apply zeros_not_seeded|].
  unfold PerlinNoise_monolithic. by rewrite fill_table_dup by (done || apply shuffled_length).
Qed.

End Cache.

Lemma sample_shuffle_permutes seed l : sample_shuffle seed l ≡ₚ l.
Proof. reflexivity. Qed.

Lemma C3_sentinel_seed_reads_stale_table_witness :
  let x := F32.lit 1 4 in
  let y := F32.lit 1 4 in
  let later := snd (Noise.PerlinNoise sample_shuffle x y 1 Noise.initial) in
  Noise.PerlinNoise sample_shuffle x y (-1) Noise.initial
    = (Noise.noise_at (replicate 512 0%Z) x y, Noise.initial) /\
  fst (Noise.PerlinNoise sample_shuffle x y (-1) later)
    = Noise.noise_at (Noise.seeded_table sample_shuffle (-1)) x y /\
  Noise.p (snd (Noise.PerlinNoise sample_shuffle x y (-1) later))
    = Noise.seeded_table sample_shuffle (-1) /\
  replicate 512 0%Z <> Noise.seeded_table sample_shuffle (-1) /\
  Noise.PerlinNoise_monolithic sample_shuffle x y (-1)
    = Noise.noise_at (Noise.seeded_table sample_shuffle (-1)) x y.
Proof.
  intros x y.
  apply (C3_sentinel_seed_reads_stale_table sample_shuffle sample_shuffle_permutes x y 1).
  lia.
Defined.

(** With the stand-in shuffle the two calls also return two values:
    [0.29296875] on the zeros, [0.06884765625] on the table of the seed. *)
Lemma sentinel_seed_two_values :
  let x := F32.lit 1 4 in
  let y := F32.lit 1 4 in
  let later := snd (Noise.PerlinNoise sample_shuffle x y 1 Noise.initial) in
  fst (Noise.PerlinNoise sample_shuffle x y (-1) Noise.initial) = F32.lit 75 256 /\
  fst (Noise.PerlinNoise sample_shuffle x y (-1) later) = F32.lit 141 2048.
Proof. split; vm_compute; reflexivity. Qed.

(* ===================================================================== *)
(** * Layered noise *)
(* ===================================================================== *)

Section Layering.

Import Noise.
Local Open Scope f32_scope.

Variable std_shuffle : Z -> list Z -> list Z.

Lemma octaves_loop_none x y octaves persistence scale seed st :
  (octaves <= 0)%Z ->
  octaves_loop std_shuffle x y octaves persistence scale seed st
  = ({| amplitude := F32.lit 1 1; frequency := scale;
        total := F32.lit 0 1; maxValue := F32.lit 0 1 |}, st).
Proof. intros H. unfold octaves_loop. by rewrite seqZ_nil. Qed.

(** A value above zero is not a zero: the quotient of the last line is
    never taken by a zero. *)
Lemma gt_zero_not_zero (m : f32) :
  F32.gt m (F32.of_int 0) = true ->
  F32.is_nan m = false /\ forall s, m <> S754_zero s.
Proof.
  intros H. split; [by destruct m|]. intros s ->. by destruct s.
Qed.

(** C6: [LayeredNoise] returns [total / maxValue] when [maxValue > 0] and [0]
    otherwise; the quotient is only taken by a [maxValue] that is not zero;
    and with [octaves <= 0] the loop does not run, [maxValue] stays [0], no
    noise is sampled and the result is exactly [0]. *)
Theorem C6_LayeredNoise_guard (x y : f32) (octaves : Z) (persistence scale : f32)
    (seed : Z) (st : NoiseState) :
  let l := fst (octaves_loop std_shuffle x y octaves persistence scale seed st) in
  fst (LayeredNoise std_shuffle x y octaves persistence scale seed st)
    = (if F32.gt (maxValue l) (F32.of_int 0) then total l / maxValue l else F32.of_int 0) /\
  (F32.gt (maxValue l) (F32.of_int 0) = true ->
     F32.is_nan (maxValue l) = false /\ forall s, maxValue l <> S754_zero s) /\
  ((octaves <= 0)%Z ->
     maxValue l = F32.zero /\
     LayeredNoise std_shuffle x y octaves persistence scale seed st = (F32.zero, st)).
Proof.
  intros l. split; [|split].
  - subst l. unfold LayeredNoise. by destruct (octaves_loop _ _ _ _ _ _ _ _).
  - apply gt_zero_not_zero.
  - intros H. subst l. unfold LayeredNoise. by rewrite octaves_loop_none.
Qed.

(** The unguarded copy of the monolithic file divides zero by zero there. *)
Lemma LayeredNoise_monolithic_no_octave x y octaves persistence scale seed :
  (octaves <= 0)%Z ->
  LayeredNoise_monolithic std_shuffle x y octaves persistence scale seed = S754_nan.
Proof. intros H. unfold LayeredNoise_monolithic. by rewrite seqZ_nil. Qed.

End Layering.

Lemma C6_LayeredNoise_guard_witness :
  Noise.LayeredNoise sample_shuffle (F32.lit 1 4) (F32.lit 3 4) 0 (F32.lit 1 2)
    (F32.lit 2 1) 7 Noise.initial = (F32.zero, Noise.initial) /\
  Noise.LayeredNoise sample_shuffle (F32.lit 1 4) (F32.lit 3 4) (-3) (F32.lit 1 2)
    (F32.lit 2 1) 7 Noise.initial = (F32.zero, Noise.initial) /\
  fst (Noise.LayeredNoise sample_shuffle (F32.lit 1 4) (F32.lit 3 4) 2 (F32.lit 1 2)
    (F32.lit 2 1) 7 Noise.initial) = S754_finite false 11184811 (-26).
Proof.
  split; [|split].
  - apply (C6_LayeredNoise_guard sample_shuffle (F32.lit 1 4) (F32.lit 3 4) 0). lia.
  - apply (C6_LayeredNoise_guard sample_shuffle (F32.lit 1 4) (F32.lit 3 4) (-3)). lia.
  - vm_compute. reflexivity.
Defined.

(* ===================================================================== *)
(** * Pass 3: smoothing *)
(* ===================================================================== *)

Section Smoothing.

Import World.
Local Open Scope f32_scope.

Lemma for_incl_near {S} (n i : nat) (body : Z -> S -> S) (s : S) :
  (i < n)%nat ->
  for_incl (Z.max 0 (Z.of_nat i - 1)) (Z.min (Z.of_nat n - 1) (Z.of_nat i + 1)) body s
  = foldl (fun s j => body j s) s (near n i).
Proof.
  intros Hi. unfold for_incl. f_equal. unfold near. cbn [List.filter].
  destruct (Z.leb_spec 0 (Z.of_nat i - 1)), (Z.ltb_spec (Z.of_nat i - 1) (Z.of_nat n)),
    (Z.leb_spec 0 (Z.of_nat i)), (Z.ltb_spec (Z.of_nat i) (Z.of_nat n)),
    (Z.leb_spec 0 (Z.of_nat i + 1)), (Z.ltb_spec (Z.of_nat i + 1) (Z.of_nat n));
    try lia; cbn [andb].
  - replace (Z.max _ _) with (Z.of_nat i - 1)%Z by lia.
    replace (Z.min _ _) with (Z.of_nat i + 1)%Z by lia.
    replace (Z.of_nat i + 1 - (Z.of_nat i - 1) + 1)%Z with 3%Z by lia.
    rewrite seqZ_cons by lia. rewrite seqZ_cons by lia. rewrite seqZ_cons by lia.
    rewrite seqZ_nil by lia.
    repeat f_equal; lia.
  - replace (Z.max _ _) with (Z.of_nat i - 1)%Z by lia.
    replace (Z.min _ _) with (Z.of_nat i) by lia.
    replace (Z.of_nat i - (Z.of_nat i - 1) + 1)%Z with 2%Z by lia.
    rewrite seqZ_cons by lia. rewrite seqZ_cons by lia. rewrite seqZ_nil by lia.
    repeat f_equal; lia.
  - replace (Z.max _ _) with (Z.of_nat i) by lia.
    replace (Z.min _ _) with (Z.of_nat i + 1)%Z by lia.
    replace (Z.of_nat i + 1 - Z.of_nat i + 1)%Z with 2%Z by lia.
    rewrite seqZ_cons by lia. rewrite seqZ_cons by lia. rewrite seqZ_nil by lia.
    repeat f_equal; lia.
  - replace (Z.max _ _) with (Z.of_nat i) by lia.
    replace (Z.min _ _) with (Z.of_nat i) by lia.
    replace (Z.of_nat i - Z.of_nat i + 1)%Z with 1%Z by lia.
    rewrite seqZ_cons by lia. rewrite seqZ_nil by lia.
    repeat f_equal; lia.
Qed.

(** Fewer than three indices only at an end of the dimension. *)
Lemma near_length (n i : nat) :
  (i < n)%nat -> (2 <= n)%nat ->
  length (near n i) = if decide (i = 0 \/ i + 1 = n)%nat then 2%nat else 3%nat.
Proof.
  intros Hi Hn. unfold near. cbn [List.filter].
  destruct (Z.leb_spec 0 (Z.of_nat i - 1)), (Z.ltb_spec (Z.of_nat i - 1) (Z.of_nat n)),
    (Z.leb_spec 0 (Z.of_nat i)), (Z.ltb_spec (Z.of_nat i) (Z.of_nat n)),
    (Z.leb_spec 0 (Z.of_nat i + 1)), (Z.ltb_spec (Z.of_nat i + 1) (Z.of_nat n));
    try lia; cbn; case_decide; lia.
Qed.

Lemma neighbourhood_length (h w y x : nat) :
  length (neighbourhood h w y x) = (length (near h y) * length (near w x))%nat.
Proof.
  unfold neighbourhood. induction (near h y) as [|ny l IH]; [done|].
  cbn [flat_map]. rewrite length_app, length_map, IH. cbn. lia.
Qed.

Lemma kernel_row (terrainData : grid TerrainData) (ny : Z) (cols : list Z) t c :
  foldl (fun s nx =>
           (fun '(total, count) =>
              (total + elevation (grid_get terrainData (Z.to_nat ny) (Z.to_nat nx)),
               (count + 1)%Z)) s) (t, c) cols
  = (foldl (fun t c => t + elevation (grid_get terrainData (Z.to_nat c.1) (Z.to_nat c.2)))
           t (map (fun nx => (ny, nx)) cols),
     (c + Z.of_nat (length cols))%Z).
Proof.
  revert t c. induction cols as [|nx cols IH]; intros t c.
  - cbn. f_equal. lia.
  - cbn [foldl map length]. rewrite IH. cbn [fst snd]. f_equal. lia.
Qed.

(** The two inner loops add up the neighbourhood, in row-major order. *)
Lemma kernel_neighbourhood (h w : nat) (terrainData : grid TerrainData) (y x : nat) :
  (y < h)%nat -> (x < w)%nat ->
  kernel h w terrainData y x
  = (elevation_sum terrainData (neighbourhood h w y x),
     Z.of_nat (length (neighbourhood h w y x))).
Proof.
  intros Hy Hx. unfold kernel. rewrite for_incl_near by done.
  unfold elevation_sum, neighbourhood.
  assert (forall rows t c,
    foldl (fun s j =>
             for_incl (Z.max 0 (Z.of_nat x - 1)) (Z.min (Z.of_nat w - 1) (Z.of_nat x + 1))
               (fun nx '(total, count) =>
                  (total + elevation (grid_get terrainData (Z.to_nat j) (Z.to_nat nx)),
                   (count + 1)%Z)) s) (t, c) rows
    = (foldl (fun t c => t + elevation (grid_get terrainData (Z.to_nat c.1) (Z.to_nat c.2)))
             t (flat_map (fun ny => map (fun nx => (ny, nx)) (near w x)) rows),
       (c + Z.of_nat (length (flat_map (fun ny => map (fun nx => (ny, nx)) (near w x)) rows)))%Z))
    as H.
  { induction rows as [|ny rows IH]; intros t c.
    - cbn. f_equal. lia.
    - cbn [foldl flat_map]. rewrite for_incl_near by done.
      rewrite (kernel_row terrainData ny (near w x) t c). rewrite IH.
      rewrite foldl_app, length_app, length_map. f_equal. lia. }
  rewrite H. f_equal.
Qed.

(** The cell [(y, x)] after pass 3, from the grid before it. *)
Lemma pass3_elevation (h w : nat) (terrainData : grid TerrainData) (y x : nat) :
  grid_dims h w terrainData -> (y < h)%nat -> (x < w)%nat ->
  elevation (grid_get (pass3 h w terrainData) y x)
  = let own := elevation (grid_get terrainData y x) in
    if own <=? WATER_LEVEL then own
    else elevation_mean terrainData (neighbourhood h w y x) * F32.lit 7 10
         + own * F32.lit 3 10.
Proof.
  intros Hd Hy Hx. rewrite (pass3_cell h w) by done.
  cbn [elevation set_elevation]. unfold smoothed_value.
  by rewrite kernel_neighbourhood.
Qed.

(** C7: pass 3 is double-buffered.  Every new elevation is computed from the
    grid as it was before the pass: a cell whose elevation was at most
    [WATER_LEVEL] keeps it, and any other cell gets 0.7 times the mean of its
    3x3 neighbourhood clamped to the grid plus 0.3 times its own elevation,
    the mean being taken over 9 cells inside the grid, 6 on an edge and 4 in
    a corner, all read before the pass. *)
Theorem C7_pass3_smoothing (h w : nat) (terrainData : grid TerrainData) (y x : nat) :
  grid_dims h w terrainData -> (y < h)%nat -> (x < w)%nat ->
  let own := elevation (grid_get terrainData y x) in
  let cells := neighbourhood h w y x in
  let after := elevation (grid_get (pass3 h w terrainData) y x) in
  (F32.le own WATER_LEVEL = true -> after = own) /\
  (F32.le own WATER_LEVEL = false ->
     after = elevation_mean terrainData cells * F32.lit 7 10 + own * F32.lit 3 10) /\
  ((2 <= h)%nat -> (2 <= w)%nat ->
     length cells =
       ((if decide (y = 0 \/ y + 1 = h) then 2 else 3)
        * (if decide (x = 0 \/ x + 1 = w) then 2 else 3))%nat) /\
  (forall c, c ∈ cells <->
     (Z.abs (c.1 - Z.of_nat y) <= 1 /\ Z.abs (c.2 - Z.of_nat x) <= 1 /\
      0 <= c.1 < Z.of_nat h /\ 0 <= c.2 < Z.of_nat w)%Z).
Proof.
  intros Hd Hy Hx own cells after.
  assert (after = if own <=? WATER_LEVEL then own
                  else elevation_mean terrainData cells * F32.lit 7 10
                       + own * F32.lit 3 10) as Hafter
    by (by apply pass3_elevation).
  split; [by intros H; rewrite Hafter, H|].
  split; [by intros H; rewrite Hafter, H|].
  split.
  - intros Hh Hw. subst cells. rewrite neighbourhood_length.
    by rewrite !near_length by done.
  - intros [ny nx]. subst cells. unfold neighbourhood.
    rewrite list_elem_of_In, in_flat_map. cbn [fst snd]. split.
    + intros (ny' & Hny & Hin). apply in_map_iff in Hin as (nx' & E & Hnx).
      injection E as -> ->.
      unfold near in Hny, Hnx. apply filter_In in Hny as [Hy1 Hy2], Hnx as [Hx1 Hx2].
      cbn [In] in Hy1, Hx1. lia.
    + intros (H1 & H2 & H3 & H4). exists ny. split.
      * unfold near. apply filter_In. split; [cbn [In]; lia|lia].
      * apply in_map_iff. exists nx. split; [done|].
        unfold near. apply filter_In. split; [cbn [In]; lia|lia].
Qed.

End Smoothing.

Lemma sample_terrain3_dims : grid_dims 3 3 sample_terrain3.
Proof. split; [reflexivity|]. repeat constructor. Qed.

Lemma C7_pass3_smoothing_witness :
  World.elevation (grid_get (World.pass3 3 3 sample_terrain3) 1 1)
    = (elevation_mean sample_terrain3 (neighbourhood 3 3 1 1) * F32.lit 7 10
       + F32.lit 50 1 * F32.lit 3 10)%f32 /\
  length (neighbourhood 3 3 1 1) = 9%nat /\
  length (neighbourhood 3 3 0 1) = 6%nat /\
  length (neighbourhood 3 3 2 2) = 4%nat /\
  World.elevation (grid_get (World.pass3 3 3 sample_terrain3) 2 1) = F32.lit 10 1.
Proof.
  destruct (C7_pass3_smoothing 3 3 sample_terrain3 1 1 sample_terrain3_dims)
    as (_ & H1 & H2 & _); [lia|lia|].
  destruct (C7_pass3_smoothing 3 3 sample_terrain3 0 1 sample_terrain3_dims)
    as (_ & _ & H3 & _); [lia|lia|].
  destruct (C7_pass3_smoothing 3 3 sample_terrain3 2 2 sample_terrain3_dims)
    as (_ & _ & H4 & _); [lia|lia|].
  destruct (C7_pass3_smoothing 3 3 sample_terrain3 2 1 sample_terrain3_dims)
    as (H5 & _); [lia|lia|].
  split; [apply H1; reflexivity|].
  split; [apply H2; lia|].
  split; [apply H3; lia|].
  split; [apply H4; lia|].
  apply H5. reflexivity.
Defined.

(* ===================================================================== *)
(** * Pass 4 and the whole generation *)
(* ===================================================================== *)

Section Finalization.

Import World.
Local Open Scope f32_scope.

Variable std_shuffle : Z -> list Z -> list Z.
Variable std_pow : f32 -> f32 -> f32.
Variable variation : nat -> nat -> nat -> Z.

(** [biomeProps.at] never throws: the map has all eight keys. *)
Lemma biome_props_lookup (k : BiomeType) :
  CreateBiomeProperties !! k = Some (biome_props k).
Proof. by destruct k. Qed.

Lemma finalize_finalized h w y x (terrainData : grid TerrainData) (world : grid Tile) :
  finalize variation h w CreateBiomeProperties y x (terrainData, world)
  = Some (grid_set terrainData y x (finalized variation h w y x (grid_get terrainData y x)).1,
          grid_set world y x (finalized variation h w y x (grid_get terrainData y x)).2).
Proof.
  unfold finalize. cbn [biome set_biome elevation moisture].
  rewrite biome_props_lookup. reflexivity.
Qed.

Lemma pass4_cells h w (terrainData : grid TerrainData) (world : grid Tile) :
  grid_dims h w terrainData -> grid_dims h w world ->
  exists terrainData' world',
    pass4 variation h w CreateBiomeProperties (terrainData, world)
      = Some (terrainData', world') /\
    grid_dims h w terrainData' /\ grid_dims h w world' /\
    forall y x, (y < h)%nat -> (x < w)%nat ->
      grid_get terrainData' y x
        = (finalized variation h w y x (grid_get terrainData y x)).1 /\
      grid_get world' y x
        = (finalized variation h w y x (grid_get terrainData y x)).2.
Proof.
  intros Hd1 Hd2.
  pose (ok := fun s : option (grid TerrainData * grid Tile) =>
          exists t wo, s = Some (t, wo) /\ grid_dims h w t /\ grid_dims h w wo).
  pose (view := fun (s : option (grid TerrainData * grid Tile)) (y x : nat) =>
          (fun '(t, wo) => (grid_get t y x, grid_get wo y x)) <$> s).
  pose (F := fun (y x : nat) (c : option (TerrainData * Tile)) =>
          (fun '(d, _) => finalized variation h w y x d) <$> c).
  destruct (for_cells_view h w ok view
              (fun y x o => o ≫= finalize variation h w CreateBiomeProperties y x) F)
    with (s := Some (terrainData, world)) as [Hok Hview].
  - intros y x s Hy Hx (t & wo & -> & H1 & H2). cbn [mbind option_bind].
    rewrite finalize_finalized. eexists _, _. split; [done|].
    split; by apply grid_dims_set.
  - intros y x s Hy Hx (t & wo & -> & H1 & H2). cbn [mbind option_bind].
    rewrite finalize_finalized. unfold view, F. cbn [fmap option_fmap option_map].
    rewrite !(grid_get_set_eq h w) by done.
    by destruct (finalized variation h w y x (grid_get t y x)).
  - intros y x y' x' s Hy Hx (t & wo & -> & H1 & H2) N. cbn [mbind option_bind].
    rewrite finalize_finalized. unfold view. cbn [fmap option_fmap option_map].
    by rewrite !grid_get_set_ne by done.
  - by exists terrainData, world.
  - destruct Hok as (t & wo & E & H1 & H2). exists t, wo.
    split; [exact E|]. split; [done|]. split; [done|].
    intros y x Hy Hx. specialize (Hview y x Hy Hx).
    unfold pass4 in E. rewrite E in Hview. unfold view, F in Hview.
    cbn [fmap option_fmap option_map] in Hview.
    destruct (finalized variation h w y x (grid_get terrainData y x)) as [d ti].
    by injection Hview as -> ->.
Qed.

(** Pass 1 keeps the size of the grid it fills. *)
Lemma pass1_dims h w (terrainData : grid TerrainData) st :
  grid_dims h w terrainData ->
  grid_dims h w (pass1 std_shuffle std_pow h w (terrainData, st)).1.
Proof.
  intros Hd.
  apply (for_cells_view h w
           (fun s : grid TerrainData * Noise.NoiseState => grid_dims h w s.1)
           (fun _ _ _ => tt) _ (fun _ _ c => c)).
  - intros y x [t n] Hy Hx H. cbv beta iota.
    destruct (raw_cell std_shuffle std_pow h w y x n) as [cell n'].
    cbn [fst] in *. by apply grid_dims_set.
  - done.
  - done.
  - done.
Qed.

Lemma raw_terrain_dims h w st : grid_dims h w (raw_terrain std_shuffle std_pow h w st).
Proof. apply pass1_dims, grid_dims_make. Qed.

(** Passes 2 to 4 never fail, and every tile is the finalised terrain cell
    of its place. *)
Lemma finish_world_tiles h w (raw : grid TerrainData) :
  grid_dims h w raw ->
  exists world,
    finish_world variation h w raw = Some world /\
    grid_dims h w world /\
    forall y x, (y < h)%nat -> (x < w)%nat ->
      grid_get world y x
      = (finalized variation h w y x (grid_get (pass3 h w (pass2 h w raw)) y x)).2.
Proof.
  intros Hd.
  destruct (pass4_cells h w (pass3 h w (pass2 h w raw)) (make_grid h w Tile_zero))
    as (t & wo & E & _ & Hdw & Hc);
    [by apply pass3_dims, pass2_dims|apply grid_dims_make|].
  exists wo. unfold finish_world. rewrite E. split; [done|]. split; [done|].
  intros y x Hy Hx. by destruct (Hc y x Hy Hx).
Qed.

Lemma GenerateWorld_sized_tiles h w st :
  exists world,
    GenerateWorld_sized std_shuffle std_pow variation h w st = Some world /\
    grid_dims h w world /\
    forall y x, (y < h)%nat -> (x < w)%nat ->
      grid_get world y x
      = (finalized variation h w y x
           (grid_get (pass3 h w (pass2 h w (raw_terrain std_shuffle std_pow h w st))) y x)).2.
Proof. apply finish_world_tiles, raw_terrain_dims. Qed.

End Finalization.

Section Generation.

Import World.
Local Open Scope f32_scope.

Variable std_shuffle : Z -> list Z -> list Z.
Variable std_pow : f32 -> f32 -> f32.
Variable variation : nat -> nat -> nat -> Z.

(** C2, as amended: the entry point takes no width, height or seed (the size
    is the pair of constants [WORLD_HEIGHT] and [WORLD_WIDTH], both 128, and
    the seeds are literals of pass 1) and it has no dimension check and no
    error result: whatever state the noise cache is in, it returns a grid of
    128 rows of 128 tiles, the tile of row [y] and column [x] carrying [x]
    and [y]; and its body returns a full [h] by [w] grid for every size, the
    empty ones included. *)
Theorem C2_GenerateWorld_full_grid (st : Noise.NoiseState) :
  (exists world,
     GenerateWorld std_shuffle std_pow variation st = Some world /\
     grid_dims 128 128 world /\
     forall y x, (y < 128)%nat -> (x < 128)%nat ->
       tile_x (grid_get world y x) = Z.of_nat x /\
       tile_y (grid_get world y x) = Z.of_nat y) /\
  (forall h w, exists world,
     GenerateWorld_sized std_shuffle std_pow variation h w st = Some world /\
     grid_dims h w world /\
     forall y x, (y < h)%nat -> (x < w)%nat ->
       tile_x (grid_get world y x) = Z.of_nat x /\
       tile_y (grid_get world y x) = Z.of_nat y).
Proof.
  assert (forall h w, exists world,
     GenerateWorld_sized std_shuffle std_pow variation h w st = Some world /\
     grid_dims h w world /\
     forall y x, (y < h)%nat -> (x < w)%nat ->
       tile_x (grid_get world y x) = Z.of_nat x /\
       tile_y (grid_get world y x) = Z.of_nat y) as H.
  { intros h w.
    destruct (GenerateWorld_sized_tiles std_shuffle std_pow variation h w st)
      as (world & E & Hd & Hc).
    exists world. split; [done|]. split; [done|].
    intros y x Hy Hx. by rewrite Hc. }
  split; [apply (H 128%nat 128%nat)|apply H].
Qed.

Lemma clamp_range v : (0 <= clamp v 0 255 <= 255)%Z.
Proof.
  unfold clamp. destruct (Z.ltb_spec v 0); [lia|].
  destruct (Z.ltb_spec 255 v); lia.
Qed.

Lemma to_Uint8_clamp v : to_Uint8 (clamp v 0 255) = clamp v 0 255.
Proof. unfold to_Uint8. apply Z.mod_small. pose proof (clamp_range v). lia. Qed.

(** The four colour rules of pass 4, in the order the code tries them. *)
Lemma tile_colour_rules h w y x props :
  tile_colour variation h w y x props =
  if on_stripe y x then rgba 255 0 0 255
  else if on_border h w y x then rgba 255 255 0 255
  else if on_centre_line h w y x then rgba 0 0 255 255
  else jittered (baseColor props) (variation y x 0) (variation y x 1) (variation y x 2).
Proof.
  unfold tile_colour, on_stripe, on_border, on_centre_line, jittered.
  by rewrite !to_Uint8_clamp.
Qed.

Hypothesis variation_range : forall y x k, (-5 <= variation y x k <= 5)%Z.

(** C5, as amended: pass 4 gives a tile the base colour of its biome plus a
    jitter of -5 to 5 on each channel, clamped to 0..255 and opaque, only
    off the debug pattern.  A cell with [(x + y) % 10 == 0] is red
    [(255, 0, 0, 255)]; any other cell of the first or last row or column is
    yellow [(255, 255, 0, 255)]; any other cell of the column [WORLD_WIDTH/2]
    or the row [WORLD_HEIGHT/2] is blue [(0, 0, 255, 255)]. *)
Theorem C5_pass4_colours (st : Noise.NoiseState) :
  exists world,
    GenerateWorld std_shuffle std_pow variation st = Some world /\
    forall y x, (y < WORLD_HEIGHT)%nat -> (x < WORLD_WIDTH)%nat ->
      let data :=
        grid_get (pass3 WORLD_HEIGHT WORLD_WIDTH
                    (pass2 WORLD_HEIGHT WORLD_WIDTH
                       (raw_terrain std_shuffle std_pow WORLD_HEIGHT WORLD_WIDTH st))) y x in
      let base := baseColor (biome_props (DetermineBiome (elevation data) (moisture data))) in
      let c := tile_color (grid_get world y x) in
      (on_stripe y x = true -> c = rgba 255 0 0 255) /\
      (on_stripe y x = false -> on_border WORLD_HEIGHT WORLD_WIDTH y x = true ->
         c = rgba 255 255 0 255) /\
      (on_stripe y x = false -> on_border WORLD_HEIGHT WORLD_WIDTH y x = false ->
       on_centre_line WORLD_HEIGHT WORLD_WIDTH y x = true -> c = rgba 0 0 255 255) /\
      (on_stripe y x = false -> on_border WORLD_HEIGHT WORLD_WIDTH y x = false ->
       on_centre_line WORLD_HEIGHT WORLD_WIDTH y x = false ->
         exists jr jg jb,
           (-5 <= jr <= 5)%Z /\ (-5 <= jg <= 5)%Z /\ (-5 <= jb <= 5)%Z /\
           c = jittered base jr jg jb /\
           (0 <= r c <= 255)%Z /\ (0 <= g c <= 255)%Z /\ (0 <= b c <= 255)%Z /\
           a c = 255%Z).
Proof.
  destruct (GenerateWorld_sized_tiles std_shuffle std_pow variation
              WORLD_HEIGHT WORLD_WIDTH st) as (world & E & Hd & Hc).
  exists world. split; [exact E|]. intros y x Hy Hx data base c.
  assert (c = tile_colour variation WORLD_HEIGHT WORLD_WIDTH y x
                (biome_props (DetermineBiome (elevation data) (moisture data)))) as Hcol.
  { subst c. by rewrite Hc. }
  rewrite tile_colour_rules in Hcol.
  split; [by intros H; rewrite H in Hcol|].
  split; [by intros H1 H2; rewrite H1, H2 in Hcol|].
  split; [by intros H1 H2 H3; rewrite H1, H2, H3 in Hcol|].
  intros H1 H2 H3. rewrite H1, H2, H3 in Hcol.
  exists (variation y x 0), (variation y x 1), (variation y x 2).
  do 3 (split; [apply variation_range|]). split; [exact Hcol|].
  rewrite Hcol. unfold jittered. cbn [r g b a rgba].
  do 3 (split; [apply clamp_range|]). reflexivity.
Qed.

End Generation.

(** C2, the claim as stated, fails: with a height or a width of zero the
    body of [GenerateWorld] returns a grid (with no tile) and not an error. *)
Lemma C2_counterexample :
  World.GenerateWorld_sized sample_shuffle sample_pow sample_variation 0 0 Noise.initial
    = Some [] /\
  World.GenerateWorld_sized sample_shuffle sample_pow sample_variation 0 7 Noise.initial
    = Some [] /\
  World.GenerateWorld_sized sample_shuffle sample_pow sample_variation 3 0 Noise.initial
    = Some [[]; []; []].
Proof. repeat split; vm_compute; reflexivity. Qed.

(** C5, the claim as stated, fails: the tile of the cell [(0, 0)] is red
    whatever its biome is (here a mountain cell of base colour
    [(150, 140, 130)]), the cell [(0, 5)] is yellow and the cell [(64, 3)] is
    blue; only a cell such as [(2, 1)] gets its jittered base colour. *)
Lemma C5_counterexample :
  snd <$> World.pass4 sample_variation 1 1 World.CreateBiomeProperties
            ([[borderline]], [[World.Tile_zero]])
    = Some [[ {| World.tile_x := 0; World.tile_y := 0; World.tile_elevation := 50;
                 World.tile_color := World.rgba 255 0 0 255;
                 World.tile_walkable := false |} ]] /\
  World.baseColor (biome_props (World.DetermineBiome (F32.lit 50 1) (F32.lit 0 1)))
    = World.rgba 150 140 130 255 /\
  World.tile_colour sample_variation 128 128 0 0 (biome_props World.MOUNTAINS)
    = World.rgba 255 0 0 255 /\
  World.tile_colour sample_variation 128 128 5 0 (biome_props World.MOUNTAINS)
    = World.rgba 255 255 0 255 /\
  World.tile_colour sample_variation 128 128 3 64 (biome_props World.MOUNTAINS)
    = World.rgba 0 0 255 255 /\
  World.tile_colour sample_variation 128 128 1 2 (biome_props World.MOUNTAINS)
    = World.rgba 153 143 133 255.
Proof. repeat split; vm_compute; reflexivity. Qed.

Lemma sample_variation_range y x k : (-5 <= sample_variation y x k <= 5)%Z.
Proof. unfold sample_variation. lia. Qed.

Lemma C5_pass4_colours_witness :
  exists world,
    World.GenerateWorld sample_shuffle sample_pow sample_variation Noise.initial
      = Some world /\
    forall y x, (y < World.WORLD_HEIGHT)%nat -> (x < World.WORLD_WIDTH)%nat ->
      let data :=
        grid_get (World.pass3 World.WORLD_HEIGHT World.WORLD_WIDTH
                    (World.pass2 World.WORLD_HEIGHT World.WORLD_WIDTH
                       (World.raw_terrain sample_shuffle sample_pow
                          World.WORLD_HEIGHT World.WORLD_WIDTH Noise.initial))) y x in
      let base :=
        World.baseColor
          (biome_props (World.DetermineBiome (World.elevation data) (World.moisture data))) in
      let c := World.tile_color (grid_get world y x) in
      (on_stripe y x = true -> c = World.rgba 255 0 0 255) /\
      (on_stripe y x = false ->
       on_border World.WORLD_HEIGHT World.WORLD_WIDTH y x = true ->
         c = World.rgba 255 255 0 255) /\
      (on_stripe y x = false ->
       on_border World.WORLD_HEIGHT World.WORLD_WIDTH y x = false ->
       on_centre_line World.WORLD_HEIGHT World.WORLD_WIDTH y x = true ->
         c = World.rgba 0 0 255 255) /\
      (on_stripe y x = false ->
       on_border World.WORLD_HEIGHT World.WORLD_WIDTH y x = false ->
       on_centre_line World.WORLD_HEIGHT World.WORLD_WIDTH y x = false ->
         exists jr jg jb,
           (-5 <= jr <= 5)%Z /\ (-5 <= jg <= 5)%Z /\ (-5 <= jb <= 5)%Z /\
           c = jittered base jr jg jb /\
           (0 <= World.r c <= 255)%Z /\ (0 <= World.g c <= 255)%Z /\
           (0 <= World.b c <= 255)%Z /\ World.a c = 255%Z).
Proof.
  exact (C5_pass4_colours sample_shuffle sample_pow sample_variation
           sample_variation_range Noise.initial).
Defined.

(* ===================================================================== *)
(** * Rounding to binary32 *)
(* ===================================================================== *)

Section Rounding.

Lemma digits2_size (p : positive) : digits2_pos p = Pos.size p.
Proof. induction p; simpl; congruence. Qed.

(** A mantissa of [d] digits lies between [2^(d-1)] and [2^d]. *)
Lemma digits2_bounds (p : positive) :
  (2 ^ (Zpos (digits2_pos p) - 1) <= Zpos p < 2 ^ Zpos (digits2_pos p))%Z.
Proof.
  rewrite digits2_size. split.
  - pose proof (Pos.size_le p) as H.
    assert (Zpos (2 ^ Pos.size p) <= Zpos p~0)%Z as H' by (by apply Pos2Z.pos_le_pos).
    rewrite Pos2Z.inj_pow in H'. change (Zpos p~0) with (2 * Zpos p)%Z in H'.
    replace (Zpos (Pos.size p)) with (Zpos (Pos.size p) - 1 + 1)%Z in H' by lia.
    rewrite Z.pow_add_r in H' by lia. lia.
  - pose proof (Pos.size_gt p) as H.
    assert (Zpos p < Zpos (2 ^ Pos.size p))%Z as H' by (by apply Pos2Z.pos_lt_pos).
    by rewrite Pos2Z.inj_pow in H'.
Qed.

Lemma digits2_unique (p : positive) (d : Z) :
  (2 ^ (d - 1) <= Zpos p < 2 ^ d)%Z -> Zpos (digits2_pos p) = d.
Proof.
  intros [H1 H2]. pose proof (digits2_bounds p) as [H3 H4].
  set (d' := Zpos (digits2_pos p)) in *.
  assert (0 < d)%Z.
  { destruct (Z.le_gt_cases d 0) as [L|]; [|done].
    assert (2 ^ d <= 2 ^ 0)%Z by (apply Z.pow_le_mono_r; lia).
    change (2 ^ 0)%Z with 1%Z in *. lia. }
  destruct (Z.lt_trichotomy d' d) as [L|[E|G]]; [|done|].
  - assert (2 ^ d' <= 2 ^ (d - 1))%Z by (apply Z.pow_le_mono_r; lia). lia.
  - assert (2 ^ d <= 2 ^ (d' - 1))%Z by (apply Z.pow_le_mono_r; lia). lia.
Qed.

(** [iter_pos] runs the step as many times as its counter says. *)
Lemma iter_pos_invariant {A} (f : A -> A) (P : Z -> A -> Prop) :
  (forall k a, (0 <= k)%Z -> P k a -> P (k + 1)%Z (f a)) ->
  forall p k a, (0 <= k)%Z -> P k a -> P (k + Zpos p)%Z (SpecFloat.iter_pos f p a).
Proof.
  intros Hstep p. induction p as [p IH|p IH|]; intros k a Hk Ha; cbn [SpecFloat.iter_pos].
  - replace (k + Zpos p~1)%Z with (k + 1 + Zpos p + Zpos p)%Z by lia.
    apply IH; [lia|]. apply IH; [lia|]. by apply Hstep.
  - replace (k + Zpos p~0)%Z with (k + Zpos p + Zpos p)%Z by lia.
    apply IH; [lia|]. by apply IH.
  - by apply Hstep.
Qed.

Lemma shr_1_spec (m : Z) (r s : bool) :
  (0 <= m)%Z ->
  shr_1 {| shr_m := m; shr_r := r; shr_s := s |}
  = {| shr_m := m / 2; shr_r := Z.odd m; shr_s := r || s |}.
Proof.
  intros Hm. destruct m as [|p|p]; [done| |lia].
  destruct p as [p|p|]; cbn [shr_1].
  - f_equal. rewrite Pos2Z.inj_xI.
    apply (Z.div_unique_pos _ _ _ 1); lia.
  - f_equal. rewrite Pos2Z.inj_xO.
    apply (Z.div_unique_pos _ _ _ 0); lia.
  - done.
Qed.

(** [n] shifts to the right: the mantissa loses its [n] low bits, and the
    round bit is the last bit lost. *)
Lemma shr_spec (m : Z) (r s : bool) (e n : Z) :
  (0 <= m)%Z -> (0 < n)%Z ->
  exists mrs,
    shr {| shr_m := m; shr_r := r; shr_s := s |} e n = (mrs, (e + n)%Z) /\
    shr_m mrs = (m / 2 ^ n)%Z /\
    shr_r mrs = Z.odd (m / 2 ^ (n - 1)).
Proof.
  intros Hm Hn. destruct n as [|p|p]; [lia| |lia]. cbn [shr].
  eexists. split; [reflexivity|].
  pose (P := fun (k : Z) (mrs : shr_record) =>
          shr_m mrs = (m / 2 ^ k)%Z /\
          ((1 <= k)%Z -> shr_r mrs = Z.odd (m / 2 ^ (k - 1)))).
  assert (P (0 + Zpos p)%Z
            (SpecFloat.iter_pos shr_1 p {| shr_m := m; shr_r := r; shr_s := s |})) as [H1 H2].
  { apply (iter_pos_invariant shr_1 P); [|lia|].
    - intros k [m' r' s'] Hk [E1 E2]. cbn [shr_m shr_r] in E1, E2. subst m'.
      rewrite shr_1_spec by (apply Z.div_pos; lia). split; cbn [shr_m shr_r].
      + rewrite Z.pow_add_r by lia. rewrite Z.div_div by lia. reflexivity.
      + intros _. by replace (k + 1 - 1)%Z with k by lia.
    - split; cbn [shr_m]; [by rewrite Z.div_1_r|lia]. }
  split; [exact H1|]. apply H2. lia.
Qed.

Lemma round_nearest_even_range (q : Z) (l : location) :
  (q <= round_nearest_even q l <= q + 1)%Z.
Proof. destruct l as [|[]]; cbn; try lia. destruct (Z.even q); lia. Qed.

Lemma round_nearest_even_down (mrs : shr_record) :
  shr_r mrs = false ->
  round_nearest_even (shr_m mrs) (loc_of_shr_record mrs) = shr_m mrs.
Proof. destruct mrs as [m [] []]; cbn; congruence. Qed.

Lemma round_nearest_even_exact (q : Z) : round_nearest_even q loc_Exact = q.
Proof. reflexivity. Qed.

Lemma loc_of_shr_record_of_loc (m : Z) (l : location) :
  loc_of_shr_record (shr_record_of_loc m l) = l.
Proof. by destruct l as [|[]]. Qed.

Lemma fexp_normal (x : Z) : (-125 <= x)%Z -> fexp 24 128 x = (x - 24)%Z.
Proof. intros H. unfold fexp, emin. lia. Qed.

Lemma shr_fexp_keep (m : positive) (e : Z) (l : location) :
  Zpos (digits2_pos m) = 24%Z -> (-149 <= e)%Z ->
  shr_fexp 24 128 (Zpos m) e l = (shr_record_of_loc (Zpos m) l, e).
Proof.
  intros Hd He. unfold shr_fexp. cbn [Zdigits2]. rewrite Hd.
  rewrite fexp_normal by lia. replace (24 + e - 24 - e)%Z with 0%Z by lia. reflexivity.
Qed.

Lemma shr_fexp_shift (m : positive) (e : Z) (l : location) :
  (24 < Zpos (digits2_pos m))%Z -> (-149 <= Zpos (digits2_pos m) + e - 24)%Z ->
  exists mrs,
    shr_fexp 24 128 (Zpos m) e l = (mrs, (e + (Zpos (digits2_pos m) - 24))%Z) /\
    shr_m mrs = (Zpos m / 2 ^ (Zpos (digits2_pos m) - 24))%Z /\
    shr_r mrs = Z.odd (Zpos m / 2 ^ (Zpos (digits2_pos m) - 24 - 1)).
Proof.
  intros Hd He. unfold shr_fexp. cbn [Zdigits2].
  rewrite fexp_normal by lia.
  replace (Zpos (digits2_pos m) + e - 24 - e)%Z with (Zpos (digits2_pos m) - 24)%Z by lia.
  destruct l as [|[]]; cbn [shr_record_of_loc]; apply shr_spec; lia.
Qed.

(** Rounding a mantissa of at least 24 digits in the normal range: the
    mantissa [q] left by the shift is kept or increased by one, and it is
    only increased when the round bit (or, without a shift, the location
    found by the caller) asks for it; a carry to [2^24] moves to the next
    exponent. *)
Lemma binary_round_aux_normal (m : positive) (e : Z) (l : location) :
  let d := Zpos (digits2_pos m) in
  let n := (d - 24)%Z in
  let q := (Zpos m / 2 ^ n)%Z in
  (24 <= d)%Z -> (-149 <= d + e - 24)%Z ->
  (2 ^ 23 <= q < 2 ^ 24)%Z /\
  exists m1 : Z,
    (q <= m1 <= q + 1)%Z /\
    (m1 = (q + 1)%Z ->
       ((0 < n)%Z /\ Z.odd (Zpos m / 2 ^ (n - 1)) = true) \/ (n = 0%Z /\ l <> loc_Exact)) /\
    binary_round_aux 24 128 false (Zpos m) e l
    = if (m1 <? 2 ^ 24)%Z then pack m1 (e + n) else pack (2 ^ 23) (e + n + 1).
Proof.
  intros d n q Hd He.
  assert (2 ^ 23 <= q < 2 ^ 24)%Z as Hq.
  { pose proof (digits2_bounds m) as [B1 B2]. fold d in B1, B2. subst q n.
    replace d with (d - 24 + 24)%Z in B2 by lia.
    replace (d - 1)%Z with (d - 24 + 23)%Z in B1 by lia.
    rewrite Z.pow_add_r in B1, B2 by lia.
    assert (0 < 2 ^ (d - 24))%Z by (apply Z.pow_pos_nonneg; lia).
    split.
    - apply Z.div_le_lower_bound; lia.
    - apply Z.div_lt_upper_bound; lia. }
  split; [exact Hq|].
  assert (exists mrs,
            shr_fexp 24 128 (Zpos m) e l = (mrs, (e + n)%Z) /\
            shr_m mrs = q /\
            (round_nearest_even q (loc_of_shr_record mrs) = (q + 1)%Z ->
               ((0 < n)%Z /\ Z.odd (Zpos m / 2 ^ (n - 1)) = true)
               \/ (n = 0%Z /\ l <> loc_Exact))) as (mrs & E1 & E2 & E3).
  { destruct (decide (d = 24%Z)) as [Hd24|Hd24].
    - exists (shr_record_of_loc (Zpos m) l).
      assert (n = 0%Z) as Hn by (subst n; lia).
      rewrite shr_fexp_keep by (fold d; lia).
      split; [by rewrite Hn, Z.add_0_r|].
      assert (shr_m (shr_record_of_loc (Zpos m) l) = q) as Hm.
      { subst q. rewrite Hn. rewrite Z.div_1_r. by destruct l as [|[]]. }
      split; [exact Hm|]. rewrite loc_of_shr_record_of_loc.
      intros Hr. right. split; [done|]. intros ->. cbn in Hr. lia.
    - destruct (shr_fexp_shift m e l) as (mrs & F1 & F2 & F3); [fold d; lia..|].
      exists mrs. fold d in F1, F2, F3. fold n in F1, F2, F3. fold q in F2.
      split; [exact F1|]. split; [exact F2|].
      intros Hr. left. split; [subst n; lia|].
      rewrite <- F3. destruct (shr_r mrs) eqn:R; [done|].
      rewrite <- F2 in Hr. rewrite round_nearest_even_down in Hr by done. lia. }
  exists (round_nearest_even q (loc_of_shr_record mrs)).
  pose proof (round_nearest_even_range q (loc_of_shr_record mrs)) as Hm1.
  split; [exact Hm1|]. split; [exact E3|].
  unfold binary_round_aux. rewrite E1. rewrite E2.
  set (m1 := round_nearest_even q (loc_of_shr_record mrs)) in *.
  destruct (Z.ltb_spec m1 (2 ^ 24)) as [Hlt|Hge].
  - destruct m1 as [|p1|p1] eqn:Ep; [lia| |lia].
    assert (Zpos (digits2_pos p1) = 24%Z) as Hd1 by (apply digits2_unique; lia).
    rewrite shr_fexp_keep by (done || lia). cbn [shr_record_of_loc shr_m].
    unfold pack. cbn [Z.to_pos]. reflexivity.
  - assert (m1 = 2 ^ 24)%Z as Hm by lia.
    assert (Zpos (digits2_pos (2 ^ 24)) = 25%Z) as Hd1 by reflexivity.
    rewrite Hm. change (2 ^ 24)%Z with (Zpos (2 ^ 24)).
    destruct (shr_fexp_shift (2 ^ 24) (e + n) loc_Exact) as (mrs2 & G1 & G2 & _);
      [rewrite Hd1; lia..|].
    rewrite G1, G2, Hd1. change (Zpos (2 ^ 24) / 2 ^ (25 - 24))%Z with (Zpos (2 ^ 23)).
    unfold pack. replace (e + n + (25 - 24))%Z with (e + n + 1)%Z by lia. reflexivity.
Qed.

End Rounding.

Section Rounding_ops.

Lemma pos_iter_xO (p d : positive) : Zpos (Pos.iter xO p d) = (Zpos p * 2 ^ Zpos d)%Z.
Proof.
  induction d as [|d IH] using Pos.peano_ind.
  - cbn [Pos.iter]. lia.
  - rewrite Pos.iter_succ, Pos2Z.inj_xO, IH, Pos2Z.inj_succ.
    rewrite Z.pow_succ_r by lia. lia.
Qed.

(** Aligning a mantissa to a lower exponent multiplies it by a power of two. *)
Lemma shl_align_down (m : positive) (e e' : Z) :
  (e' <= e)%Z ->
  Zpos (shl_align m e e').1 = (Zpos m * 2 ^ (e - e'))%Z /\ (shl_align m e e').2 = e'.
Proof.
  intros H. unfold shl_align. destruct (e' - e)%Z as [|j|j] eqn:E; cbn [fst snd].
  - replace (e - e')%Z with 0%Z by lia. split; lia.
  - lia.
  - rewrite pos_iter_xO. replace (e - e')%Z with (Zpos j) by lia. done.
Qed.

Lemma shl_align_keep (m : positive) (e e' : Z) :
  (e <= e')%Z -> shl_align m e e' = (m, e).
Proof.
  intros H. unfold shl_align. destruct (e' - e)%Z as [|j|j] eqn:E; [done|done|lia].
Qed.

(** When the last bit lost is set, rounding up adds at most half a unit. *)
Lemma round_up_half (N n : Z) :
  (0 <= N)%Z -> (1 <= n)%Z -> Z.odd (N / 2 ^ (n - 1)) = true ->
  ((N / 2 ^ n + 1) * 2 ^ n <= N + 2 ^ (n - 1))%Z.
Proof.
  intros HN Hn Hodd.
  assert (0 < 2 ^ (n - 1))%Z as Hp by (apply Z.pow_pos_nonneg; lia).
  assert (2 ^ n = 2 * 2 ^ (n - 1))%Z as E.
  { replace n with (n - 1 + 1)%Z at 1 by lia. rewrite Z.pow_add_r by lia. lia. }
  pose proof (Z.div_mod N (2 ^ (n - 1)) ltac:(lia)) as D.
  pose proof (Z.mod_pos_bound N (2 ^ (n - 1)) Hp) as B.
  set (a := (N / 2 ^ (n - 1))%Z) in *. set (r0 := (N mod 2 ^ (n - 1))%Z) in *.
  rewrite (Zodd_div2 a) in D by (by apply Zodd_bool_iff in Hodd || by apply Zodd_bool_iff).
  assert (N / 2 ^ n = Z.div2 a)%Z as Q.
  { symmetry. apply (Z.div_unique_pos N (2 ^ n) (Z.div2 a) (2 ^ (n - 1) + r0)); lia. }
  rewrite Q. lia.
Qed.

(** Rounding a positive integer mantissa of [d] digits at the exponent [e0],
    in the normal range: the result has 24 digits at the exponent
    [d + e0 - 24]; it is exact for [d <= 24] and within half a unit of the
    last place from above otherwise. *)
Lemma binary_round_normal (p : positive) (e0 : Z) :
  let d := Zpos (digits2_pos p) in
  (-149 <= d + e0 - 24)%Z ->
  exists m1 : Z,
    (2 ^ 23 <= m1 <= 2 ^ 24)%Z /\
    binary_round 24 128 false p e0
    = (if (m1 <? 2 ^ 24)%Z then pack m1 (d + e0 - 24) else pack (2 ^ 23) (d + e0 - 24 + 1)) /\
    ((d <= 24)%Z -> m1 = (Zpos p * 2 ^ (24 - d))%Z) /\
    ((24 < d)%Z ->
       (m1 * 2 ^ (d - 24) <= Zpos p + 2 ^ (d - 24 - 1))%Z /\
       (Zpos p / 2 ^ (d - 24) <= m1)%Z).
Proof.
  intros d Hd. unfold binary_round. cbn [Zdigits2]. fold d.
  rewrite fexp_normal by lia.
  pose proof (digits2_bounds p) as [B1 B2]. fold d in B1, B2.
  assert (0 < d)%Z as Hd0 by (subst d; lia).
  destruct (Z.lt_ge_cases d 24) as [Hlt|Hge].
  - destruct (shl_align_down p e0 (d + e0 - 24)) as [A1 A2]; [lia|].
    destruct (shl_align p e0 (d + e0 - 24)) as [mz ez]. cbn [fst snd] in A1, A2. subst ez.
    replace (e0 - (d + e0 - 24))%Z with (24 - d)%Z in A1 by lia.
    assert (2 ^ 23 <= Zpos mz < 2 ^ 24)%Z as Hmz.
    { rewrite A1.
      assert (2 ^ 23 = 2 ^ (d - 1) * 2 ^ (24 - d))%Z as ->
        by (rewrite <- Z.pow_add_r by lia; f_equal; lia).
      assert (2 ^ 24 = 2 ^ d * 2 ^ (24 - d))%Z as ->
        by (rewrite <- Z.pow_add_r by lia; f_equal; lia).
      assert (0 < 2 ^ (24 - d))%Z by (apply Z.pow_pos_nonneg; lia).
      split; [apply Z.mul_le_mono_nonneg_r; lia|apply Z.mul_lt_mono_pos_r; lia]. }
    assert (Zpos (digits2_pos mz) = 24%Z) as Dz by (apply digits2_unique; lia).
    destruct (binary_round_aux_normal mz (d + e0 - 24) loc_Exact)
      as (_ & m1 & M1 & M2 & M3); [rewrite Dz; lia..|].
    rewrite Dz in M1, M2, M3. change (24 - 24)%Z with 0%Z in M1, M2, M3.
    rewrite Z.div_1_r in M1, M2. rewrite Z.add_0_r in M3.
    assert (m1 = Zpos mz) as ->.
    { destruct (decide (m1 = (Zpos mz + 1)%Z)) as [E|N]; [|lia].
      destruct (M2 E) as [[? _]|[_ ?]]; [lia|done]. }
    exists (Zpos mz). split; [lia|]. split; [exact M3|]. split; [by intros _|lia].
  - rewrite shl_align_keep by lia.
    destruct (binary_round_aux_normal p e0 loc_Exact)
      as (Q & m1 & M1 & M2 & M3); [fold d; lia..|].
    fold d in Q, M1, M2, M3.
    exists m1. split; [lia|].
    split; [by replace (d + e0 - 24)%Z with (e0 + (d - 24))%Z by lia|].
    split.
    + intros Hle. assert (d = 24%Z) as E by lia. rewrite E in *.
      change (24 - 24)%Z with 0%Z in *. rewrite Z.div_1_r in *.
      change (2 ^ 0)%Z with 1%Z. rewrite Z.mul_1_r.
      destruct (decide (m1 = (Zpos p + 1)%Z)) as [E1|N]; [|lia].
      destruct (M2 E1) as [[? _]|[_ ?]]; [lia|done].
    + intros Hgt. split; [|lia].
      assert (0 < 2 ^ (d - 24))%Z as Hp by (apply Z.pow_pos_nonneg; lia).
      destruct (decide (m1 = (Zpos p / 2 ^ (d - 24) + 1)%Z)) as [E1|N].
      * destruct (M2 E1) as [[_ Hodd]|[? _]]; [|lia].
        rewrite E1. apply round_up_half; [lia|lia|done].
      * assert (m1 = Zpos p / 2 ^ (d - 24))%Z as -> by lia.
        pose proof (Z.mul_div_le (Zpos p) (2 ^ (d - 24)) Hp) as L.
        assert (0 <= 2 ^ (d - 24 - 1))%Z by (apply Z.pow_nonneg; lia). lia.
Qed.

End Rounding_ops.

Section River_level.

Local Open Scope f32_scope.

Lemma RIVER_THRESHOLD_bits : World.RIVER_THRESHOLD = S754_finite false 13757317 (-24).
Proof. reflexivity. Qed.

Lemma river_span_bits :
  F32.lit 1 1 - World.RIVER_THRESHOLD = S754_finite false 12079596 (-26).
Proof. reflexivity. Qed.

Lemma five_bits : F32.lit 5 1 = S754_finite false 10485760 (-21).
Proof. reflexivity. Qed.

Lemma WATER_LEVEL_bits : World.WATER_LEVEL = S754_finite false 10485760 (-19).
Proof. reflexivity. Qed.

Lemma pack_normal_above (m1 e1 lo : Z) :
  (2 ^ 23 <= m1 <= 2 ^ 24)%Z -> (lo <= e1)%Z ->
  normal_above lo (if (m1 <? 2 ^ 24)%Z then pack m1 e1 else pack (2 ^ 23) (e1 + 1)).
Proof.
  intros Hm He. unfold pack.
  destruct (Z.ltb_spec m1 (2 ^ 24)).
  - destruct (Z.leb_spec e1 104); [|by left]. right.
    exists (Z.to_pos m1), e1. split; [done|]. rewrite Z2Pos.id by lia. lia.
  - destruct (Z.leb_spec (e1 + 1) 104); [|by left]. right.
    exists (Z.to_pos (2 ^ 23)), (e1 + 1)%Z. split; [done|]. split; [done|lia].
Qed.

(** A binary32 value above the threshold is the infinity or a normal value
    that is larger in exponent, or equal in exponent and larger in mantissa. *)
Lemma above_threshold_shape (rv : f32) :
  F32.valid rv = true -> F32.gt rv World.RIVER_THRESHOLD = true ->
  rv = S754_infinity false \/
  exists m e, rv = S754_finite false m e /\
    (2 ^ 23 <= Zpos m < 2 ^ 24)%Z /\ (e <= 104)%Z /\
    ((-24 < e)%Z \/ (e = (-24)%Z /\ (13757317 < Zpos m)%Z)).
Proof.
  intros Hv Hgt. unfold F32.gt, F32.lt in Hgt. rewrite RIVER_THRESHOLD_bits in Hgt.
  destruct rv as [s|s| |s m e].
  - by destruct s.
  - destruct s; [done|by left].
  - done.
  - right. destruct s; [done|]. exists m, e. split; [done|].
    unfold F32.valid, valid_binary, bounded, canonical_mantissa in Hv.
    apply andb_true_iff in Hv as [Hc Hb]. apply Z.eqb_eq in Hc. apply Z.leb_le in Hb.
    assert ((-24 < e)%Z \/ (e = (-24)%Z /\ (13757317 < Zpos m)%Z)) as He.
    { unfold SFltb, SFcompare in Hgt.
      destruct (Z.compare_spec (-24) e) as [E|L|G]; [|by left|done].
      right. split; [done|].
      change (Pos.compare_cont Eq 13757317 m) with (13757317 ?= m)%positive in Hgt.
      destruct (Pos.compare_spec 13757317 m); first [done|lia]. }
    assert (Zpos (digits2_pos m) = 24%Z) as Hd.
    { unfold fexp, emin, F32.prec, F32.emax in Hc. lia. }
    pose proof (digits2_bounds m) as B. rewrite Hd in B. change (24 - 1)%Z with 23%Z in B.
    split; [exact B|]. split; [unfold F32.emax, F32.prec in Hb; lia|exact He].
Qed.

(** [riverValue - RIVER_THRESHOLD] is at least [2^-24]. *)
Lemma sub_threshold_normal (rv : f32) :
  F32.valid rv = true -> F32.gt rv World.RIVER_THRESHOLD = true ->
  normal_above (-47) (rv - World.RIVER_THRESHOLD).
Proof.
  intros Hv Hgt.
  destruct (above_threshold_shape rv Hv Hgt) as [->|(m & e & -> & Hm & He & Hlex)];
    [by left|].
  rewrite RIVER_THRESHOLD_bits. unfold F32.sub, SFsub.
  assert (-24 <= e)%Z as He' by lia.
  rewrite (Z.min_r e (-24)) by lia.
  destruct (shl_align_down m e (-24) He') as [A1 _].
  rewrite (shl_align_keep 13757317 (-24) (-24)) by lia. cbn [fst cond_Zopp].
  rewrite A1.
  assert (13757317 < Zpos m * 2 ^ (e - -24))%Z as Hpos.
  { destruct Hlex as [L|[-> L]].
    - assert (2 ^ 1 <= 2 ^ (e - -24))%Z by (apply Z.pow_le_mono_r; lia).
      change (2 ^ 1)%Z with 2%Z in *. nia.
    - change (-24 - -24)%Z with 0%Z. change (2 ^ 0)%Z with 1%Z. lia. }
  destruct (Zpos m * 2 ^ (e - -24) - 13757317)%Z as [|pN|pN] eqn:EN; [lia| |lia].
  unfold binary_normalize.
  destruct (binary_round_normal pN (-24)) as (m1 & M1 & M2 & _); [lia|].
  unfold F32.prec, F32.emax. rewrite M2. apply pack_normal_above; [done|lia].
Qed.

(** Dividing by [1 - RIVER_THRESHOLD], a value below [2^-2], gains at least
    two exponents. *)
Lemma div_span_normal (d : f32) :
  normal_above (-47) d ->
  normal_above (-45) (d / (F32.lit 1 1 - World.RIVER_THRESHOLD)).
Proof.
  rewrite river_span_bits. intros [->|(md & ed & -> & Hm & He)]; [by left|].
  unfold F32.div, SFdiv, SFdiv_core_binary. cbn [Zdigits2 xorb].
  assert (Zpos (digits2_pos md) = 24%Z) as Hd by (apply digits2_unique; lia).
  rewrite Hd. change (Zpos (digits2_pos 12079596)) with 24%Z.
  unfold F32.prec, F32.emax.
  rewrite fexp_normal by lia.
  replace (Z.min (24 + ed - (24 + -26) - 24) (ed - -26))%Z with (ed + 2)%Z by lia.
  replace (ed - -26 - (ed + 2))%Z with 24%Z by lia.
  rewrite Z.shiftl_mul_pow2 by lia.
  pose proof (Z_div_mod (Zpos md * 2 ^ 24) 12079596 ltac:(lia)) as H.
  destruct (Z.div_eucl (Zpos md * 2 ^ 24) 12079596) as [q r].
  destruct H as [E R].
  assert (2 ^ 23 <= q < 2 ^ 25)%Z as Hq by lia.
  destruct q as [|pq|pq]; [lia| |lia].
  assert (Zpos (digits2_pos pq) = 24 \/ Zpos (digits2_pos pq) = 25)%Z as Hdq.
  { destruct (Z.lt_ge_cases (Zpos pq) (2 ^ 24)).
    - left. apply digits2_unique. lia.
    - right. apply digits2_unique. lia. }
  destruct (binary_round_aux_normal pq (ed + 2) (new_location 12079596 r))
    as (Q & m1 & M1 & _ & M3); [lia..|].
  rewrite M3. apply pack_normal_above; lia.
Qed.

(** Multiplying by 5 (mantissa [1.25 * 2^23]) gains two exponents and a
    mantissa of at least [1.25 * 2^23], or three exponents. *)
Lemma mul_five_above (s : f32) :
  normal_above (-45) s -> above_half_ulp (s * F32.lit 5 1).
Proof.
  rewrite five_bits. intros [->|(ms & es & -> & Hm & He)]; [by left|].
  unfold F32.mul, SFmul. cbn [xorb]. unfold F32.prec, F32.emax.
  assert (2 ^ 46 <= Zpos (ms * 10485760) < 2 ^ 48)%Z as HP
    by (rewrite Pos2Z.inj_mul; lia).
  assert (10485760 * 2 ^ 23 <= Zpos (ms * 10485760))%Z as HP'
    by (rewrite Pos2Z.inj_mul; lia).
  destruct (Z.lt_ge_cases (Zpos (ms * 10485760)) (2 ^ 47)) as [L|G].
  - assert (Zpos (digits2_pos (ms * 10485760)) = 47%Z) as Hd
      by (apply digits2_unique; lia).
    destruct (binary_round_aux_normal (ms * 10485760) (es + -21) loc_Exact)
      as (Q & m1 & M1 & _ & M3); [lia..|].
    rewrite Hd in Q, M1, M3. change (47 - 24)%Z with 23%Z in Q, M1, M3.
    assert (10485760 <= Zpos (ms * 10485760) / 2 ^ 23)%Z
      by (apply Z.div_le_lower_bound; lia).
    rewrite M3. unfold pack.
    destruct (Z.ltb_spec m1 (2 ^ 24)).
    + destruct (Z.leb_spec (es + -21 + 23) 104); [|by left]. right.
      exists (Z.to_pos m1), (es + -21 + 23)%Z. split; [done|].
      rewrite Z2Pos.id by lia. lia.
    + destruct (Z.leb_spec (es + -21 + 23 + 1) 104); [|by left]. right.
      exists (Z.to_pos (2 ^ 23)), (es + -21 + 23 + 1)%Z. split; [done|].
      split; [done|]. lia.
  - assert (Zpos (digits2_pos (ms * 10485760)) = 48%Z) as Hd
      by (apply digits2_unique; lia).
    destruct (binary_round_aux_normal (ms * 10485760) (es + -21) loc_Exact)
      as (Q & m1 & M1 & _ & M3); [lia..|].
    rewrite Hd in Q, M1, M3. change (48 - 24)%Z with 24%Z in Q, M1, M3.
    rewrite M3. unfold pack.
    destruct (Z.ltb_spec m1 (2 ^ 24)).
    + destruct (Z.leb_spec (es + -21 + 24) 104); [|by left]. right.
      exists (Z.to_pos m1), (es + -21 + 24)%Z. split; [done|].
      rewrite Z2Pos.id by lia. lia.
    + destruct (Z.leb_spec (es + -21 + 24 + 1) 104); [|by left]. right.
      exists (Z.to_pos (2 ^ 23)), (es + -21 + 24 + 1)%Z. split; [done|].
      split; [done|]. lia.
Qed.

Lemma pack_below_water (m e : Z) :
  (0 < m)%Z -> (e <= -19)%Z -> (e = (-19)%Z -> (m < 10485760)%Z) ->
  F32.lt (pack m e) (S754_finite false 10485760 (-19)) = true.
Proof.
  intros Hm He Hlt. unfold pack. rewrite (proj2 (Z.leb_le e 104)) by lia.
  apply lt_spec. split; [done|]. split; [done|].
  unfold rank, lex3. change (1 ?= 1)%Z with Eq. cbv iota.
  destruct (Z.compare_spec e (-19)) as [E|L|G]; [|done|lia].
  apply Z.compare_lt_iff. rewrite Z2Pos.id by lia. auto.
Qed.

Lemma shr_fexp_nonneg (m e : Z) (l : location) :
  (0 <= m)%Z -> (0 <= shr_m (shr_fexp 24 128 m e l).1)%Z.
Proof.
  intros Hm. unfold shr_fexp, shr.
  assert (shr_m (shr_record_of_loc m l) = m) as E by (by destruct l as [|[]]).
  destruct (fexp 24 128 (Zdigits2 m + e) - e)%Z as [|p|p]; cbn [fst]; [lia| |lia].
  apply (iter_pos_invariant shr_1 (fun _ mrs => (0 <= shr_m mrs)%Z) ) with (k := 0%Z);
    [|lia|lia].
  intros _ [m' r' s'] _ H. cbn [shr_m] in H. rewrite shr_1_spec by done.
  cbn [shr_m]. apply Z.div_pos; lia.
Qed.

(** Whatever is rounded with the sign bit set compares below 20. *)
Lemma binary_round_aux_negative (m e : Z) (l : location) :
  (0 <= m)%Z ->
  F32.lt (binary_round_aux 24 128 true m e l) (S754_finite false 10485760 (-19)) = true.
Proof.
  intros Hm. unfold binary_round_aux.
  pose proof (shr_fexp_nonneg m e l Hm) as H1.
  destruct (shr_fexp 24 128 m e l) as [mrs1 e1]. cbn [fst] in H1.
  pose proof (round_nearest_even_range (shr_m mrs1) (loc_of_shr_record mrs1)) as H2.
  pose proof (shr_fexp_nonneg (round_nearest_even (shr_m mrs1) (loc_of_shr_record mrs1))
                e1 loc_Exact ltac:(lia)) as H3.
  destruct (shr_fexp 24 128 _ e1 loc_Exact) as [mrs2 e2]. cbn [fst] in H3.
  destruct (shr_m mrs2) as [|p|p]; [done| |lia].
  by destruct (e2 <=? 128 - 24)%Z.
Qed.

Lemma digits2_below (p : positive) (k : Z) :
  (Zpos p < 2 ^ k)%Z -> (Zpos (digits2_pos p) <= k)%Z.
Proof.
  intros H. pose proof (digits2_bounds p) as [B _].
  destruct (Z.le_gt_cases (Zpos (digits2_pos p)) k) as [|G]; [done|].
  assert (2 ^ k <= 2 ^ (Zpos (digits2_pos p) - 1))%Z by (apply Z.pow_le_mono_r; lia).
  lia.
Qed.

(** Subtracting from 20 a value of at least [1.25 * 2^-20] gives less than
    20: the half unit in the last place below 20 is [2^-20]. *)
Lemma sub_from_water (z : f32) :
  above_half_ulp z -> F32.lt (World.WATER_LEVEL - z) World.WATER_LEVEL = true.
Proof.
  rewrite WATER_LEVEL_bits. intros [->|(mz & ez & -> & Hm & He & Hlo)]; [done|].
  unfold F32.sub, SFsub. cbn [cond_Zopp]. unfold F32.prec, F32.emax.
  destruct (Z.le_gt_cases (-19) ez) as [Hhi|Hlow].
  - rewrite (Z.min_l (-19) ez) by lia.
    rewrite (shl_align_keep 10485760 (-19) (-19)) by lia. cbn [fst].
    destruct (shl_align_down mz ez (-19) Hhi) as [A1 _]. rewrite A1.
    assert (0 < 2 ^ (ez - -19))%Z by (apply Z.pow_pos_nonneg; lia).
    destruct (10485760 - Zpos mz * 2 ^ (ez - -19))%Z as [|pN|pN] eqn:EN.
    + done.
    + unfold binary_normalize.
      assert (Zpos pN < 2 ^ 22)%Z as Hsmall by nia.
      pose proof (digits2_below pN 22 Hsmall) as Hd.
      destruct (binary_round_normal pN (-19)) as (m1 & M1 & M2 & _); [lia|].
      rewrite M2. destruct (m1 <? 2 ^ 24)%Z; apply pack_below_water; lia.
    + unfold binary_normalize, binary_round.
      destruct (shl_align pN (-19) _) as [mz' ez'].
      by apply binary_round_aux_negative.
  - rewrite (Z.min_r (-19) ez) by lia.
    rewrite (shl_align_keep mz ez ez) by lia. cbn [fst].
    destruct (shl_align_down 10485760 (-19) ez ltac:(lia)) as [A1 _]. rewrite A1.
    set (k := (-19 - ez)%Z) in *.
    assert (1 <= k <= 24)%Z as Hk by (subst k; lia).
    assert (2 ^ 1 <= 2 ^ k)%Z as Hpow by (apply Z.pow_le_mono_r; lia).
    change (2 ^ 1)%Z with 2%Z in Hpow.
    assert (2 ^ (k - 1) < Zpos mz)%Z as Hhalf.
    { destruct (decide (k = 24%Z)) as [E|N].
      - rewrite E. change (2 ^ (24 - 1))%Z with 8388608%Z. subst k. lia.
      - assert (2 ^ (k - 1) <= 2 ^ 22)%Z by (apply Z.pow_le_mono_r; lia). lia. }
    destruct (10485760 * 2 ^ k - Zpos mz)%Z as [|pN|pN] eqn:EN; [lia| |lia].
    unfold binary_normalize.
    assert (Zpos pN < 2 ^ (24 + k))%Z as Hup.
    { rewrite Z.pow_add_r by lia. lia. }
    pose proof (digits2_below pN (24 + k) Hup) as Hd.
    destruct (binary_round_normal pN ez) as (m1 & M1 & M2 & _ & M4);
      [pose proof (Pos2Z.is_pos (digits2_pos pN)); lia|].
    rewrite M2. set (d := Zpos (digits2_pos pN)) in *.
    destruct (decide (d = 24 + k)%Z) as [E|N].
    + destruct M4 as [M4 _]; [lia|].
      replace (d - 24)%Z with k in M4 by lia.
      assert (m1 * 2 ^ k < 10485760 * 2 ^ k)%Z as Hlt by lia.
      assert (m1 < 10485760)%Z as Hm1.
      { apply (Z.mul_lt_mono_pos_r (2 ^ k)); [lia|done]. }
      rewrite (proj2 (Z.ltb_lt m1 (2 ^ 24))) by lia.
      apply pack_below_water; lia.
    + destruct (m1 <? 2 ^ 24)%Z; apply pack_below_water; lia.
Qed.

(** The carving level of a river cell is below the water level, in
    binary32 arithmetic, for every binary32 [riverValue] above the
    threshold.  The smallest [riverValue - RIVER_THRESHOLD] is [2^-24];
    divided by [0.18] and multiplied by 5 it is more than [2^-20], half the
    distance from 20 to the binary32 value below it. *)
Lemma river_level_below (rv : f32) :
  F32.valid rv = true -> F32.gt rv World.RIVER_THRESHOLD = true ->
  F32.lt (World.WATER_LEVEL
          - (rv - World.RIVER_THRESHOLD) / (F32.lit 1 1 - World.RIVER_THRESHOLD)
            * F32.lit 5 1)
         World.WATER_LEVEL = true.
Proof.
  intros Hv Hgt.
  by apply sub_from_water, mul_five_above, div_span_normal, sub_threshold_normal.
Qed.

End River_level.

(* ===================================================================== *)
(** * River cells end as water *)
(* ===================================================================== *)

Section Rivers.

Import World.
Local Open Scope f32_scope.

(** A river cell leaves pass 2 at or below its carving level, which is
    below the water table. *)
Lemma carve_river_cell (data : TerrainData) :
  F32.gt (riverValue data) RIVER_THRESHOLD = true ->
  F32.valid (riverValue data) = true ->
  F32.is_nan (elevation data) = false ->
  let level :=
    WATER_LEVEL
    - (riverValue data - RIVER_THRESHOLD) / (F32.lit 1 1 - RIVER_THRESHOLD) * F32.lit 5 1 in
  F32.le (elevation (carve data)) level = true /\
  F32.lt level WATER_LEVEL = true /\
  F32.lt (elevation (carve data)) WATER_LEVEL = true.
Proof.
  intros Hr Hv Hn level.
  assert (F32.lt level WATER_LEVEL = true) as Hl by (by apply river_level_below).
  assert (F32.is_nan level = false) as Hnl by (by apply lt_not_nan in Hl as [? _]).
  assert (F32.le (elevation (carve data)) level = true) as Hc.
  { rewrite carve_effective. cbn zeta. rewrite Hr. cbn [elevation set_elevation moisture].
    fold level.
    assert (F32.le (F32.min (elevation data) level) level = true) as H1
      by (by apply min_le_r).
    destruct (_ && _); cbn [elevation set_elevation]; [|done].
    apply (le_trans _ (F32.min (elevation data) level)); [|done].
    apply min_le_l. by apply le_not_nan in H1 as [? _]. }
  split; [done|]. split; [done|]. by apply (le_lt_trans _ level).
Qed.

Lemma below_water_is_water (e m : f32) :
  F32.lt e WATER_LEVEL = true ->
  (DetermineBiome e m = DEEP_WATER \/ DetermineBiome e m = SHALLOW_WATER) /\
  walkable (biome_props (DetermineBiome e m)) = false.
Proof.
  intros H. unfold DetermineBiome. rewrite H.
  destruct (e <? WATER_LEVEL - F32.lit 5 1); (split; [auto|reflexivity]).
Qed.

Variable variation : nat -> nat -> nat -> Z.

(** From pass 2 to the tile, for a river cell of any terrain. *)
Lemma river_cell_through_passes (h w : nat) (raw : grid TerrainData) (y x : nat) :
  let carved := pass2 h w raw in
  let final := grid_get (pass3 h w carved) y x in
  let strength :=
    (riverValue (grid_get raw y x) - RIVER_THRESHOLD) / (F32.lit 1 1 - RIVER_THRESHOLD) in
  grid_dims h w raw -> (y < h)%nat -> (x < w)%nat ->
  F32.gt (riverValue (grid_get raw y x)) RIVER_THRESHOLD = true ->
  F32.valid (riverValue (grid_get raw y x)) = true ->
  F32.is_nan (elevation (grid_get raw y x)) = false ->
  exists world,
    finish_world variation h w raw = Some world /\
    F32.le (elevation (grid_get carved y x)) (WATER_LEVEL - strength * F32.lit 5 1) = true /\
    F32.lt (WATER_LEVEL - strength * F32.lit 5 1) WATER_LEVEL = true /\
    elevation final = elevation (grid_get carved y x) /\
    F32.lt (elevation final) WATER_LEVEL = true /\
    (DetermineBiome (elevation final) (moisture final) = DEEP_WATER \/
     DetermineBiome (elevation final) (moisture final) = SHALLOW_WATER) /\
    tile_walkable (grid_get world y x) = false.
Proof.
  intros carved final strength Hd1 Hy Hx Hr Hv Hn.
  assert (grid_dims h w carved) as Hd2 by (by apply pass2_dims).
  destruct (carve_river_cell (grid_get raw y x) Hr Hv Hn) as (H1 & H2 & H3).
  assert (grid_get carved y x = carve (grid_get raw y x)) as Hcarved
    by (by apply (pass2_cell h w)).
  assert (elevation final = elevation (grid_get carved y x)) as Hfinal.
  { subst final. rewrite (pass3_elevation h w) by done. cbn zeta.
    rewrite Hcarved. by rewrite (lt_le _ _ H3). }
  destruct (finish_world_tiles variation h w raw Hd1) as (world & E & _ & Hc).
  exists world. split; [exact E|].
  rewrite Hcarved. split; [exact H1|]. split; [exact H2|].
  rewrite <- Hcarved. split; [exact Hfinal|].
  assert (F32.lt (elevation final) WATER_LEVEL = true) as Hw
    by (by rewrite Hfinal, Hcarved).
  split; [exact Hw|].
  destruct (below_water_is_water (elevation final) (moisture final) Hw) as [Hb Hwalk].
  split; [exact Hb|]. rewrite Hc by done. exact Hwalk.
Qed.

(** C10: whatever terrain pass 1 hands over, in the grid that the rest of
    [GenerateWorld] returns a cell whose pass-1 [riverValue] (a binary32
    value) exceeds [RIVER_THRESHOLD], and whose pass-1 elevation is a number,
    leaves pass 2 at or below [WATER_LEVEL - strength * 5], a level strictly
    below [WATER_LEVEL]; pass 3 leaves it unchanged; so its final elevation
    is strictly below [WATER_LEVEL], it is classified deep or shallow water,
    and its tile is not walkable. *)
Theorem C10_river_cells_end_as_water (h w : nat) (raw : grid TerrainData) (y x : nat) :
  let carved := pass2 h w raw in
  let final := grid_get (pass3 h w carved) y x in
  let strength :=
    (riverValue (grid_get raw y x) - RIVER_THRESHOLD) / (F32.lit 1 1 - RIVER_THRESHOLD) in
  grid_dims h w raw -> (y < h)%nat -> (x < w)%nat ->
  F32.gt (riverValue (grid_get raw y x)) RIVER_THRESHOLD = true ->
  F32.valid (riverValue (grid_get raw y x)) = true ->
  F32.is_nan (elevation (grid_get raw y x)) = false ->
  exists world,
    finish_world variation h w raw = Some world /\
    F32.le (elevation (grid_get carved y x)) (WATER_LEVEL - strength * F32.lit 5 1) = true /\
    F32.lt (WATER_LEVEL - strength * F32.lit 5 1) WATER_LEVEL = true /\
    elevation final = elevation (grid_get carved y x) /\
    F32.lt (elevation final) WATER_LEVEL = true /\
    (DetermineBiome (elevation final) (moisture final) = DEEP_WATER \/
     DetermineBiome (elevation final) (moisture final) = SHALLOW_WATER) /\
    tile_walkable (grid_get world y x) = false.
Proof. apply river_cell_through_passes. Qed.

End Rivers.

Lemma C10_river_cells_end_as_water_witness :
  let raw := sample_terrain in
  let carved := World.pass2 2 2 raw in
  let final := grid_get (World.pass3 2 2 carved) 0 1 in
  let strength :=
    ((World.riverValue (grid_get raw 0 1) - World.RIVER_THRESHOLD)
     / (F32.lit 1 1 - World.RIVER_THRESHOLD))%f32 in
  exists world,
    World.finish_world sample_variation 2 2 raw = Some world /\
    F32.le (World.elevation (grid_get carved 0 1))
           (World.WATER_LEVEL - strength * F32.lit 5 1)%f32 = true /\
    F32.lt (World.WATER_LEVEL - strength * F32.lit 5 1)%f32 World.WATER_LEVEL = true /\
    World.elevation final = World.elevation (grid_get carved 0 1) /\
    F32.lt (World.elevation final) World.WATER_LEVEL = true /\
    (World.DetermineBiome (World.elevation final) (World.moisture final) = World.DEEP_WATER \/
     World.DetermineBiome (World.elevation final) (World.moisture final)
       = World.SHALLOW_WATER) /\
    World.tile_walkable (grid_get world 0 1) = false.
Proof.
  apply (C10_river_cells_end_as_water sample_variation 2 2 sample_terrain 0 1
           sample_terrain_dims); [lia|lia|reflexivity..].
Defined.

(* ===================================================================== *)
(** * Exact operations on binary32 values *)
(* ===================================================================== *)

Section F32_exact.

Lemma sub_self (a : f32) : finite a = true -> F32.sub a a = F32.zero.
Proof.
  destruct a as [s| | |s m e]; try done; intros _.
  - by destruct s.
  - unfold F32.sub, SFsub. rewrite Z.sub_diag. reflexivity.
Qed.

Lemma add_zero_r (a : f32) :
  finite a = true -> a <> S754_zero true -> F32.add a F32.zero = a.
Proof. destruct a as [[]| | |s m e]; done. Qed.

Lemma binary_round_aux_opp (m e : Z) (l : location) :
  binary_round_aux 24 128 true m e l = SFopp (binary_round_aux 24 128 false m e l).
Proof.
  unfold binary_round_aux.
  destruct (shr_fexp 24 128 m e l) as [mrs1 e1].
  destruct (shr_fexp 24 128 _ e1 loc_Exact) as [mrs2 e2].
  destruct (shr_m mrs2); [done| |done].
  by destruct (e2 <=? 128 - 24)%Z.
Qed.

Lemma binary_round_opp (p : positive) (e : Z) :
  binary_round 24 128 true p e = SFopp (binary_round 24 128 false p e).
Proof.
  unfold binary_round. destruct (shl_align p e _). apply binary_round_aux_opp.
Qed.

(** A converted integer is a zero of positive sign, or a number away from
    zero, or (for a huge integer only) an infinity. *)
Lemma of_int_shape (n : Z) :
  F32.of_int n = F32.zero \/
  (exists s m e, F32.of_int n = S754_finite s m e) \/
  (exists s, F32.of_int n = S754_infinity s).
Proof.
  assert (forall p, (exists m e, binary_round 24 128 false p 0 = S754_finite false m e)
                    \/ binary_round 24 128 false p 0 = S754_infinity false) as H.
  { intros p. destruct (binary_round_normal p 0) as (m1 & _ & E & _).
    { pose proof (digits2_bounds p). lia. }
    rewrite E. unfold pack.
    destruct (m1 <? 2 ^ 24)%Z; destruct (_ <=? 104)%Z; eauto. }
  unfold F32.of_int, binary_normalize.
  change F32.prec with 24%Z. change F32.emax with 128%Z.
  destruct n as [|p|p]; [by left|..].
  - destruct (H p) as [(m & e & ->)| ->]; eauto 6.
  - rewrite binary_round_opp.
    destruct (H p) as [(m & e & ->)| ->]; cbn [SFopp]; eauto 6.
Qed.

Lemma of_int_not_nan (n : Z) : F32.is_nan (F32.of_int n) = false.
Proof.
  destruct (of_int_shape n) as [-> |[(s & m & e & ->)|(s & ->)]]; done.
Qed.

Lemma of_int_not_neg_zero (n : Z) : F32.of_int n <> S754_zero true.
Proof.
  destruct (of_int_shape n) as [-> |[(s & m & e & ->)|(s & ->)]]; done.
Qed.

(** [std::max(lo, std::min(v, hi))] lies between [lo] and [hi], whatever [v]
    is, a NaN included. *)
Lemma max_min_range (lo hi v : f32) :
  F32.le lo hi = true ->
  F32.le lo (F32.max lo (F32.min v hi)) = true /\
  F32.le (F32.max lo (F32.min v hi)) hi = true.
Proof.
  intros H. destruct (le_not_nan _ _ H) as [Hlo Hhi].
  unfold F32.max, F32.min.
  destruct (F32.lt hi v) eqn:E1.
  - destruct (F32.lt lo hi) eqn:E2; auto using le_refl.
  - destruct (F32.lt lo v) eqn:E2; [|auto using le_refl].
    split; [by apply lt_le|]. apply not_lt_le; [|done|done].
    by apply lt_not_nan in E2 as [_ ?].
Qed.

Lemma lex3_Eq p q : lex3 p q = Eq -> p = q.
Proof.
  destruct p as [[p1 p2] p3], q as [[q1 q2] q3]. unfold lex3.
  destruct (Z.compare_spec p1 q1); [|done|done].
  destruct (Z.compare_spec p2 q2); [|done|done].
  destruct (Z.compare_spec p3 q3); [|done|done].
  by subst.
Qed.

Lemma rank_finite_inj (v : f32) s m e :
  F32.is_nan v = false -> rank v = rank (S754_finite s m e) -> v = S754_finite s m e.
Proof.
  intros Hn. destruct v as [s'|[]| |[] m' e'], s; try done; cbn [rank]; intros H;
    injection H as H1 H2; f_equal; lia.
Qed.

(** It leaves alone a value that is already between the two. *)
Lemma max_min_inside (lo hi v : f32) :
  finite lo = true -> (forall s, lo <> S754_zero s) ->
  F32.le lo v = true -> F32.le v hi = true -> F32.max lo (F32.min v hi) = v.
Proof.
  intros Hf Hz H1 H2. unfold F32.max, F32.min.
  rewrite (le_not_lt _ _ H2).
  destruct (F32.lt lo v) eqn:E; [done|].
  apply le_spec in H1 as (Hlo & Hv & H1).
  assert (lex3 (rank lo) (rank v) = Eq) as Heq.
  { destruct (lex3 (rank lo) (rank v)) eqn:E3; [done| |done].
    assert (F32.lt lo v = true) by (by apply lt_spec). congruence. }
  apply lex3_Eq in Heq.
  destruct lo as [s| | |s m e]; try done; [by destruct (Hz s)|].
  symmetry. by apply rank_finite_inj.
Qed.

End F32_exact.

(* ===================================================================== *)
(** * Player movement *)
(* ===================================================================== *)

Section Movement.

Import Player.
Local Open Scope f32_scope.

Lemma horizontal_frame keystate moveSpeed player :
  let p1 := keep_in_bounds (move_keys keystate moveSpeed player) in
  isJumping p1 = isJumping player /\ elevation p1 = elevation player /\
  velocityZ p1 = velocityZ player.
Proof.
  unfold keep_in_bounds, move_keys.
  by destruct (keystate SDL_SCANCODE_W), (keystate SDL_SCANCODE_S),
       (keystate SDL_SCANCODE_A), (keystate SDL_SCANCODE_D).
Qed.

Lemma follow_terrain_frame prevX prevY world player :
  x (follow_terrain prevX prevY world player) = x player /\
  y (follow_terrain prevX prevY world player) = y player /\
  isJumping (follow_terrain prevX prevY world player) = isJumping player /\
  velocityZ (follow_terrain prevX prevY world player) = velocityZ player.
Proof.
  unfold follow_terrain. destruct (in_world _ _); [|done].
  cbn [andb]. destruct (isJumping player) eqn:E; cbn [negb]; [by rewrite E|].
  cbn [x y isJumping velocityZ set_elevation]. by rewrite E.
Qed.

Lemma start_jump_frame keystate player :
  x (start_jump keystate player) = x player /\
  y (start_jump keystate player) = y player /\
  elevation (start_jump keystate player) = elevation player /\
  isJumping (start_jump keystate player)
    = isJumping player || keystate SDL_SCANCODE_SPACE.
Proof.
  unfold start_jump.
  destruct (keystate SDL_SCANCODE_SPACE), (isJumping player) eqn:E; cbn [andb negb];
    cbn [x y elevation isJumping set_isJumping set_velocityZ]; by rewrite ?E.
Qed.

Lemma fall_frame world player :
  x (fall world player) = x player /\ y (fall world player) = y player.
Proof.
  unfold fall. destruct (isJumping player); [|done].
  destruct (_ <=? _); split; reflexivity.
Qed.

Lemma terrainHeight_frame world p q :
  x p = x q -> y p = y q -> terrainHeight world p = terrainHeight world q.
Proof. unfold terrainHeight. by intros -> ->. Qed.

Lemma terrainHeight_not_nan world p : F32.is_nan (terrainHeight world p) = false.
Proof.
  unfold terrainHeight. destruct (in_world _ _); [apply of_int_not_nan|done].
Qed.

Lemma HandlePlayerMovement_position player keystate deltaTime world currentTime statics :
  let p1 := keep_in_bounds
              (move_keys keystate (PLAYER_SPEED * deltaTime * F32.lit 5 1) player) in
  let p' := (HandlePlayerMovement player keystate deltaTime world currentTime statics).1 in
  x p' = x p1 /\ y p' = y p1.
Proof.
  intros p1 p'. subst p'. unfold HandlePlayerMovement. cbn [fst]. fold p1.
  destruct (fall_frame world (start_jump keystate (follow_terrain (x player) (y player) world p1)))
    as [-> ->].
  destruct (start_jump_frame keystate (follow_terrain (x player) (y player) world p1))
    as (-> & -> & _).
  by destruct (follow_terrain_frame (x player) (y player) world p1) as (-> & -> & _).
Qed.

(** X1: whatever the keys, the time step and the position it starts from
    (a NaN included), the player leaves [HandlePlayerMovement] with both
    coordinates between [1.0f] and [WORLD_WIDTH - 2], [WORLD_HEIGHT - 2]. *)
Theorem player_stays_in_bounds player keystate deltaTime world currentTime statics :
  let p' := (HandlePlayerMovement player keystate deltaTime world currentTime statics).1 in
  F32.le (F32.lit 1 1) (x p') = true /\
  F32.le (x p') (F32.of_int (Z.of_nat World.WORLD_WIDTH - 2)) = true /\
  F32.le (F32.lit 1 1) (y p') = true /\
  F32.le (y p') (F32.of_int (Z.of_nat World.WORLD_HEIGHT - 2)) = true.
Proof.
  intros p'. subst p'.
  destruct (HandlePlayerMovement_position player keystate deltaTime world currentTime statics)
    as [-> ->].
  unfold keep_in_bounds. cbn [x y set_x set_y].
  split; [|split; [|split]]; by apply max_min_range.
Qed.

(** X2: the walkability test is switched off: the position the player ends
    at does not depend on the world, so a tile that is not walkable never
    stops the move. *)
Theorem movement_ignores_walkability player keystate deltaTime currentTime statics
    (world1 world2 : grid World.Tile) :
  let p1 := (HandlePlayerMovement player keystate deltaTime world1 currentTime statics).1 in
  let p2 := (HandlePlayerMovement player keystate deltaTime world2 currentTime statics).1 in
  x p1 = x p2 /\ y p1 = y p2.
Proof.
  intros p1 p2. subst p1 p2.
  destruct (HandlePlayerMovement_position player keystate deltaTime world1 currentTime statics)
    as [-> ->].
  by destruct (HandlePlayerMovement_position player keystate deltaTime world2 currentTime statics)
    as [-> ->].
Qed.

(** X3: with none of W, A, S, D down, a player inside the bounds keeps its
    position bit for bit. *)
Theorem idle_player_keeps_position player keystate deltaTime world currentTime statics :
  keystate SDL_SCANCODE_W = false -> keystate SDL_SCANCODE_S = false ->
  keystate SDL_SCANCODE_A = false -> keystate SDL_SCANCODE_D = false ->
  F32.le (F32.lit 1 1) (x player) = true ->
  F32.le (x player) (F32.of_int (Z.of_nat World.WORLD_WIDTH - 2)) = true ->
  F32.le (F32.lit 1 1) (y player) = true ->
  F32.le (y player) (F32.of_int (Z.of_nat World.WORLD_HEIGHT - 2)) = true ->
  let p' := (HandlePlayerMovement player keystate deltaTime world currentTime statics).1 in
  x p' = x player /\ y p' = y player.
Proof.
  intros HW HS HA HD Hx1 Hx2 Hy1 Hy2 p'. subst p'.
  destruct (HandlePlayerMovement_position player keystate deltaTime world currentTime statics)
    as [-> ->].
  unfold keep_in_bounds, move_keys. rewrite HW, HS, HA, HD. cbn [x y set_x set_y].
  split; by apply max_min_inside.
Qed.

(** X4: a player in the air (jumping on entry, or taking off in this call)
    never ends the call below the terrain under it; and if the call ends the
    jump, the player stands exactly at the terrain height with no vertical
    speed. *)
Theorem jumper_not_below_terrain player keystate deltaTime world currentTime statics :
  isJumping player || keystate SDL_SCANCODE_SPACE = true ->
  let p' := (HandlePlayerMovement player keystate deltaTime world currentTime statics).1 in
  F32.lt (elevation p') (terrainHeight world p') = false /\
  (isJumping p' = false ->
     elevation p' = terrainHeight world p' /\ velocityZ p' = F32.of_int 0).
Proof.
  intros Hj p'. subst p'. unfold HandlePlayerMovement. cbn [fst].
  set (p1 := keep_in_bounds _).
  set (p2 := follow_terrain _ _ world p1).
  set (p3 := start_jump keystate p2).
  assert (isJumping p3 = true) as Hj3.
  { subst p3. destruct (start_jump_frame keystate p2) as (_ & _ & _ & ->).
    subst p2. destruct (follow_terrain_frame (x player) (y player) world p1)
      as (_ & _ & -> & _).
    subst p1. by destruct (horizontal_frame keystate (PLAYER_SPEED * deltaTime * F32.lit 5 1)
                             player) as (-> & _). }
  unfold fall. rewrite Hj3.
  set (q := set_elevation _ (set_velocityZ _ p3)).
  destruct (elevation q <=? terrainHeight world q) eqn:E.
  - cbn [elevation velocityZ isJumping set_isJumping set_velocityZ set_elevation].
    rewrite (terrainHeight_frame world (set_isJumping false _) q) by done.
    split; [apply lt_irrefl|done].
  - split.
    + destruct (F32.lt (elevation q) (terrainHeight world q)) eqn:E2; [|done].
      apply lt_le in E2. congruence.
    + subst q. cbn [isJumping set_elevation set_velocityZ]. congruence.
Qed.

(** X5: a player on the ground that does not jump, and whose elevation is
    the height of the terrain where the move ends, keeps that elevation bit
    for bit and stays on the ground. *)
Theorem grounded_player_rests player keystate deltaTime world currentTime statics :
  isJumping player = false -> keystate SDL_SCANCODE_SPACE = false ->
  let p' := (HandlePlayerMovement player keystate deltaTime world currentTime statics).1 in
  finite (elevation player) = true ->
  elevation player = terrainHeight world p' ->
  elevation p' = elevation player /\ isJumping p' = false.
Proof.
  intros Hj Hs p' Hf He.
  assert (terrainHeight world p'
          = terrainHeight world
              (keep_in_bounds
                 (move_keys keystate (PLAYER_SPEED * deltaTime * F32.lit 5 1) player))) as Ht.
  { subst p'. apply terrainHeight_frame;
      by destruct (HandlePlayerMovement_position player keystate deltaTime world
                     currentTime statics). }
  rewrite Ht in He. clear Ht. subst p'. unfold HandlePlayerMovement. cbn [fst].
  set (p1 := keep_in_bounds _) in *.
  assert (isJumping p1 = false /\ elevation p1 = elevation player) as [Hj1 He1].
  { subst p1. destruct (horizontal_frame keystate (PLAYER_SPEED * deltaTime * F32.lit 5 1)
                          player) as (-> & -> & _). done. }
  assert (elevation (follow_terrain (x player) (y player) world p1) = elevation player
          /\ isJumping (follow_terrain (x player) (y player) world p1) = false) as [He2 Hj2].
  { unfold follow_terrain. unfold terrainHeight in He.
    destruct (in_world _ _); [|done].
    cbn [andb]. rewrite Hj1. cbn [negb elevation set_elevation isJumping].
    split; [|done]. rewrite He1, <- He, sub_self by done.
    change (F32.zero * F32.lit 2 10) with F32.zero.
    apply add_zero_r; [done|]. rewrite He. apply of_int_not_neg_zero. }
  set (p2 := follow_terrain _ _ world p1) in *.
  unfold start_jump. rewrite Hs. cbn [andb]. unfold fall. by rewrite Hj2.
Qed.

End Movement.

(* ===================================================================== *)
(** * Truncation of binary32 values to [int] *)
(* ===================================================================== *)

Section Truncation.

Local Open Scope Z_scope.

(** The mantissa of a binary32 value has at most 24 bits, and exactly 24
    unless the exponent is the smallest one. *)
Lemma valid_finite_shape (s : bool) (m : positive) (e : Z) :
  F32.valid (S754_finite s m e) = true ->
  Zpos m < 2 ^ 24 /\ -149 <= e <= 104 /\ (2 ^ 23 <= Zpos m \/ e = -149).
Proof.
  intros Hv. unfold F32.valid, valid_binary, bounded, canonical_mantissa in Hv.
  apply andb_true_iff in Hv as [Hc Hb]. apply Z.eqb_eq in Hc. apply Z.leb_le in Hb.
  unfold fexp, emin, F32.prec, F32.emax in Hc. unfold F32.prec, F32.emax in Hb.
  pose proof (digits2_bounds m) as [B1 B2].
  assert (Zpos (digits2_pos m) <= 24) as Hd by lia.
  assert (2 ^ Zpos (digits2_pos m) <= 2 ^ 24) by (apply Z.pow_le_mono_r; lia).
  split; [lia|]. split; [lia|].
  destruct (Z.eq_dec (Zpos (digits2_pos m)) 24) as [E|N]; [|right; lia].
  left. rewrite E in B1. exact B1.
Qed.

(** Truncating a positive value with a negative exponent divides the
    mantissa. *)
Lemma to_int_shift (m : positive) (e : Z) :
  Zpos m < 2 ^ 24 -> e < 0 ->
  F32.to_int (S754_finite false m e) = Zpos m / 2 ^ (- e).
Proof.
  intros Hm He. unfold F32.to_int. cbn [cond_Zopp].
  rewrite (proj2 (Z.leb_gt 0 e)) by lia.
  assert (0 < 2 ^ (- e)) by (apply Z.pow_pos_nonneg; lia).
  rewrite Z.quot_div_nonneg by lia.
  assert (0 <= Zpos m / 2 ^ (- e) <= Zpos m) as [H1 H2].
  { split; [apply Z.div_pos; lia|]. apply Z.div_le_upper_bound; [lia|]. nia. }
  unfold F32.INT_MIN, F32.INT_MAX.
  rewrite (proj2 (Z.leb_le _ _)), (proj2 (Z.leb_le _ _)); [done|lia|lia].
Qed.

(** A binary32 value between [1.0f] and [126.0f] truncates to an integer
    between 1 and 126. *)
Lemma to_int_in_margin (v : f32) :
  F32.valid v = true ->
  F32.le (F32.lit 1 1) v = true -> F32.le v (F32.of_int 126) = true ->
  1 <= F32.to_int v <= 126.
Proof.
  intros Hv H1 H2.
  apply le_spec in H1 as (_ & _ & H1). apply le_spec in H2 as (_ & _ & H2).
  change (rank (F32.lit 1 1)) with (1, -23, 8388608) in H1.
  change (rank (F32.of_int 126)) with (1, -17, 16515072) in H2.
  destruct v as [s|[]| |[] m e]; try done.
  apply valid_finite_shape in Hv as (Hm & He & Hn).
  cbn [rank] in H1, H2. unfold lex3 in H1, H2. change (1 ?= 1) with Eq in H1, H2.
  cbv iota in H1, H2.
  assert (-23 <= e <= -17 /\ (e = -23 -> 8388608 <= Zpos m)
          /\ (e = -17 -> Zpos m <= 16515072)) as (Hr & Hlo & Hhi).
  { destruct (Z.compare_spec (-23) e), (Z.compare_spec e (-17)); try done;
      (split; [lia|]); split; intros ?; try lia;
      first [ destruct (Z.compare_spec 8388608 (Zpos m)); first [lia|congruence]
            | destruct (Z.compare_spec (Zpos m) 16515072); first [lia|congruence] ]. }
  rewrite to_int_shift by lia.
  assert (2 ^ 23 <= Zpos m) as Hn' by lia. clear Hn H1 H2.
  assert (e = -23 \/ e = -22 \/ e = -21 \/ e = -20 \/ e = -19 \/ e = -18 \/ e = -17)
    as Hcases by lia.
  change (2 ^ 23) with 8388608 in Hn'. change (2 ^ 24) with 16777216 in Hm.
  destruct Hcases as [->|[->|[->|[->|[->|[->| ->]]]]]];
    try specialize (Hlo eq_refl); try specialize (Hhi eq_refl);
    match goal with |- context [2 ^ ?k] =>
      let c := eval vm_compute in (2 ^ k) in change (2 ^ k) with c
    end;
    Z.to_euclidean_division_equations; lia.
Qed.

(** A binary32 value from [50.0f] up to, and not including, [70.0f]
    truncates to an integer from 50 to 69. *)
Lemma to_int_in_mountain_band (v : f32) :
  F32.valid v = true ->
  F32.lt v World.HILLS_LEVEL = false -> F32.lt v World.MOUNTAIN_LEVEL = true ->
  50 <= F32.to_int v <= 69.
Proof.
  intros Hv H1 H2.
  assert (F32.le World.HILLS_LEVEL v = true) as H1'.
  { apply not_lt_le; [done| |done]. by apply lt_not_nan in H2 as [? _]. }
  clear H1. apply le_spec in H1' as (_ & _ & H1). apply lt_spec in H2 as (_ & _ & H2).
  change (rank World.HILLS_LEVEL) with (1, -18, 13107200) in H1.
  change (rank World.MOUNTAIN_LEVEL) with (1, -17, 9175040) in H2.
  destruct v as [s|[]| |[] m e]; try done.
  apply valid_finite_shape in Hv as (Hm & He & Hn).
  cbn [rank] in H1, H2. unfold lex3 in H1, H2. change (1 ?= 1) with Eq in H1, H2.
  cbv iota in H1, H2.
  assert (-18 <= e <= -17 /\ (e = -18 -> 13107200 <= Zpos m)
          /\ (e = -17 -> Zpos m < 9175040)) as (Hr & Hlo & Hhi).
  { destruct (Z.compare_spec (-18) e), (Z.compare_spec e (-17)); try done;
      (split; [lia|]); split; intros ?; try lia;
      first [ destruct (Z.compare_spec 13107200 (Zpos m)); first [lia|congruence]
            | destruct (Z.compare_spec (Zpos m) 9175040); first [lia|congruence] ]. }
  rewrite to_int_shift by lia.
  assert (2 ^ 23 <= Zpos m) as Hn' by lia. clear Hn H1 H2.
  change (2 ^ 23) with 8388608 in Hn'. change (2 ^ 24) with 16777216 in Hm.
  assert (e = -18 \/ e = -17) as [-> | ->] by lia;
    try specialize (Hlo eq_refl); try specialize (Hhi eq_refl);
    match goal with |- context [2 ^ ?k] =>
      let c := eval vm_compute in (2 ^ k) in change (2 ^ k) with c
    end;
    Z.to_euclidean_division_equations; lia.
Qed.

End Truncation.

(* ===================================================================== *)
(** * More on the terrain passes *)
(* ===================================================================== *)

Section Terrain.

Import World.
Local Open Scope f32_scope.

Lemma lt_trans a b c : F32.lt a b = true -> F32.lt b c = true -> F32.lt a c = true.
Proof. intros H1 H2. apply (lt_le_trans a b c H1). by apply lt_le. Qed.

Lemma min_r_not_above a b : F32.lt b (F32.min a b) = false.
Proof. unfold F32.min. destruct (F32.lt b a) eqn:E; [apply lt_irrefl|done]. Qed.

Lemma set_elevation_same (data : TerrainData) : set_elevation (elevation data) data = data.
Proof. by destruct data. Qed.

Lemma min_absorb a b : F32.lt b a = false -> F32.min a b = a.
Proof. unfold F32.min. by intros ->. Qed.

(** The biome of an elevation is walkable in one band of elevations. *)
Lemma walkable_by_elevation (e m : f32) :
  walkable (biome_props (DetermineBiome e m))
  = negb (e <? WATER_LEVEL) && (e <? HILLS_LEVEL).
Proof.
  assert (forall c1 c2, F32.lt c1 c2 = true -> F32.lt e c1 = true -> F32.lt e c2 = true)
    as Hup by (intros c1 c2 Hc He; by apply (lt_trans e c1 c2)).
  unfold DetermineBiome.
  destruct (e <? WATER_LEVEL - F32.lit 5 1) eqn:E1.
  { by rewrite (Hup (WATER_LEVEL - F32.lit 5 1) WATER_LEVEL eq_refl E1). }
  destruct (e <? WATER_LEVEL) eqn:E2; [done|].
  destruct (e <? BEACH_LEVEL) eqn:E3.
  { by rewrite (Hup BEACH_LEVEL HILLS_LEVEL eq_refl E3). }
  destruct (e <? PLAINS_LEVEL) eqn:E4.
  { rewrite (Hup PLAINS_LEVEL HILLS_LEVEL eq_refl E4).
    by destruct (m <? F32.lit 3 10), (m <? F32.lit 6 10). }
  destruct (e <? HILLS_LEVEL) eqn:E5; [by destruct (m <? F32.lit 4 10)|].
  by destruct (e <? MOUNTAIN_LEVEL).
Qed.

(** X6: walkability depends on the elevation alone.  The properties
    [CreateBiomeProperties] holds for the biome [DetermineBiome] returns say
    walkable exactly when the elevation is not below [WATER_LEVEL] and is
    below [HILLS_LEVEL]; the lookup never misses. *)
Theorem walkable_band (e m : f32) :
  walkable <$> (CreateBiomeProperties !! DetermineBiome e m)
  = Some (negb (e <? WATER_LEVEL) && (e <? HILLS_LEVEL)).
Proof.
  rewrite biome_props_lookup. cbn [fmap option_fmap option_map]. f_equal.
  apply walkable_by_elevation.
Qed.

(** X7: a NaN is classified without a test ever holding.  A NaN elevation
    falls through every band to [SNOW_CAPS], which is not walkable; a NaN
    moisture counts as wet: [FOREST] in the plains and in the hills band. *)
Theorem DetermineBiome_nan (e m : f32) :
  DetermineBiome S754_nan m = SNOW_CAPS /\
  walkable <$> (CreateBiomeProperties !! DetermineBiome S754_nan m) = Some false /\
  (F32.le BEACH_LEVEL e = true -> F32.lt e HILLS_LEVEL = true ->
     DetermineBiome e S754_nan = FOREST).
Proof.
  split; [reflexivity|]. split; [reflexivity|]. intros H1 H2.
  unfold DetermineBiome.
  assert (forall c, F32.le c BEACH_LEVEL = true -> F32.lt e c = false) as Hlow.
  { intros c Hc. apply le_not_lt. by apply (le_trans c BEACH_LEVEL e). }
  rewrite (Hlow (WATER_LEVEL - F32.lit 5 1) eq_refl), (Hlow WATER_LEVEL eq_refl),
    (Hlow BEACH_LEVEL eq_refl).
  destruct (e <? PLAINS_LEVEL); [reflexivity|]. by rewrite H2.
Qed.

(** X8: pass 2 is idempotent on every cell, and so on the whole grid:
    carving a second time changes nothing. *)
Theorem pass2_idempotent (h w : nat) (terrainData : grid TerrainData) (y x : nat) :
  grid_dims h w terrainData -> (y < h)%nat -> (x < w)%nat ->
  carve (carve (grid_get terrainData y x)) = carve (grid_get terrainData y x) /\
  grid_get (pass2 h w (pass2 h w terrainData)) y x
  = grid_get (pass2 h w terrainData) y x.
Proof.
  intros Hd Hy Hx.
  assert (forall data, carve (carve data) = carve data) as Hidem.
  { clear. intros data.
    destruct (carve_keeps data) as (Hm & Hr & _).
    rewrite (carve_effective (carve data)). cbn zeta. rewrite Hr.
    set (L := WATER_LEVEL - _ * F32.lit 5 1).
    set (c := WATER_LEVEL - F32.lit 2 1).
    assert (F32.lt L (elevation (carve data)) = false
            \/ (riverValue data >? RIVER_THRESHOLD) = false) as HL.
    { rewrite carve_effective. cbn zeta. fold L c.
      destruct (riverValue data >? RIVER_THRESHOLD) eqn:R; [left|by right].
      cbn [elevation set_elevation moisture].
      destruct (_ && _); cbn [elevation set_elevation]; [|apply min_r_not_above].
      unfold F32.min at 1. destruct (F32.lt c _) eqn:C; [|apply min_r_not_above].
      destruct (F32.lt L c) eqn:LC; [|done].
      pose proof (lt_trans _ _ _ LC C) as H.
      by rewrite min_r_not_above in H. }
    assert ((elevation (carve data) <? WATER_LEVEL + F32.lit 5 1)
            && (moisture data >? F32.lit 7 10) = true ->
            F32.lt c (elevation (carve data)) = false) as Hc.
    { rewrite carve_effective. cbn zeta. fold L c.
      set (d1 := if riverValue data >? RIVER_THRESHOLD then _ else data).
      assert (moisture d1 = moisture data) as ->
        by (subst d1; by destruct (riverValue data >? RIVER_THRESHOLD)).
      destruct ((elevation d1 <? WATER_LEVEL + F32.lit 5 1)
                && (moisture data >? F32.lit 7 10)) eqn:K.
      - intros _. cbn [elevation set_elevation]. apply min_r_not_above.
      - intros K'. congruence. }
    assert ((if riverValue data >? RIVER_THRESHOLD
             then set_elevation (F32.min (elevation (carve data)) L) (carve data)
             else carve data) = carve data) as ->.
    { destruct HL as [HL| ->]; [|done].
      destruct (riverValue data >? RIVER_THRESHOLD); [|done].
      by rewrite (min_absorb _ _ HL), set_elevation_same. }
    rewrite Hm. destruct (_ && _) eqn:K; [|done].
    by rewrite (min_absorb _ _ (Hc eq_refl)), set_elevation_same. }
  split; [apply Hidem|].
  rewrite (pass2_cell h w) by (by try apply pass2_dims).
  by rewrite (pass2_cell h w), Hidem by done.
Qed.

(** Pass 3 leaves a cell that pass 2 put below the water table as it
    is, and pass 4 makes it a water tile. *)
Lemma submerged_cell_ends_as_water variation (h w : nat) (raw : grid TerrainData)
    (y x : nat) :
  grid_dims h w raw -> (y < h)%nat -> (x < w)%nat ->
  F32.lt (elevation (carve (grid_get raw y x))) WATER_LEVEL = true ->
  exists world,
    finish_world variation h w raw = Some world /\
    elevation (grid_get (pass3 h w (pass2 h w raw)) y x)
      = elevation (carve (grid_get raw y x)) /\
    tile_elevation (grid_get world y x)
      = F32.to_int (elevation (carve (grid_get raw y x))) /\
    tile_walkable (grid_get world y x) = false.
Proof.
  intros Hd Hy Hx Hlt.
  assert (grid_dims h w (pass2 h w raw)) as Hd2 by (by apply pass2_dims).
  assert (elevation (grid_get (pass3 h w (pass2 h w raw)) y x)
          = elevation (carve (grid_get raw y x))) as Hfinal.
  { rewrite (pass3_elevation h w) by done. cbn zeta.
    rewrite (pass2_cell h w) by done. by rewrite (lt_le _ _ Hlt). }
  destruct (finish_world_tiles variation h w raw Hd) as (world & E & _ & Hc).
  exists world. split; [exact E|]. split; [exact Hfinal|].
  rewrite Hc by done. cbn [finalized snd tile_elevation tile_walkable].
  split; [by rewrite Hfinal|].
  apply below_water_is_water. by rewrite Hfinal.
Qed.

(** X9: the lake rule.  A wet cell ([moisture > 0.7f]) that enters pass 2
    below [WATER_LEVEL + 5] leaves it at or below [WATER_LEVEL - 2], pass 3
    does not move it, and its tile is not walkable. *)
Theorem wet_lowland_ends_as_water variation (h w : nat) (raw : grid TerrainData)
    (y x : nat) :
  grid_dims h w raw -> (y < h)%nat -> (x < w)%nat ->
  F32.lt (elevation (grid_get raw y x)) (WATER_LEVEL + F32.lit 5 1) = true ->
  F32.gt (moisture (grid_get raw y x)) (F32.lit 7 10) = true ->
  exists world,
    finish_world variation h w raw = Some world /\
    F32.le (elevation (grid_get (pass2 h w raw) y x)) (WATER_LEVEL - F32.lit 2 1) = true /\
    elevation (grid_get (pass3 h w (pass2 h w raw)) y x)
      = elevation (grid_get (pass2 h w raw) y x) /\
    tile_walkable (grid_get world y x) = false.
Proof.
  intros Hd Hy Hx He Hm. set (data := grid_get raw y x) in *.
  assert (F32.le (elevation (carve data)) (WATER_LEVEL - F32.lit 2 1) = true) as Hle.
  { rewrite carve_effective. cbn zeta. set (L := WATER_LEVEL - _ * F32.lit 5 1).
    set (d1 := if riverValue data >? RIVER_THRESHOLD then _ else data).
    assert (moisture d1 = moisture data) as Hm1
      by (subst d1; by destruct (riverValue data >? RIVER_THRESHOLD)).
    assert (F32.lt (elevation d1) (WATER_LEVEL + F32.lit 5 1) = true) as He1.
    { subst d1. destruct (riverValue data >? RIVER_THRESHOLD); [|done].
      cbn [elevation set_elevation]. unfold F32.min.
      destruct (F32.lt L (elevation data)) eqn:E; [|done].
      by apply (lt_trans _ (elevation data)). }
    rewrite Hm1, He1. unfold F32.gt in Hm. unfold F32.gt. rewrite Hm. cbn [andb].
    cbn [elevation set_elevation]. apply min_le_r; [|done].
    by apply lt_not_nan in He1 as [? _]. }
  assert (F32.lt (elevation (carve data)) WATER_LEVEL = true) as Hlt
    by (by apply (le_lt_trans _ (WATER_LEVEL - F32.lit 2 1))).
  destruct (submerged_cell_ends_as_water variation h w raw y x Hd Hy Hx Hlt)
    as (world & E & Hfinal & _ & Hwalk).
  exists world. split; [exact E|].
  rewrite (pass2_cell h w) by done. by fold data.
Qed.

Lemma sized_tiles_follow_elevation std_shuffle std_pow variation (h w : nat)
    (st : Noise.NoiseState) :
  exists world,
    GenerateWorld_sized std_shuffle std_pow variation h w st = Some world /\
    forall y x, (y < h)%nat -> (x < w)%nat ->
      let raw := raw_terrain std_shuffle std_pow h w st in
      let data := grid_get (pass3 h w (pass2 h w raw)) y x in
      moisture data = moisture (grid_get raw y x) /\
      riverValue data = riverValue (grid_get raw y x) /\
      biome data = biome (grid_get raw y x) /\
      tile_elevation (grid_get world y x) = F32.to_int (elevation data) /\
      tile_walkable (grid_get world y x)
        = negb (elevation data <? WATER_LEVEL) && (elevation data <? HILLS_LEVEL).
Proof.
  destruct (GenerateWorld_sized_tiles std_shuffle std_pow variation h w st)
    as (world & E & _ & Hc).
  exists world. split; [exact E|]. intros y x Hy Hx raw data.
  assert (grid_dims h w raw) as Hd by apply raw_terrain_dims.
  assert (data = set_elevation (elevation data) (carve (grid_get raw y x))) as Hdata.
  { subst data. rewrite (pass3_cell h w) by (by try apply pass2_dims).
    by rewrite (pass2_cell h w) by done. }
  destruct (carve_keeps (grid_get raw y x)) as (Hm & Hr & Hb).
  specialize (Hc y x Hy Hx). fold raw in Hc. fold data in Hc.
  clearbody data. clearbody raw. rewrite Hc. clear Hc E Hd.
  cbn [finalized snd tile_elevation tile_walkable].
  pose proof (walkable_by_elevation (elevation data) (moisture data)) as Hw.
  rewrite Hdata at 1 2 3. cbn [moisture riverValue biome set_elevation].
  repeat (split; [assumption|]). split; [reflexivity|exact Hw].
Qed.

(** X10: between pass 1 and the tile, only the elevation of a cell moves.
    Passes 2 and 3 keep its moisture, river value and biome field; the tile
    of [GenerateWorld] holds the truncated elevation that pass 3 leaves, and
    it is walkable exactly when that elevation is in the band from
    [WATER_LEVEL] up to [HILLS_LEVEL]. *)
Theorem GenerateWorld_tiles_follow_elevation std_shuffle std_pow variation
    (st : Noise.NoiseState) :
  exists world,
    GenerateWorld std_shuffle std_pow variation st = Some world /\
    forall y x, (y < WORLD_HEIGHT)%nat -> (x < WORLD_WIDTH)%nat ->
      let raw := raw_terrain std_shuffle std_pow WORLD_HEIGHT WORLD_WIDTH st in
      let data := grid_get (pass3 WORLD_HEIGHT WORLD_WIDTH
                              (pass2 WORLD_HEIGHT WORLD_WIDTH raw)) y x in
      moisture data = moisture (grid_get raw y x) /\
      riverValue data = riverValue (grid_get raw y x) /\
      biome data = biome (grid_get raw y x) /\
      tile_elevation (grid_get world y x) = F32.to_int (elevation data) /\
      tile_walkable (grid_get world y x)
        = negb (elevation data <? WATER_LEVEL) && (elevation data <? HILLS_LEVEL).
Proof.
  destruct (sized_tiles_follow_elevation std_shuffle std_pow variation
              WORLD_HEIGHT WORLD_WIDTH st) as (world & E & H).
  exists world. split; [exact E|exact H].
Qed.

End Terrain.

(* ===================================================================== *)
(** * More on the noise functions *)
(* ===================================================================== *)

Section Noise_tables.

Import Noise.
Local Open Scope f32_scope.

Variable std_shuffle : Z -> list Z -> list Z.
Hypothesis shuffle_permutes : forall seed l, std_shuffle seed l ≡ₚ l.

Lemma land_255_range (a : Z) : (0 <= Z.land a 255 <= 255)%Z.
Proof.
  change (Z.land a 255) with (Z.land a (Z.ones 8)). rewrite Z.land_ones by lia.
  pose proof (Z.mod_pos_bound a (2 ^ 8)). lia.
Qed.

(** In every state the statics can be in, the table has 512 entries, all
    of them between 0 and 255. *)
Lemma reachable_table st :
  reachable std_shuffle st ->
  length (p st) = 512%nat /\ Forall (fun v => 0 <= v <= 255)%Z (p st).
Proof.
  intros Hr. split; [by apply (reachable_length std_shuffle)|].
  destruct (reachable_coherent std_shuffle shuffle_permutes st Hr) as [->|Hc].
  - by apply Forall_replicate.
  - rewrite Hc. unfold seeded_table.
    assert (Forall (fun v => 0 <= v <= 255)%Z (std_shuffle (lastSeed st) permutation)) as H.
    { rewrite shuffle_permutes. unfold permutation.
      apply (bool_decide_unpack _). by vm_compute. }
    by apply Forall_app.
Qed.

Lemma at_table (t : list Z) (i : Z) :
  length t = 512%nat -> Forall (fun v => 0 <= v <= 255)%Z t -> (0 <= i < 512)%Z ->
  at_ t i = Some (t !!! Z.to_nat i) /\ (0 <= t !!! Z.to_nat i <= 255)%Z.
Proof.
  intros Hl Hf Hi. unfold at_. rewrite (proj2 (Z.ltb_ge i 0)) by lia.
  destruct (lookup_lt_is_Some_2 t (Z.to_nat i)) as [v Hv]; [lia|].
  rewrite (list_lookup_total_correct _ _ _ Hv). split; [done|].
  by apply (Forall_lookup_1 _ _ _ _ Hf Hv).
Qed.

(** X11: [PerlinNoise] never reads outside its table.  In every state the
    statics can be in, each of the ten subscripts of a call is within the 512
    entries of [p], so the call returns the value the unchecked reading
    gives. *)
Theorem PerlinNoise_reads_in_bounds st x y seed :
  reachable std_shuffle st ->
  let st' := snd (PerlinNoise std_shuffle x y seed st) in
  noise_at_checked (p st') x y = Some (fst (PerlinNoise std_shuffle x y seed st)).
Proof.
  intros Hr st'.
  assert (reachable std_shuffle st') as Hr' by (by apply reachable_call).
  destruct (reachable_table st' Hr') as [Hl Hf].
  change (fst (PerlinNoise std_shuffle x y seed st)) with (noise_at (p st') x y).
  generalize dependent (p st'). clear. intros t Hl Hf.
  unfold noise_at_checked, noise_at.
  set (X := Z.land (F32.to_int (F32.floor x)) 255).
  set (Y := Z.land (F32.to_int (F32.floor y)) 255).
  pose proof (land_255_range (F32.to_int (F32.floor x))) as HX. fold X in HX.
  pose proof (land_255_range (F32.to_int (F32.floor y))) as HY. fold Y in HY.
  assert (forall i, (0 <= i < 512)%Z ->
            at_ t i = Some (t !!! Z.to_nat i) /\ (0 <= t !!! Z.to_nat i <= 255)%Z) as Hat
    by (intros i Hi; by apply at_table).
  destruct (Hat X) as [-> H1]; [lia|]. cbn [mbind option_bind].
  destruct (Hat (t !!! Z.to_nat X + Y)%Z) as [-> H2]; [lia|]. cbn [mbind option_bind].
  destruct (Hat (t !!! Z.to_nat X + Y + 1)%Z) as [-> H3]; [lia|]. cbn [mbind option_bind].
  destruct (Hat (X + 1)%Z) as [-> H4]; [lia|]. cbn [mbind option_bind].
  destruct (Hat (t !!! Z.to_nat (X + 1) + Y)%Z) as [-> H5]; [lia|]. cbn [mbind option_bind].
  destruct (Hat (t !!! Z.to_nat (X + 1) + Y + 1)%Z) as [-> H6]; [lia|].
  cbn [mbind option_bind].
  destruct (Hat (t !!! Z.to_nat (t !!! Z.to_nat X + Y))) as [-> _]; [lia|].
  cbn [mbind option_bind].
  destruct (Hat (t !!! Z.to_nat (t !!! Z.to_nat (X + 1) + Y))) as [-> _]; [lia|].
  cbn [mbind option_bind].
  destruct (Hat (t !!! Z.to_nat (t !!! Z.to_nat X + Y + 1))) as [-> _]; [lia|].
  cbn [mbind option_bind].
  destruct (Hat (t !!! Z.to_nat (t !!! Z.to_nat (X + 1) + Y + 1))) as [-> _]; [lia|].
  cbn [mbind option_bind]. reflexivity.
Qed.

(** X12: on every seed but the sentinel [-1], the value of [PerlinNoise]
    does not depend on the calls made before: from any two states the
    statics can be in, the same arguments give the same value, the one the
    older copy that shuffles on every call computes. *)
Theorem PerlinNoise_history_independent st1 st2 x y seed :
  reachable std_shuffle st1 -> reachable std_shuffle st2 -> seed <> (-1)%Z ->
  fst (PerlinNoise std_shuffle x y seed st1) = fst (PerlinNoise std_shuffle x y seed st2) /\
  fst (PerlinNoise std_shuffle x y seed st1) = PerlinNoise_monolithic std_shuffle x y seed.
Proof.
  intros H1 H2 Hs.
  destruct (PerlinNoise_pure std_shuffle shuffle_permutes st1 x y seed H1 Hs) as [E1 E1'].
  destruct (PerlinNoise_pure std_shuffle shuffle_permutes st2 x y seed H2 Hs) as [E2 _].
  split; [congruence|exact E1'].
Qed.

Lemma octave_state x y persistence seed (l : Layers) st i :
  snd (octave std_shuffle x y persistence seed (l, st) i)
  = snd (PerlinNoise std_shuffle (x * frequency l) (y * frequency l) (seed + i) st).
Proof. reflexivity. Qed.

Lemma PerlinNoise_lastSeed x y seed st :
  lastSeed (snd (PerlinNoise std_shuffle x y seed st)) = seed.
Proof.
  cbn [snd PerlinNoise]. unfold reseed.
  destruct (seed =? lastSeed st)%Z eqn:E; [|done]. by apply Z.eqb_eq in E.
Qed.

Lemma octaves_state x y persistence seed (k : nat) (m : Z) (acc : Layers * NoiseState) :
  reachable std_shuffle acc.2 ->
  let acc' := foldl (octave std_shuffle x y persistence seed) acc
                    (seqZ m (Z.of_nat (S k))) in
  reachable std_shuffle acc'.2 /\ lastSeed acc'.2 = (seed + m + Z.of_nat k)%Z.
Proof.
  revert m acc. induction k as [|k IH]; intros m [l st] Hr acc'; subst acc'.
  - change (seqZ m (Z.of_nat 1)) with [m]. cbn [foldl]. rewrite octave_state.
    split; [by apply reachable_call|]. rewrite PerlinNoise_lastSeed. lia.
  - rewrite seqZ_cons by lia. cbn [foldl].
    replace (Z.pred (Z.of_nat (S (S k)))) with (Z.of_nat (S k)) by lia.
    destruct (octave std_shuffle x y persistence seed (l, st) m) as [l1 st1] eqn:E.
    assert (reachable std_shuffle st1) as Hr1.
    { replace st1 with (snd (octave std_shuffle x y persistence seed (l, st) m))
        by (by rewrite E).
      rewrite octave_state. by apply reachable_call. }
    destruct (IH (Z.succ m) (l1, st1) Hr1) as [H1 H2]. split; [exact H1|].
    rewrite H2. lia.
Qed.

(** X13: [LayeredNoise] leaves the cache on the seed of its last octave.
    With at least one octave the statics end with [lastSeed = seed + octaves
    - 1] and, unless that seed is the sentinel [-1], with the table of that
    seed: each octave asks for its own seed, so a call of two octaves or more
    shuffles again at every octave. *)
Theorem LayeredNoise_leaves_last_octave x y octaves persistence scale seed st :
  reachable std_shuffle st -> (1 <= octaves)%Z ->
  let st' := snd (LayeredNoise std_shuffle x y octaves persistence scale seed st) in
  reachable std_shuffle st' /\
  lastSeed st' = (seed + octaves - 1)%Z /\
  ((seed + octaves - 1)%Z <> (-1)%Z ->
     p st' = seeded_table std_shuffle (seed + octaves - 1)).
Proof.
  intros Hr Ho st'.
  assert (st' = (octaves_loop std_shuffle x y octaves persistence scale seed st).2) as ->.
  { subst st'. unfold LayeredNoise. by destruct (octaves_loop _ _ _ _ _ _ _ _). }
  unfold octaves_loop.
  pose proof (octaves_state x y persistence seed (Z.to_nat (octaves - 1)) 0
                ({| amplitude := F32.lit 1 1; frequency := scale;
                    total := F32.lit 0 1; maxValue := F32.lit 0 1 |}, st) Hr) as H.
  replace (Z.of_nat (S (Z.to_nat (octaves - 1)))) with octaves in H by lia.
  cbn zeta in H. destruct H as [H1 H2].
  split; [exact H1|]. split; [rewrite H2; lia|].
  intros Hs. destruct (reachable_coherent std_shuffle shuffle_permutes _ H1) as [Hi|Hc].
  - rewrite Hi in H2. cbn [lastSeed initial] in H2. lia.
  - rewrite Hc, H2. f_equal. lia.
Qed.

Lemma octaves_fold_agree x y persistence seed (steps : list Z) (l : Layers) st :
  reachable std_shuffle st -> (forall i, i ∈ steps -> (seed + i)%Z <> (-1)%Z) ->
  (foldl (octave std_shuffle x y persistence seed) (l, st) steps).1
  = foldl (fun l i =>
             {| total := total l
                         + PerlinNoise_monolithic std_shuffle (x * frequency l)
                             (y * frequency l) (seed + i) * amplitude l;
                maxValue := maxValue l + amplitude l;
                amplitude := amplitude l * persistence;
                frequency := frequency l * F32.lit 2 1 |}) l steps.
Proof.
  revert l st. induction steps as [|i steps IH]; intros l st Hr Hs; [done|].
  cbn [foldl].
  destruct (PerlinNoise_pure std_shuffle shuffle_permutes st (x * frequency l)
              (y * frequency l) (seed + i) Hr) as [_ E]; [apply Hs; by left|].
  assert (octave std_shuffle x y persistence seed (l, st) i
          = ({| total := total l
                         + PerlinNoise_monolithic std_shuffle (x * frequency l)
                             (y * frequency l) (seed + i) * amplitude l;
                maxValue := maxValue l + amplitude l;
                amplitude := amplitude l * persistence;
                frequency := frequency l * F32.lit 2 1 |},
             snd (PerlinNoise std_shuffle (x * frequency l) (y * frequency l)
                    (seed + i) st))) as ->.
  { rewrite <- E. reflexivity. }
  apply IH; [by apply reachable_call|]. intros j Hj. apply Hs. by right.
Qed.

(** X22: the cached [LayeredNoise] against the older copy of the monolithic
    file, which shuffles on every call and ends in [total / maxValue] with
    no guard.  When no octave asks for the sentinel seed [-1] and the guard
    [maxValue > 0] holds, the two return the same value; with no octave the
    older copy divides zero by zero and returns a NaN, where the cached one
    returns 0. *)
Theorem LayeredNoise_against_monolithic x y octaves persistence scale seed st :
  reachable std_shuffle st ->
  (forall i, (0 <= i < octaves)%Z -> (seed + i)%Z <> (-1)%Z) ->
  let l := fst (octaves_loop std_shuffle x y octaves persistence scale seed st) in
  (F32.gt (maxValue l) (F32.of_int 0) = true ->
     fst (LayeredNoise std_shuffle x y octaves persistence scale seed st)
     = LayeredNoise_monolithic std_shuffle x y octaves persistence scale seed) /\
  ((octaves <= 0)%Z ->
     LayeredNoise_monolithic std_shuffle x y octaves persistence scale seed = S754_nan /\
     fst (LayeredNoise std_shuffle x y octaves persistence scale seed st) = F32.zero).
Proof.
  intros Hr Hs l. split.
  - intros Hg. unfold LayeredNoise, LayeredNoise_monolithic.
    assert (l = foldl (fun l i =>
                {| total := total l
                            + PerlinNoise_monolithic std_shuffle (x * frequency l)
                                (y * frequency l) (seed + i) * amplitude l;
                   maxValue := maxValue l + amplitude l;
                   amplitude := amplitude l * persistence;
                   frequency := frequency l * F32.lit 2 1 |})
              {| amplitude := F32.lit 1 1; frequency := scale;
                 total := F32.lit 0 1; maxValue := F32.lit 0 1 |}
              (seqZ 0 octaves)) as <-.
    { subst l. unfold octaves_loop. apply octaves_fold_agree; [done|].
      intros i Hi. apply Hs. apply elem_of_seqZ in Hi. lia. }
    subst l. destruct (octaves_loop _ _ _ _ _ _ _ _) as [l' st']. cbn [fst] in *.
    by rewrite Hg.
  - intros Ho. split.
    + unfold LayeredNoise_monolithic. by rewrite seqZ_nil.
    + unfold LayeredNoise. by rewrite octaves_loop_none.
Qed.

End Noise_tables.

Section Lattice.

Import Noise.
Local Open Scope f32_scope.

Lemma in_residues (h : Z) : Z.land h 15 ∈ seqZ 0 16.
Proof. apply elem_of_seqZ. pose proof (land_15_range h). lia. Qed.

(** X14: the noise vanishes on the integer lattice.  At a point whose two
    coordinates are whole numbers ([std::floor] returns them unchanged) the
    value read off any table is a zero, whatever the table holds; so is the
    value of [PerlinNoise], for every seed and in every state. *)
Theorem PerlinNoise_zero_on_lattice std_shuffle (x y : f32) (seed : Z) (st : NoiseState) :
  finite x = true -> finite y = true -> F32.floor x = x -> F32.floor y = y ->
  is_zero (fst (PerlinNoise std_shuffle x y seed st)) = true.
Proof.
  intros Hx Hy Fx Fy. cbn [fst PerlinNoise].
  generalize (p (reseed std_shuffle seed st)). intros t.
  unfold noise_at. rewrite Fx, Fy, !sub_self by done.
  change (Fade F32.zero) with F32.zero.
  change (F32.zero - F32.of_int 1) with (F32.of_int (-1)).
  rewrite !Grad_by_table.
  set (h1 := Z.land _ 15). set (h2 := Z.land _ 15).
  set (h3 := Z.land _ 15). set (h4 := Z.land _ 15).
  assert (forallb (fun r1 => forallb (fun r2 =>
            is_zero (Lerp (Grad_table r1 F32.zero F32.zero)
                          (Grad_table r2 (F32.of_int (-1)) F32.zero) F32.zero))
            (seqZ 0 16)) (seqZ 0 16) = true) as HA by (vm_compute; reflexivity).
  assert (forallb (fun z => forallb (fun r3 => forallb (fun r4 =>
            is_zero (Lerp z (Lerp (Grad_table r3 F32.zero (F32.of_int (-1)))
                                  (Grad_table r4 (F32.of_int (-1)) (F32.of_int (-1)))
                                  F32.zero) F32.zero))
            (seqZ 0 16)) (seqZ 0 16)) [S754_zero false; S754_zero true] = true) as HB
    by (vm_compute; reflexivity).
  rewrite forallb_forall in HA. specialize (HA h1 ltac:(apply list_elem_of_In, in_residues)).
  rewrite forallb_forall in HA. specialize (HA h2 ltac:(apply list_elem_of_In, in_residues)).
  remember (Lerp (Grad_table h1 F32.zero F32.zero)
                 (Grad_table h2 (F32.of_int (-1)) F32.zero) F32.zero) as L1 eqn:E.
  destruct L1 as [s|b| |b m e]; [|discriminate HA..].
  rewrite forallb_forall in HB.
  specialize (HB (S754_zero s) ltac:(destruct s; cbn; auto)).
  rewrite forallb_forall in HB. specialize (HB h3 ltac:(apply list_elem_of_In, in_residues)).
  rewrite forallb_forall in HB. by specialize (HB h4 ltac:(apply list_elem_of_In, in_residues)).
Qed.

End Lattice.

(* ===================================================================== *)
(** * The player on the grid *)
(* ===================================================================== *)

Section Player_tile.

Import Player.
Local Open Scope f32_scope.

Lemma keep_in_bounds_range player :
  F32.le (F32.lit 1 1) (x (keep_in_bounds player)) = true /\
  F32.le (x (keep_in_bounds player)) (F32.of_int 126) = true /\
  F32.le (F32.lit 1 1) (y (keep_in_bounds player)) = true /\
  F32.le (y (keep_in_bounds player)) (F32.of_int 126) = true.
Proof.
  unfold keep_in_bounds. cbn [x y set_x set_y].
  split; [|split; [|split]]; by apply max_min_range.
Qed.

(** X15: the tile looked up under the player always exists.  When the
    coordinates the player ends with are binary32 values, they truncate to a
    column and a row between 1 and 126: the test [tileX >= 0 && tileX <
    WORLD_WIDTH && tileY >= 0 && tileY < WORLD_HEIGHT] never fails, and the
    landing height is the elevation of that tile, never the default
    [INITIAL_ELEVATION]. *)
Theorem player_tile_in_world player keystate deltaTime world currentTime statics :
  let p' := (HandlePlayerMovement player keystate deltaTime world currentTime statics).1 in
  F32.valid (x p') = true -> F32.valid (y p') = true ->
  (1 <= F32.to_int (x p') <= 126)%Z /\ (1 <= F32.to_int (y p') <= 126)%Z /\
  in_world (F32.to_int (x p')) (F32.to_int (y p')) = true /\
  terrainHeight world p'
  = F32.of_int (World.tile_elevation
                  (grid_get world (Z.to_nat (F32.to_int (y p')))
                            (Z.to_nat (F32.to_int (x p'))))).
Proof.
  intros p' Hvx Hvy.
  destruct (HandlePlayerMovement_position player keystate deltaTime world currentTime statics)
    as [Ex Ey]. fold p' in Ex, Ey.
  destruct (keep_in_bounds_range
              (move_keys keystate (PLAYER_SPEED * deltaTime * F32.lit 5 1) player))
    as (Hx1 & Hx2 & Hy1 & Hy2).
  rewrite <- Ex in Hx1, Hx2. rewrite <- Ey in Hy1, Hy2.
  pose proof (to_int_in_margin (x p') Hvx Hx1 Hx2) as Hx.
  pose proof (to_int_in_margin (y p') Hvy Hy1 Hy2) as Hy.
  assert (in_world (F32.to_int (x p')) (F32.to_int (y p')) = true) as Hin.
  { unfold in_world. change (Z.of_nat World.WORLD_WIDTH) with 128%Z.
    change (Z.of_nat World.WORLD_HEIGHT) with 128%Z.
    repeat (apply andb_true_iff; split); first [apply Z.leb_le|apply Z.ltb_lt]; lia. }
  split; [exact Hx|]. split; [exact Hy|]. split; [exact Hin|].
  unfold terrainHeight. by rewrite Hin.
Qed.

End Player_tile.

(* ===================================================================== *)
(** * The statistics loop *)
(* ===================================================================== *)

Section Statistics.

Import Stats.
Local Open Scope Z_scope.

Lemma count_tile_sum (tile : World.Tile) (c : Counts) :
  waterTiles (count_tile tile c) + landTiles (count_tile tile c)
  + mountainTiles (count_tile tile c)
  = waterTiles c + landTiles c + mountainTiles c + 1.
Proof.
  unfold count_tile. destruct (F32.lt _ _); [cbn; lia|].
  destruct (F32.gt _ _); cbn; lia.
Qed.

(** X16: the three counters of the statistics loop split the tiles: none is
    counted twice and none is left out, so they add up to the number of
    tiles, and none of them is negative. *)
Theorem count_tiles_partition (h w : nat) (world : grid World.Tile) :
  let c := count_tiles h w world in
  waterTiles c + landTiles c + mountainTiles c = Z.of_nat h * Z.of_nat w /\
  0 <= waterTiles c /\ 0 <= landTiles c /\ 0 <= mountainTiles c.
Proof.
  intros c. subst c. unfold count_tiles, for_cells.
  apply (for_ind (fun y c =>
           waterTiles c + landTiles c + mountainTiles c = Z.of_nat y * Z.of_nat w /\
           0 <= waterTiles c /\ 0 <= landTiles c /\ 0 <= mountainTiles c)).
  - cbn. lia.
  - intros y c Hy (Hs & H1 & H2 & H3).
    assert (waterTiles (for_ w (fun x c => count_tile (grid_get world y x) c) c)
            + landTiles (for_ w (fun x c => count_tile (grid_get world y x) c) c)
            + mountainTiles (for_ w (fun x c => count_tile (grid_get world y x) c) c)
            = waterTiles c + landTiles c + mountainTiles c + Z.of_nat w /\
            0 <= waterTiles (for_ w (fun x c => count_tile (grid_get world y x) c) c) /\
            0 <= landTiles (for_ w (fun x c => count_tile (grid_get world y x) c) c) /\
            0 <= mountainTiles (for_ w (fun x c => count_tile (grid_get world y x) c) c))
      as (Hs' & H1' & H2' & H3').
    { apply (for_ind (fun x c' =>
               waterTiles c' + landTiles c' + mountainTiles c'
               = waterTiles c + landTiles c + mountainTiles c + Z.of_nat x /\
               0 <= waterTiles c' /\ 0 <= landTiles c' /\ 0 <= mountainTiles c')).
      - lia.
      - intros x c' Hx (Ks & K1 & K2 & K3).
        pose proof (count_tile_sum (grid_get world y x) c') as Hc.
        split; [lia|]. unfold count_tile.
        destruct (F32.lt _ _); [cbn; lia|]. destruct (F32.gt _ _); cbn; lia. }
    lia.
Qed.

(** X17: the counter [mountainTiles] misses the mountain biome.  The tile
    of a cell that [DetermineBiome] classifies [MOUNTAINS] holds an elevation
    from 50 to 69, which is not above [MOUNTAIN_LEVEL]: the loop counts it as
    land. *)
Theorem mountains_counted_as_land (e m : f32) (tile : World.Tile) (c : Counts) :
  F32.valid e = true ->
  World.DetermineBiome e m = World.MOUNTAINS ->
  World.tile_elevation tile = F32.to_int e ->
  (50 <= World.tile_elevation tile <= 69) /\
  count_tile tile c
  = {| waterTiles := waterTiles c; landTiles := landTiles c + 1;
       mountainTiles := mountainTiles c |}.
Proof.
  intros Hv Hb Ht.
  assert (F32.lt e World.HILLS_LEVEL = false /\ F32.lt e World.MOUNTAIN_LEVEL = true)
    as [H1 H2].
  { unfold World.DetermineBiome in Hb.
    destruct (F32.lt e (World.WATER_LEVEL - F32.lit 5 1)%f32); [done|].
    destruct (F32.lt e World.WATER_LEVEL); [done|].
    destruct (F32.lt e World.BEACH_LEVEL); [done|].
    destruct (F32.lt e World.PLAINS_LEVEL).
    { by destruct (F32.lt m (F32.lit 3 10)), (F32.lt m (F32.lit 6 10)). }
    destruct (F32.lt e World.HILLS_LEVEL); [by destruct (F32.lt m (F32.lit 4 10))|].
    by destruct (F32.lt e World.MOUNTAIN_LEVEL). }
  pose proof (to_int_in_mountain_band e Hv H1 H2) as Hr. rewrite <- Ht in Hr.
  split; [exact Hr|].
  assert (forallb (fun n => negb (F32.lt (F32.of_int n) World.WATER_LEVEL)
                            && negb (F32.gt (F32.of_int n) World.MOUNTAIN_LEVEL))
                  (seqZ 50 20) = true) as Hall by (vm_compute; reflexivity).
  rewrite forallb_forall in Hall.
  specialize (Hall (World.tile_elevation tile)
                ltac:(apply list_elem_of_In, elem_of_seqZ; lia)).
  apply andb_true_iff in Hall as [Ha Hb'].
  unfold count_tile. apply negb_true_iff in Ha, Hb'. by rewrite Ha, Hb'.
Qed.

End Statistics.

(* ===================================================================== *)
(** * Rendering *)
(* ===================================================================== *)

Section Rendering.

Import Renderer.
Local Open Scope Z_scope.

(** X18: the player is drawn where its own position projects.
    [WorldToScreen] sends the position of the player (three numbers) to the
    centre of the screen, [(SCREEN_WIDTH / 2, SCREEN_HEIGHT / 2)], the point
    [RenderPlayer] draws at; the camera plays no part. *)
Theorem player_projects_to_screen_centre (camera : Camera) (player : Player.Player) :
  finite (Player.x player) = true -> finite (Player.y player) = true ->
  finite (Player.elevation player) = true ->
  WorldToScreen (Player.x player) (Player.y player) (Player.elevation player)
                camera player
  = (Z.quot SCREEN_WIDTH 2, Z.quot SCREEN_HEIGHT 2).
Proof.
  intros Hx Hy He. unfold WorldToScreen. rewrite !sub_self by done. reflexivity.
Qed.

Lemma outline_channel_spec (c : Z) :
  0 <= c <= 255 ->
  outline_channel c = (if 128 <? c then c - 40 else c + 40) /\
  40 <= outline_channel c <= 215.
Proof.
  intros Hc. unfold outline_channel, World.to_Uint8.
  destruct (Z.ltb_spec 128 c); rewrite Z.mod_small by lia; lia.
Qed.

(** X19: [RenderTile] draws a tile whole or not at all, and its outline
    colour never wraps.  The calls are none, or twelve: the fill colour, six
    lines, the outline colour, four lines; each channel of the outline colour
    is the channel of the tile moved by 40 towards the middle, between 40 and
    215. *)
Theorem RenderTile_calls (tile : World.Tile) (camera : Camera) (player : Player.Player) :
  let c := World.tile_color tile in
  let s := WorldToScreen (F32.of_int (World.tile_x tile)) (F32.of_int (World.tile_y tile))
                         (F32.of_int (World.tile_elevation tile)) camera player in
  let calls := RenderTile tile camera player in
  0 <= World.r c <= 255 -> 0 <= World.g c <= 255 -> 0 <= World.b c <= 255 ->
  (potentially_visible s.1 s.2 = false -> calls = []) /\
  (potentially_visible s.1 s.2 = true ->
     length calls = 12%nat /\
     calls !! 0%nat
       = Some (SDL_SetRenderDrawColor (World.r c) (World.g c) (World.b c) (World.a c)) /\
     calls !! 7%nat
       = Some (SDL_SetRenderDrawColor
                 (if 128 <? World.r c then World.r c - 40 else World.r c + 40)
                 (if 128 <? World.g c then World.g c - 40 else World.g c + 40)
                 (if 128 <? World.b c then World.b c - 40 else World.b c + 40) 255) /\
     forall i, (i < 12)%nat -> i <> 0%nat -> i <> 7%nat ->
       exists x1 y1 x2 y2, calls !! i = Some (SDL_RenderDrawLine x1 y1 x2 y2) /\
         s.1 - 48 <= x1 <= s.1 + 48 /\ s.1 - 48 <= x2 <= s.1 + 48 /\
         s.2 - 24 <= y1 <= s.2 + 24 /\ s.2 - 24 <= y2 <= s.2 + 24).
Proof.
  intros c s calls Hr Hg Hb. subst calls. unfold RenderTile. fold s. fold c.
  destruct s as [sx sy]. cbn [fst snd].
  destruct (potentially_visible sx sy); (split; [done|]); [|done].
  intros _. split; [reflexivity|]. split; [reflexivity|]. split.
  - destruct (outline_channel_spec (World.r c) Hr) as [<- _].
    destruct (outline_channel_spec (World.g c) Hg) as [<- _].
    destruct (outline_channel_spec (World.b c) Hb) as [<- _]. reflexivity.
  - intros i Hi H0 H7.
    do 12 (destruct i as [|i]; [first [done|
      eexists _, _, _, _; split; [reflexivity|]; cbn -[Z.add Z.sub];
      change (Z.quot TILE_HEIGHT 2) with 24; change (Z.quot TILE_WIDTH 2) with 48; lia]|]).
    lia.
Qed.

(** X20: the test [main] makes before it calls [RenderTile] is the test
    [RenderTile] makes itself.  For a world whose tiles hold their own
    coordinates, as those of [GenerateWorld] do, the body of the drawing loop
    makes exactly the calls of [RenderTile]: a tile that passes the test of
    [main] is always drawn. *)
Theorem draw_cell_is_RenderTile (world : grid World.Tile) (camera : Camera)
    (player : Player.Player) (y x : nat) :
  World.tile_x (grid_get world y x) = Z.of_nat x ->
  World.tile_y (grid_get world y x) = Z.of_nat y ->
  let s := WorldToScreen (F32.of_int (Z.of_nat x)) (F32.of_int (Z.of_nat y))
             (F32.of_int (World.tile_elevation (grid_get world y x))) camera player in
  likely_visible s.1 s.2 = potentially_visible s.1 s.2 /\
  draw_cell world camera player y x = RenderTile (grid_get world y x) camera player /\
  length (draw_cell world camera player y x)
  = (if likely_visible s.1 s.2 then 12%nat else 0%nat).
Proof.
  intros Hx Hy s.
  assert (forall sx sy, likely_visible sx sy = potentially_visible sx sy) as Hsame.
  { intros sx sy. unfold likely_visible, potentially_visible,
      TILE_WIDTH, TILE_HEIGHT, SCREEN_WIDTH, SCREEN_HEIGHT.
    repeat match goal with |- context [(?a <? ?b)] =>
      destruct (Z.ltb_spec a b) end; first [reflexivity|lia]. }
  split; [apply Hsame|].
  unfold draw_cell, RenderTile. rewrite Hx, Hy. fold s.
  destruct s as [sx sy]. cbn [fst snd]. rewrite Hsame.
  by destruct (potentially_visible sx sy).
Qed.

End Rendering.

(* ===================================================================== *)
(** * The count of the smoothing kernel *)
(* ===================================================================== *)

Section Kernel_count.

Import World.

Lemma near_count (n i : nat) : (i < n)%nat -> (1 <= length (near n i) <= 3)%nat.
Proof.
  intros Hi. unfold near. cbn [List.filter].
  rewrite (proj2 (andb_true_iff (0 <=? Z.of_nat i)%Z (Z.of_nat i <? Z.of_nat n)%Z))
    by (split; [apply Z.leb_le|apply Z.ltb_lt]; lia).
  destruct (_ && _), (_ && _); cbn [length]; lia.
Qed.

(** X21: pass 3 never divides by zero.  For every cell of the grid the
    kernel counts at least one cell and at most nine, whatever the size of
    the grid (a single row or column included), and the count is the number
    of cells of the clamped 3 by 3 block. *)
Theorem kernel_count_positive (h w : nat) (terrainData : grid TerrainData) (y x : nat) :
  (y < h)%nat -> (x < w)%nat ->
  (1 <= (kernel h w terrainData y x).2 <= 9)%Z /\
  (kernel h w terrainData y x).2 = Z.of_nat (length (neighbourhood h w y x)).
Proof.
  intros Hy Hx. rewrite kernel_neighbourhood by done. cbn [snd].
  split; [|done]. rewrite neighbourhood_length.
  pose proof (near_count h y Hy). pose proof (near_count w x Hx). nia.
Qed.

End Kernel_count.

(* ===================================================================== *)
(** * The theorems above, on examples *)
(* ===================================================================== *)

Lemma idle_player_keeps_position_witness :
  let p' := (Player.HandlePlayerMovement sample_player no_keys (F32.lit 1 60)
               (flat_world 30) 1000 sample_statics).1 in
  Player.x p' = F32.lit 10 1 /\ Player.y p' = F32.lit 10 1.
Proof.
  apply (idle_player_keeps_position sample_player no_keys (F32.lit 1 60)
           (flat_world 30) 1000 sample_statics); reflexivity.
Defined.

Lemma jumper_not_below_terrain_witness :
  let p' := (Player.HandlePlayerMovement sample_player space_only (F32.lit 1 60)
               (flat_world 30) 1000 sample_statics).1 in
  F32.lt (Player.elevation p') (Player.terrainHeight (flat_world 30) p') = false /\
  (Player.isJumping p' = false ->
     Player.elevation p' = Player.terrainHeight (flat_world 30) p' /\
     Player.velocityZ p' = F32.of_int 0).
Proof.
  apply (jumper_not_below_terrain sample_player space_only (F32.lit 1 60)
           (flat_world 30) 1000 sample_statics); reflexivity.
Defined.

Lemma grounded_player_rests_witness :
  let p' := (Player.HandlePlayerMovement sample_player no_keys (F32.lit 1 60)
               (flat_world 30) 1000 sample_statics).1 in
  Player.elevation p' = F32.lit 30 1 /\ Player.isJumping p' = false.
Proof.
  apply (grounded_player_rests sample_player no_keys (F32.lit 1 60)
           (flat_world 30) 1000 sample_statics); reflexivity.
Defined.

Lemma player_tile_in_world_witness :
  let p' := (Player.HandlePlayerMovement sample_player space_only (F32.lit 1 60)
               (flat_world 30) 1000 sample_statics).1 in
  (1 <= F32.to_int (Player.x p') <= 126)%Z /\ (1 <= F32.to_int (Player.y p') <= 126)%Z /\
  Player.in_world (F32.to_int (Player.x p')) (F32.to_int (Player.y p')) = true /\
  Player.terrainHeight (flat_world 30) p'
  = F32.of_int (World.tile_elevation
                  (grid_get (flat_world 30) (Z.to_nat (F32.to_int (Player.y p')))
                            (Z.to_nat (F32.to_int (Player.x p'))))).
Proof.
  apply (player_tile_in_world sample_player space_only (F32.lit 1 60)
           (flat_world 30) 1000 sample_statics); reflexivity.
Defined.

Lemma DetermineBiome_nan_witness :
  World.DetermineBiome S754_nan (F32.lit 1 2) = World.SNOW_CAPS /\
  World.walkable <$> (World.CreateBiomeProperties
                        !! World.DetermineBiome S754_nan (F32.lit 1 2)) = Some false /\
  World.DetermineBiome (F32.lit 30 1) S754_nan = World.FOREST /\
  World.DetermineBiome (F32.lit 40 1) S754_nan = World.FOREST.
Proof.
  destruct (DetermineBiome_nan (F32.lit 30 1) (F32.lit 1 2)) as (H1 & H2 & H3).
  destruct (DetermineBiome_nan (F32.lit 40 1) (F32.lit 1 2)) as (_ & _ & H4).
  split; [exact H1|]. split; [exact H2|].
  split; [apply H3; reflexivity|apply H4; reflexivity].
Defined.

Lemma sample_wetland_dims : grid_dims 2 2 sample_wetland.
Proof. split; [done|]. by repeat constructor. Qed.

Lemma pass2_idempotent_witness :
  World.carve (World.carve wet_cell) = World.carve wet_cell /\
  grid_get (World.pass2 2 2 (World.pass2 2 2 sample_wetland)) 0 0
  = grid_get (World.pass2 2 2 sample_wetland) 0 0.
Proof.
  apply (pass2_idempotent 2 2 sample_wetland 0 0 sample_wetland_dims); lia.
Defined.

Lemma wet_lowland_ends_as_water_witness :
  exists world,
    World.finish_world sample_variation 2 2 sample_wetland = Some world /\
    F32.le (World.elevation (grid_get (World.pass2 2 2 sample_wetland) 0 0))
           (World.WATER_LEVEL - F32.lit 2 1)%f32 = true /\
    World.elevation (grid_get (World.pass3 2 2 (World.pass2 2 2 sample_wetland)) 0 0)
      = World.elevation (grid_get (World.pass2 2 2 sample_wetland) 0 0) /\
    World.tile_walkable (grid_get world 0 0) = false.
Proof.
  apply (wet_lowland_ends_as_water sample_variation 2 2 sample_wetland 0 0
           sample_wetland_dims); first [lia|reflexivity].
Defined.

Lemma kernel_count_positive_witness :
  (1 <= (World.kernel 1 3 [[wet_cell; borderline; wet_cell]] 0 0).2 <= 9)%Z /\
  (World.kernel 1 3 [[wet_cell; borderline; wet_cell]] 0 0).2
  = Z.of_nat (length (neighbourhood 1 3 0 0)).
Proof.
  apply (kernel_count_positive 1 3 [[wet_cell; borderline; wet_cell]] 0 0); lia.
Defined.

Lemma PerlinNoise_reads_in_bounds_witness :
  let st' := snd (Noise.PerlinNoise sample_shuffle (F32.lit 1 4) (F32.lit 3 4) 7
                    Noise.initial) in
  noise_at_checked (Noise.p st') (F32.lit 1 4) (F32.lit 3 4)
  = Some (fst (Noise.PerlinNoise sample_shuffle (F32.lit 1 4) (F32.lit 3 4) 7
                 Noise.initial)).
Proof.
  apply (PerlinNoise_reads_in_bounds sample_shuffle sample_shuffle_permutes
           Noise.initial (F32.lit 1 4) (F32.lit 3 4) 7).
  apply Noise.reachable_initial.
Defined.

Lemma PerlinNoise_history_independent_witness :
  let st2 := snd (Noise.PerlinNoise sample_shuffle (F32.lit 1 2) (F32.lit 1 2) 3
                    Noise.initial) in
  fst (Noise.PerlinNoise sample_shuffle (F32.lit 1 4) (F32.lit 3 4) 7 Noise.initial)
  = fst (Noise.PerlinNoise sample_shuffle (F32.lit 1 4) (F32.lit 3 4) 7 st2) /\
  fst (Noise.PerlinNoise sample_shuffle (F32.lit 1 4) (F32.lit 3 4) 7 Noise.initial)
  = Noise.PerlinNoise_monolithic sample_shuffle (F32.lit 1 4) (F32.lit 3 4) 7.
Proof.
  apply (PerlinNoise_history_independent sample_shuffle sample_shuffle_permutes);
    [apply Noise.reachable_initial
    |apply Noise.reachable_call, Noise.reachable_initial
    |lia].
Defined.

Lemma LayeredNoise_leaves_last_octave_witness :
  let st' := snd (Noise.LayeredNoise sample_shuffle (F32.lit 1 4) (F32.lit 3 4) 2
                    (F32.lit 7 10) (F32.lit 3 1) 4 Noise.initial) in
  Noise.reachable sample_shuffle st' /\
  Noise.lastSeed st' = 5%Z /\
  (5%Z <> (-1)%Z -> Noise.p st' = Noise.seeded_table sample_shuffle 5).
Proof.
  apply (LayeredNoise_leaves_last_octave sample_shuffle sample_shuffle_permutes
           (F32.lit 1 4) (F32.lit 3 4) 2 (F32.lit 7 10) (F32.lit 3 1) 4 Noise.initial);
    [apply Noise.reachable_initial|lia].
Defined.

Lemma PerlinNoise_zero_on_lattice_witness :
  is_zero (fst (Noise.PerlinNoise sample_shuffle (F32.lit 3 1) (F32.lit 5 1) 7
                  Noise.initial)) = true.
Proof.
  apply (PerlinNoise_zero_on_lattice sample_shuffle (F32.lit 3 1) (F32.lit 5 1) 7
           Noise.initial); reflexivity.
Defined.

Lemma LayeredNoise_against_monolithic_witness :
  let l := fst (Noise.octaves_loop sample_shuffle (F32.lit 1 4) (F32.lit 3 4) 2
                  (F32.lit 1 2) (F32.lit 2 1) 7 Noise.initial) in
  (F32.gt (Noise.maxValue l) (F32.of_int 0) = true ->
     fst (Noise.LayeredNoise sample_shuffle (F32.lit 1 4) (F32.lit 3 4) 2
            (F32.lit 1 2) (F32.lit 2 1) 7 Noise.initial)
     = Noise.LayeredNoise_monolithic sample_shuffle (F32.lit 1 4) (F32.lit 3 4) 2
         (F32.lit 1 2) (F32.lit 2 1) 7) /\
  ((2 <= 0)%Z ->
     Noise.LayeredNoise_monolithic sample_shuffle (F32.lit 1 4) (F32.lit 3 4) 2
       (F32.lit 1 2) (F32.lit 2 1) 7 = S754_nan /\
     fst (Noise.LayeredNoise sample_shuffle (F32.lit 1 4) (F32.lit 3 4) 2
            (F32.lit 1 2) (F32.lit 2 1) 7 Noise.initial) = F32.zero).
Proof.
  apply (LayeredNoise_against_monolithic sample_shuffle sample_shuffle_permutes
           (F32.lit 1 4) (F32.lit 3 4) 2 (F32.lit 1 2) (F32.lit 2 1) 7 Noise.initial);
    [apply Noise.reachable_initial|lia].
Defined.

Lemma mountains_counted_as_land_witness :
  let tile := {| World.tile_x := 3; World.tile_y := 4; World.tile_elevation := 60;
                 World.tile_color := World.rgba 150 140 130 255;
                 World.tile_walkable := false |} in
  let c := {| Stats.waterTiles := 5; Stats.landTiles := 7; Stats.mountainTiles := 2 |} in
  (50 <= World.tile_elevation tile <= 69)%Z /\
  Stats.count_tile tile c
  = {| Stats.waterTiles := 5; Stats.landTiles := 8; Stats.mountainTiles := 2 |}.
Proof.
  apply (mountains_counted_as_land (F32.lit 60 1) (F32.lit 1 2)); reflexivity.
Defined.

Lemma player_projects_to_screen_centre_witness :
  Renderer.WorldToScreen (F32.lit 10 1) (F32.lit 10 1) (F32.lit 30 1)
                         sample_camera sample_player
  = (640, 400)%Z.
Proof.
  apply (player_projects_to_screen_centre sample_camera sample_player); reflexivity.
Defined.

Lemma RenderTile_calls_witness :
  let tile := grid_get (flat_world 30) 10 10 in
  let calls := Renderer.RenderTile tile sample_camera sample_player in
  (Renderer.potentially_visible 640 400 = false -> calls = []) /\
  (Renderer.potentially_visible 640 400 = true ->
     length calls = 12%nat /\
     calls !! 0%nat = Some (Renderer.SDL_SetRenderDrawColor 100 210 100 255) /\
     calls !! 7%nat = Some (Renderer.SDL_SetRenderDrawColor 140 170 140 255) /\
     forall i, (i < 12)%nat -> i <> 0%nat -> i <> 7%nat ->
       exists x1 y1 x2 y2, calls !! i = Some (Renderer.SDL_RenderDrawLine x1 y1 x2 y2) /\
         (640 - 48 <= x1 <= 640 + 48)%Z /\ (640 - 48 <= x2 <= 640 + 48)%Z /\
         (400 - 24 <= y1 <= 400 + 24)%Z /\ (400 - 24 <= y2 <= 400 + 24)%Z).
Proof.
  apply (RenderTile_calls (grid_get (flat_world 30) 10 10) sample_camera sample_player);
    cbn; lia.
Defined.

Lemma draw_cell_is_RenderTile_witness :
  let s := Renderer.WorldToScreen (F32.of_int 10) (F32.of_int 10) (F32.of_int 30)
             sample_camera sample_player in
  Renderer.likely_visible s.1 s.2 = Renderer.potentially_visible s.1 s.2 /\
  Renderer.draw_cell (flat_world 30) sample_camera sample_player 10 10
  = Renderer.RenderTile (grid_get (flat_world 30) 10 10) sample_camera sample_player /\
  length (Renderer.draw_cell (flat_world 30) sample_camera sample_player 10 10)
  = (if Renderer.likely_visible s.1 s.2 then 12%nat else 0%nat).
Proof.
  apply (draw_cell_is_RenderTile (flat_world 30) sample_camera sample_player 10 10);
    reflexivity.
Defined.
